(** * Focus-Lock: unlock evaluator, process restriction engine, stores and task service

    A shallow embedding of
      - [src/main/database/database.ts]: class [UnlockService]
        (evaluation of a task list, threshold tracking, XP reward, time
        estimate, the instance kept by the module);
      - [src/main/services/process-monitor.ts]: class [ProcessMonitor]
        (the scan of the process listing, the matching step and the
        termination of processes; the polling timer is left out);
      - [src/renderer/stores/sticky-note-store.ts]: the sticky-note store
        [useStickyNoteStore] and the focus-mode store [useFocusModeStore]
        with all their state-changing actions;
      - [src/renderer/stores/task-store.ts]: the task store [useTaskStore];
      - [src/main/services/task-service.ts]: class [TaskService], over a
        database manager that is a parameter;
      - the shared type declarations ([TaskStatus], [Task], [RestrictedApp],
        [FocusSession], [StickyNote], ...),
    followed by the properties of these components.

    Conventions.  A method of a class takes the object as its first argument
    [this] and returns the new object next to its result.  JavaScript numbers
    that hold counts, percentages, timestamps and durations are integers and
    are kept in [Z] or [nat]; the places where the source computes with
    fractions go through the binary64 model of [JS.number].  A string is the
    sequence of its UTF-16 code units, each below 256 (ASCII and Latin-1),
    one character of [string] for each code unit; see [JSString]. *)

From Stdlib Require Import ZArith Lia Bool List String Ascii.
From Stdlib Require Import DecimalString DecimalZ.
From stdpp Require Import base gmap strings list.
Import ListNotations.

Open Scope string_scope.
Open Scope list_scope.
Open Scope Z_scope.

(* ===================================================================== *)
(** ** JavaScript primitives used by the three components *)
(* ===================================================================== *)

Module JS.

(** Non-negative finite binary64 values.  [Pos m e] is [m * 2^e] with
    [2^52 <= m < 2^53].  The exponent is not bounded: the quotients and
    products formed below lie between 2^-53 and 2^7, far from the
    subnormal and overflow ranges. *)
Inductive number := Zero | Pos (m e : Z).

(** Round-to-nearest, ties-to-even, of the positive rational [n / d]. *)
Definition nearest (n d : Z) : number :=
  if (n <=? 0) || (d <=? 0) then Zero else
  let e0 := Z.log2 n - Z.log2 d - 53 in
  let num := n * 2 ^ Z.max 0 (- e0) in
  let den0 := d * 2 ^ Z.max 0 e0 in
  let '(e, den) :=
    if 2 ^ 53 <=? num / den0 then (e0 + 1, 2 * den0) else (e0, den0) in
  let q := num / den in
  let r := num mod den in
  let m := if 2 * r <? den then q
           else if den <? 2 * r then q + 1
           else if Z.even q then q else q + 1 in
  if m =? 2 ^ 53 then Pos (2 ^ 52) (e + 1) else Pos m e.

Definition numerator (x : number) : Z :=
  match x with Zero => 0 | Pos m e => m * 2 ^ Z.max 0 e end.

Definition denominator (x : number) : Z :=
  match x with Zero => 1 | Pos m e => 2 ^ Z.max 0 (- e) end.

(** A non-negative integer below 2^53 as a number (exact). *)
Definition of_Z (k : Z) : number := nearest k 1.

(** The decimal literal [n/d] of the source text ([0.75] is [literal 3 4]). *)
Definition literal (n d : Z) : number := nearest n d.

(** [a * b] *)
Definition mul (a b : number) : number :=
  nearest (numerator a * numerator b) (denominator a * denominator b).

(** [a / b], for [b] different from zero *)
Definition div (a b : number) : number :=
  nearest (numerator a * denominator b) (denominator a * numerator b).

(** [Math.round(x)]: the integer nearest to [x], a tie going up. *)
Definition round (x : number) : Z :=
  (2 * numerator x + denominator x) / (2 * denominator x).

(** [String(k)] of an integer, as a template literal interpolates it. *)
Definition toString (k : Z) : string := NilEmpty.string_of_int (Z.to_int k).

(** Truthiness of a value of type [number | null]: [null] and [0] are
    falsy (so is NaN, which no timestamp is). *)
Definition truthy (v : option Z) : bool :=
  match v with
  | None => false
  | Some k => negb (k =? 0)
  end.

(** [Math.floor(x)] *)
Definition floor (x : number) : Z := numerator x / denominator x.

(** [Math.ceil(x)] *)
Definition ceil (x : number) : Z := - ((- numerator x) / denominator x).

(** [Math.floor(a / b)] for whole numbers [a] and [b], [b] positive.  The
    numbers above carry no sign: the quotient of a negative [a] is the
    quotient of [-a] with the sign changed, and its floor is the ceiling
    of that quotient with the sign changed (a zero prints as 0 with
    either sign). *)
Definition floorDiv (a b : Z) : Z :=
  if 0 <=? a then floor (div (of_Z a) (of_Z b))
  else - ceil (div (of_Z (- a)) (of_Z b)).

End JS.

(* ===================================================================== *)
(** ** Shared types (the block of type declarations) *)
(* ===================================================================== *)

Inductive TaskStatus := PENDING | COMPLETED | CANCELLED.

Inductive TaskDifficulty := EASY | MEDIUM | HARD.

Definition TaskStatus_eqb (a b : TaskStatus) : bool :=
  match a, b with
  | PENDING, PENDING | COMPLETED, COMPLETED | CANCELLED, CANCELLED => true
  | _, _ => false
  end.

Module Task.
Record t := mk {
  id : string;
  title : string;
  description : string;
  status : TaskStatus;
  difficulty : TaskDifficulty;
  createdAt : Z;
  completedAt : option Z;
  dueDate : option Z
}.
End Task.

Module RestrictedApp.
Record t := mk {
  id : string;
  name : string;
  executableName : string;
  path : option string;
  isEnabled : bool;
  isPreset : bool
}.
End RestrictedApp.

Module FocusSession.
Record t := mk {
  id : string;
  startedAt : Z;
  endedAt : Z;
  duration : Z;
  tasksCompleted : Z;
  wasUnlockedNaturally : bool
}.
End FocusSession.

(* ===================================================================== *)
(** ** UnlockService *)
(* ===================================================================== *)

Module UnlockConditionResult.
Record t := mk {
  canUnlock : bool;
  completedTasks : nat;
  totalTasks : nat;
  completionPercentage : Z;
  remainingTasks : nat
}.
End UnlockConditionResult.

Inductive NotificationType := full_unlock | partial_unlock | progress_update.

Module UnlockNotification.
Record t := mk {
  type : NotificationType;
  message : string;
  completedTasks : nat;
  totalTasks : nat;
  xpEarned : option Z
}.
End UnlockNotification.

Module UnlockService.

Record UnlockServiceConfig := mkConfig {
  autoUnlockOnComplete : bool;
  showNotifications : bool;
  partialUnlockThresholds : list Z
}.

Definition DEFAULT_CONFIG : UnlockServiceConfig :=
  {| autoUnlockOnComplete := true;
     showNotifications := true;
     partialUnlockThresholds := [50; 75] |}.

(** The registered callback is a function of the caller; the model keeps
    which one is registered ([onUnlockCallback], a name) and the calls made
    to it so far ([delivered], oldest first). *)
Definition Callback := nat.

Record t := mk {
  config : UnlockServiceConfig;
  onUnlockCallback : option Callback;
  previousCompletionPercentage : Z;
  notifiedThresholds : gset Z;
  delivered : list (Callback * UnlockNotification.t)
}.

(** [new UnlockService(config)], with the whole configuration given *)
Definition new (c : UnlockServiceConfig) : t :=
  {| config := c;
     onUnlockCallback := None;
     previousCompletionPercentage := 0;
     notifiedThresholds := ∅;
     delivered := [] |}.

Definition isCompleted (task : Task.t) : bool :=
  TaskStatus_eqb (Task.status task) COMPLETED.

(** [Math.round((completedTasks / totalTasks) * 100)] *)
Definition percentage (completedTasks totalTasks : nat) : Z :=
  JS.round
    (JS.mul
       (JS.div (JS.of_Z (Z.of_nat completedTasks)) (JS.of_Z (Z.of_nat totalTasks)))
       (JS.of_Z 100)).

Definition evaluateUnlockCondition (tasks : list Task.t) : UnlockConditionResult.t :=
  let totalTasks := List.length tasks in
  let completedTasks := List.length (List.filter isCompleted tasks) in
  let completionPercentage :=
    if (0 <? totalTasks)%nat then percentage completedTasks totalTasks else 0 in
  let remainingTasks := (totalTasks - completedTasks)%nat in
  {| UnlockConditionResult.canUnlock :=
       (0 <? totalTasks)%nat && (completedTasks =? totalTasks)%nat;
     UnlockConditionResult.completedTasks := completedTasks;
     UnlockConditionResult.totalTasks := totalTasks;
     UnlockConditionResult.completionPercentage := completionPercentage;
     UnlockConditionResult.remainingTasks := remainingTasks |}.

Definition areAllTasksCompleted (tasks : list Task.t) : bool :=
  if (List.length tasks =? 0)%nat then false
  else forallb isCompleted tasks.

(** The test of the loop body of [checkPartialUnlockThreshold]. *)
Definition crosses (this : t) (completionPercentage threshold : Z) : bool :=
  (threshold <=? completionPercentage)
  && (previousCompletionPercentage this <? threshold)
  && negb (bool_decide (threshold ∈ notifiedThresholds this)).

Definition markNotified (this : t) (threshold : Z) : t :=
  {| config := config this;
     onUnlockCallback := onUnlockCallback this;
     previousCompletionPercentage := previousCompletionPercentage this;
     notifiedThresholds := {[threshold]} ∪ notifiedThresholds this;
     delivered := delivered this |}.

(** The [for (const threshold of ...)] loop: the first threshold that
    passes the test is marked and returned. *)
Fixpoint thresholdLoop (this : t) (completionPercentage : Z)
    (thresholds : list Z) : option Z * t :=
  match thresholds with
  | [] => (None, this)
  | threshold :: rest =>
      if crosses this completionPercentage threshold
      then (Some threshold, markNotified this threshold)
      else thresholdLoop this completionPercentage rest
  end.

Definition checkPartialUnlockThreshold (this : t) (tasks : list Task.t)
    : option Z * t :=
  let completionPercentage :=
    UnlockConditionResult.completionPercentage (evaluateUnlockCondition tasks) in
  thresholdLoop this completionPercentage (partialUnlockThresholds (config this)).

(** The reward of one task: [Math.round(baseXP)] after the [switch]. *)
Definition taskXP (task : Task.t) : Z :=
  let baseXP := JS.of_Z 100 in
  let baseXP :=
    match Task.difficulty task with
    | EASY => JS.mul baseXP (JS.literal 3 4)
    | MEDIUM => JS.mul baseXP (JS.literal 1 1)
    | HARD => JS.mul baseXP (JS.literal 3 2)
    end in
  JS.round baseXP.

Definition calculateXPEarned (tasks : list Task.t) : Z :=
  let completedTasks := List.filter isCompleted tasks in
  fold_left (fun totalXP task => totalXP + taskXP task) completedTasks 0.

(** [if (this.onUnlockCallback) this.onUnlockCallback(notification)] *)
Definition invokeCallback (this : t) (n : UnlockNotification.t) : t :=
  match onUnlockCallback this with
  | Some cb =>
      {| config := config this;
         onUnlockCallback := onUnlockCallback this;
         previousCompletionPercentage := previousCompletionPercentage this;
         notifiedThresholds := notifiedThresholds this;
         delivered := delivered this ++ [(cb, n)] |}
  | None => this
  end.

Definition setPrevious (this : t) (p : Z) : t :=
  {| config := config this;
     onUnlockCallback := onUnlockCallback this;
     previousCompletionPercentage := p;
     notifiedThresholds := notifiedThresholds this;
     delivered := delivered this |}.

Definition fullUnlockNotification (condition : UnlockConditionResult.t)
    (xp : Z) : UnlockNotification.t :=
  {| UnlockNotification.type := full_unlock;
     UnlockNotification.message := "All tasks completed! Focus Mode unlocked.";
     UnlockNotification.completedTasks := UnlockConditionResult.completedTasks condition;
     UnlockNotification.totalTasks := UnlockConditionResult.totalTasks condition;
     UnlockNotification.xpEarned := Some xp |}.

Definition partialUnlockNotification (condition : UnlockConditionResult.t)
    (reachedThreshold : Z) : UnlockNotification.t :=
  {| UnlockNotification.type := partial_unlock;
     UnlockNotification.message :=
       JS.toString reachedThreshold +:+ "% complete! Keep going!";
     UnlockNotification.completedTasks := UnlockConditionResult.completedTasks condition;
     UnlockNotification.totalTasks := UnlockConditionResult.totalTasks condition;
     UnlockNotification.xpEarned := None |}.

Definition progressNotification (condition : UnlockConditionResult.t)
    : UnlockNotification.t :=
  {| UnlockNotification.type := progress_update;
     UnlockNotification.message :=
       JS.toString (Z.of_nat (UnlockConditionResult.completedTasks condition))
       +:+ "/"
       +:+ JS.toString (Z.of_nat (UnlockConditionResult.totalTasks condition))
       +:+ " tasks completed";
     UnlockNotification.completedTasks := UnlockConditionResult.completedTasks condition;
     UnlockNotification.totalTasks := UnlockConditionResult.totalTasks condition;
     UnlockNotification.xpEarned := None |}.

Definition processTaskCompletion (this : t) (tasks : list Task.t)
    : option UnlockNotification.t * t :=
  let condition := evaluateUnlockCondition tasks in
  if UnlockConditionResult.canUnlock condition then
    let notification := fullUnlockNotification condition (calculateXPEarned tasks) in
    let this := invokeCallback this notification in
    let this := setPrevious this (UnlockConditionResult.completionPercentage condition) in
    (Some notification, this)
  else
    let '(reachedThreshold, this) := checkPartialUnlockThreshold this tasks in
    match reachedThreshold with
    | Some reachedThreshold =>
        let notification := partialUnlockNotification condition reachedThreshold in
        let this := invokeCallback this notification in
        let this := setPrevious this (UnlockConditionResult.completionPercentage condition) in
        (Some notification, this)
    | None =>
        if negb (UnlockConditionResult.completionPercentage condition
                 =? previousCompletionPercentage this)
        then
          let this := setPrevious this (UnlockConditionResult.completionPercentage condition) in
          (Some (progressNotification condition), this)
        else (None, this)
    end.

Definition setUnlockCallback (this : t) (callback : Callback) : t :=
  {| config := config this;
     onUnlockCallback := Some callback;
     previousCompletionPercentage := previousCompletionPercentage this;
     notifiedThresholds := notifiedThresholds this;
     delivered := delivered this |}.

Definition clearUnlockCallback (this : t) : t :=
  {| config := config this;
     onUnlockCallback := None;
     previousCompletionPercentage := previousCompletionPercentage this;
     notifiedThresholds := notifiedThresholds this;
     delivered := delivered this |}.

Definition resetTracking (this : t) : t :=
  {| config := config this;
     onUnlockCallback := onUnlockCallback this;
     previousCompletionPercentage := 0;
     notifiedThresholds := ∅;
     delivered := delivered this |}.

(** A tracking epoch: the calls of [processTaskCompletion] made one after
    the other on the task lists [calls], with the notifications returned. *)
Fixpoint processAll (this : t) (calls : list (list Task.t))
    : list (option UnlockNotification.t) * t :=
  match calls with
  | [] => ([], this)
  | tasks :: rest =>
      let '(n, this) := processTaskCompletion this tasks in
      let '(ns, this) := processAll this rest in
      (n :: ns, this)
  end.

(** [Partial<UnlockServiceConfig>]: the fields that are given. *)
Record PartialConfig := mkPartial {
  givenAutoUnlockOnComplete : option bool;
  givenShowNotifications : option bool;
  givenPartialUnlockThresholds : option (list Z)
}.

(** [{ ...base, ...partial }] *)
Definition spread (base : UnlockServiceConfig) (partial : PartialConfig)
    : UnlockServiceConfig :=
  {| autoUnlockOnComplete :=
       match givenAutoUnlockOnComplete partial with
       | Some v => v
       | None => autoUnlockOnComplete base
       end;
     showNotifications :=
       match givenShowNotifications partial with
       | Some v => v
       | None => showNotifications base
       end;
     partialUnlockThresholds :=
       match givenPartialUnlockThresholds partial with
       | Some v => v
       | None => partialUnlockThresholds base
       end |}.

(** [new UnlockService(config)] *)
Definition create (partial : PartialConfig) : t := new (spread DEFAULT_CONFIG partial).

Definition getConfig (this : t) : UnlockServiceConfig := config this.

Definition updateConfig (this : t) (partial : PartialConfig) : t :=
  {| config := spread (config this) partial;
     onUnlockCallback := onUnlockCallback this;
     previousCompletionPercentage := previousCompletionPercentage this;
     notifiedThresholds := notifiedThresholds this;
     delivered := delivered this |}.

Definition isAutoUnlockEnabled (this : t) : bool :=
  autoUnlockOnComplete (config this).

(** Milliseconds, at 15 minutes a task that is not completed. *)
Definition getEstimatedTimeRemaining (tasks : list Task.t) : Z :=
  let remainingTasks :=
    Z.of_nat (List.length (List.filter (fun t => negb (isCompleted t)) tasks)) in
  let avgTaskMinutes := 15 in
  remainingTasks * avgTaskMinutes * 60 * 1000.

Definition formatTimeRemaining (tasks : list Task.t) : string :=
  let ms := getEstimatedTimeRemaining tasks in
  let minutes := JS.round (JS.div (JS.of_Z ms) (JS.of_Z 60000)) in
  if minutes <? 60 then "~" +:+ JS.toString minutes +:+ "m"
  else
    let hours := JS.floor (JS.div (JS.of_Z minutes) (JS.of_Z 60)) in
    let remainingMinutes := Z.rem minutes 60 in
    "~" +:+ JS.toString hours +:+ "h " +:+ JS.toString remainingMinutes +:+ "m".

(** The module keeps one instance, created on first use
    ([unlockServiceInstance], [null] at first). *)
Definition getUnlockService (partial : PartialConfig) (unlockServiceInstance : option t)
    : t * option t :=
  match unlockServiceInstance with
  | Some instance => (instance, unlockServiceInstance)
  | None => let instance := create partial in (instance, Some instance)
  end.

(** The instance that was kept, if any, has its callback cleared before the
    module lets go of it: the result is that object and the new content of
    [unlockServiceInstance]. *)
Definition resetUnlockService (unlockServiceInstance : option t)
    : option t * option t :=
  match unlockServiceInstance with
  | Some instance => (Some (clearUnlockCallback instance), None)
  | None => (None, None)
  end.

End UnlockService.


(* ===================================================================== *)
(** ** Strings of the process monitor *)
(* ===================================================================== *)

(** A JavaScript string is the sequence of its UTF-16 code units.  The
    strings of this development are those whose code units are all below
    256 (the ASCII and Latin-1 characters): a character of [string] is one
    code unit, so that [String.length] is [length].  A code unit is
    written by its decimal code where it is not printable ASCII:
    ["201"%char] is the capital E with acute accent, ["160"%char] the
    no-break space.  On these strings the methods below are the ones of
    the language: [toLowerCase] maps A to Z and the capital letters of
    Latin-1 (codes 192 to 222 without the multiplication sign, 215) to
    the letter 32 places further, and [trim] takes away the white space
    and line terminators of the language, which below 256 are the tab,
    line feed, vertical tab, form feed, carriage return, space and
    no-break space. *)
Module JSString.

Definition quote : ascii := "034"%char.
Definition comma : ascii := ","%char.
Definition newline : ascii := "010"%char.

Definition lowerChar (c : ascii) : ascii :=
  let n := nat_of_ascii c in
  if (65 <=? n)%nat && (n <=? 90)%nat
     || (192 <=? n)%nat && (n <=? 214)%nat
     || (216 <=? n)%nat && (n <=? 222)%nat
  then ascii_of_nat (n + 32) else c.

(** [s.toLowerCase()] *)
Fixpoint toLowerCase (s : string) : string :=
  match s with
  | EmptyString => EmptyString
  | String c rest => String (lowerChar c) (toLowerCase rest)
  end.

(** White space and line terminators. *)
Definition isWhiteSpace (c : ascii) : bool :=
  Ascii.is_space c || Ascii.eqb c "160"%char.

Fixpoint trimStart (s : string) : string :=
  match s with
  | EmptyString => EmptyString
  | String c rest => if isWhiteSpace c then trimStart rest else s
  end.

Fixpoint trimEnd (s : string) : string :=
  match s with
  | EmptyString => EmptyString
  | String c rest =>
      match trimEnd rest with
      | EmptyString => if isWhiteSpace c then EmptyString else String c EmptyString
      | kept => String c kept
      end
  end.

(** [s.trim()] *)
Definition trim (s : string) : string := trimEnd (trimStart s).

(** [s.split('\n')]: the empty string gives one empty piece. *)
Fixpoint splitLines (s : string) : list string :=
  match s with
  | EmptyString => [EmptyString]
  | String c rest =>
      match splitLines rest with
      | current :: others =>
          if Ascii.eqb c newline then EmptyString :: current :: others
          else String c current :: others
      | [] => [String c EmptyString]
      end
  end.

(** The longest prefix of characters that pass [keep], and what follows it. *)
Fixpoint span (keep : ascii -> bool) (s : string) : string * string :=
  match s with
  | EmptyString => (EmptyString, EmptyString)
  | String c rest =>
      if keep c then let '(taken, remaining) := span keep rest in (String c taken, remaining)
      else (EmptyString, s)
  end.

Definition isDigit (c : ascii) : bool :=
  let n := nat_of_ascii c in (48 <=? n)%nat && (n <=? 57)%nat.

Definition notQuote (c : ascii) : bool := negb (Ascii.eqb c quote).

(** The pattern of [getRunningProcesses] matched at the start of [s]: a
    quote, the name group (one or more characters other than a quote), a
    quote, a comma, a quote, the digits group (one or more digits), a quote.
    The result is the two groups.  Each group is a longest run, since the
    character after a shorter run is one the rest of the pattern refuses. *)
Definition matchRowHere (s : string) : option (string * string) :=
  match s with
  | String q0 s1 =>
      if Ascii.eqb q0 quote then
        let '(name, r1) := span notQuote s1 in
        match name, r1 with
        | String _ _, String q1 (String c (String q2 r2)) =>
            if Ascii.eqb q1 quote && Ascii.eqb c comma && Ascii.eqb q2 quote then
              let '(digits, r3) := span isDigit r2 in
              match digits, r3 with
              | String _ _, String q3 _ =>
                  if Ascii.eqb q3 quote then Some (name, digits) else None
              | _, _ => None
              end
            else None
        | _, _ => None
        end
      else None
  | EmptyString => None
  end.

(** [line.match(pattern)]: the leftmost match in the line. *)
Fixpoint matchRow (line : string) : option (string * string) :=
  match matchRowHere line with
  | Some groups => Some groups
  | None =>
      match line with
      | EmptyString => None
      | String _ rest => matchRow rest
      end
  end.

(** [parseInt(digits, 10)] of a non-empty run of digits: the number the
    digits write, which a JavaScript number holds exactly below 2^53 (a
    pid is far below). *)
Definition parseInt (digits : string) : Z :=
  fold_left (fun acc c => 10 * acc + (Z.of_nat (nat_of_ascii c) - 48))
            (list_ascii_of_string digits) 0.

Fixpoint dropChars (n : nat) (s : string) : string :=
  match n, s with
  | O, _ => s
  | S k, String _ rest => dropChars k rest
  | S _, EmptyString => EmptyString
  end.

(** [s.replace(pattern, '')] with a string pattern: the first occurrence
    of [pattern] is removed. *)
Fixpoint removeFirst (pattern s : string) : string :=
  if String.prefix pattern s then dropChars (String.length pattern) s
  else match s with
       | EmptyString => EmptyString
       | String c rest => String c (removeFirst pattern rest)
       end.

End JSString.

(* ===================================================================== *)
(** ** ProcessMonitor *)
(* ===================================================================== *)

Module ProcessInfo.
Record t := mk {
  pid : Z;
  name : string;
  executableName : string
}.
End ProcessInfo.

Module TerminationResult.
Record t := mk {
  success : bool;
  pid : Z;
  processName : string;
  error : option string
}.
End TerminationResult.

(** What a rejected command throws: an [Error] with its message, or some
    other value. *)
Inductive Thrown := ErrorObject (message : string) | OtherValue.

(** The outcome of [await execAsync(command, ...)]. *)
Inductive ExecOutcome := Resolved (stdout : string) | Rejected (error : Thrown).

Module ProcessMonitor.

Record ProcessMonitorConfig := mkConfig {
  pollIntervalMs : Z;
  gracefulTerminationFirst : bool;
  maxRetries : Z
}.

Definition DEFAULT_CONFIG : ProcessMonitorConfig :=
  {| pollIntervalMs := 1500;
     gracefulTerminationFirst := true;
     maxRetries := 3 |}.

Record t := mk {
  config : ProcessMonitorConfig;
  isMonitoring : bool
}.

Definition new (c : ProcessMonitorConfig) : t :=
  {| config := c; isMonitoring := false |}.

(** One [ProcessInfo] per line of the listing that matches the pattern. *)
Definition parseLine (line : string) : list ProcessInfo.t :=
  match JSString.matchRow line with
  | Some (name, digits) =>
      [ {| ProcessInfo.pid := JSString.parseInt digits;
           ProcessInfo.name := JSString.removeFirst ".exe" name;
           ProcessInfo.executableName := JSString.toLowerCase name |} ]
  | None => []
  end.

Definition parseTasklist (stdout : string) : list ProcessInfo.t :=
  flat_map parseLine (JSString.splitLines (JSString.trim stdout)).

(** The inner loop of [detectRestrictedProcesses]: the process is pushed
    at the first enabled app it matches, and the loop is left. *)
Fixpoint matchApps (process : ProcessInfo.t) (enabledApps : list RestrictedApp.t)
    (detected : list ProcessInfo.t) : list ProcessInfo.t :=
  match enabledApps with
  | [] => detected
  | app :: rest =>
      if String.eqb (ProcessInfo.executableName process)
                    (JSString.toLowerCase (RestrictedApp.executableName app))
      then detected ++ [process]
      else matchApps process rest detected
  end.

(** The two nested loops, over the running processes in scan order. *)
Definition matchProcesses (runningProcesses : list ProcessInfo.t)
    (restrictedApps : list RestrictedApp.t) : list ProcessInfo.t :=
  let enabledApps := List.filter RestrictedApp.isEnabled restrictedApps in
  fold_left (fun detected process => matchApps process enabledApps detected)
            runningProcesses [].

Definition taskkill (pid : Z) (force : bool) : string :=
  if force then "taskkill /PID " +:+ JS.toString pid +:+ " /F"
  else "taskkill /PID " +:+ JS.toString pid.

Definition errorMessageOf (error : Thrown) : string :=
  match error with
  | ErrorObject message => message
  | OtherValue => "Unknown error"
  end.

Definition succeeded (pid : Z) (processName : string) : TerminationResult.t :=
  {| TerminationResult.success := true;
     TerminationResult.pid := pid;
     TerminationResult.processName := processName;
     TerminationResult.error := None |}.

Definition failed (pid : Z) (processName : string) (error : Thrown)
    : TerminationResult.t :=
  {| TerminationResult.success := false;
     TerminationResult.pid := pid;
     TerminationResult.processName := processName;
     TerminationResult.error := Some (errorMessageOf error) |}.

(** The rest of the monitor object: the timer and the two callbacks, each
    a name when registered, with the calls made to them, oldest first. *)
Definition Hook := nat.

Record Hooks := mkHooks {
  pollTimer : option nat;
  onRestrictedProcessDetected : option Hook;
  onProcessTerminated : option Hook;
  detectedCalls : list (Hook * ProcessInfo.t);
  terminatedCalls : list (Hook * TerminationResult.t)
}.

(** [if (this.onProcessTerminated) this.onProcessTerminated(result)] *)
Definition notifyTerminated (hooks : Hooks) (result : TerminationResult.t) : Hooks :=
  match onProcessTerminated hooks with
  | Some hook =>
      {| pollTimer := pollTimer hooks;
         onRestrictedProcessDetected := onRestrictedProcessDetected hooks;
         onProcessTerminated := onProcessTerminated hooks;
         detectedCalls := detectedCalls hooks;
         terminatedCalls := terminatedCalls hooks ++ [(hook, result)] |}
  | None => hooks
  end.

(** The operating system is a parameter: [execAsync] runs a command line in
    a state of the world and resolves or rejects.  [Sys] pairs the world
    with the command lines issued so far, oldest first. *)
Section WithOS.

Context {World : Type}.
Variable execAsync : string -> World -> ExecOutcome * World.

Record Sys := mkSys {
  world : World;
  issued : list string
}.

Definition exec (command : string) (s : Sys) : ExecOutcome * Sys :=
  let '(outcome, w) := execAsync command (world s) in
  (outcome, {| world := w; issued := issued s ++ [command] |}).

Definition getRunningProcesses (this : t) (s : Sys) : list ProcessInfo.t * Sys :=
  let '(outcome, s) := exec "tasklist /FO CSV /NH" s in
  match outcome with
  | Resolved stdout => (parseTasklist stdout, s)
  | Rejected _ => ([], s)
  end.

Definition detectRestrictedProcesses (this : t) (restrictedApps : list RestrictedApp.t)
    (s : Sys) : list ProcessInfo.t * Sys :=
  let '(runningProcesses, s) := getRunningProcesses this s in
  (matchProcesses runningProcesses restrictedApps, s).

(** The forced request and the result built from its outcome. *)
Definition forceKill (pid : Z) (processName : string) (s : Sys)
    : TerminationResult.t * Sys :=
  let '(outcome, s) := exec (taskkill pid true) s in
  match outcome with
  | Resolved _ => (succeeded pid processName, s)
  | Rejected error => (failed pid processName error, s)
  end.

Definition terminateProcess (this : t) (pid : Z) (processName : string) (s : Sys)
    : TerminationResult.t * Sys :=
  if gracefulTerminationFirst (config this) then
    let '(outcome, s) := exec (taskkill pid false) s in
    match outcome with
    | Resolved _ => (succeeded pid processName, s)
    | Rejected _ => forceKill pid processName s
    end
  else forceKill pid processName s.

(** The loop of [terminateRestrictedProcesses] over the detected processes. *)
Fixpoint terminateEach (this : t) (detectedProcesses : list ProcessInfo.t)
    (results : list TerminationResult.t) (hooks : Hooks) (s : Sys)
    : list TerminationResult.t * Hooks * Sys :=
  match detectedProcesses with
  | [] => (results, hooks, s)
  | process :: rest =>
      let '(result, s) :=
        terminateProcess this (ProcessInfo.pid process) (ProcessInfo.name process) s in
      let results := results ++ [result] in
      let hooks := notifyTerminated hooks result in
      terminateEach this rest results hooks s
  end.

Definition terminateRestrictedProcesses (this : t) (hooks : Hooks)
    (restrictedApps : list RestrictedApp.t) (s : Sys)
    : list TerminationResult.t * Hooks * Sys :=
  let '(detectedProcesses, s) := detectRestrictedProcesses this restrictedApps s in
  terminateEach this detectedProcesses [] hooks s.

End WithOS.

Arguments Sys World : clear implicits.

End ProcessMonitor.

(** A scripted operating system, as the unit tests mock [exec]: the world
    is the list of outcomes still to be given, one per command. *)
Definition scripted (command : string) (script : list ExecOutcome)
    : ExecOutcome * list ExecOutcome :=
  match script with
  | outcome :: rest => (outcome, rest)
  | [] => (Rejected (ErrorObject "Command failed"), [])
  end.

Definition boot (script : list ExecOutcome) : ProcessMonitor.Sys (list ExecOutcome) :=
  {| ProcessMonitor.world := script; ProcessMonitor.issued := [] |}.

(* ===================================================================== *)
(** ** The focus-mode store ([useFocusModeStore]) *)
(* ===================================================================== *)

(** An action of the store reads the state with [get()] and writes some of
    its fields with [set(...)]; here it is a function from state to state,
    with a returned value where the action has one.  What an action reads
    from outside is an argument: each reading of [Date.now()] ([now], in
    milliseconds) and each identifier made by [generateId()]. *)
Module FocusModeStore.

Record FocusModeStoreState := mk {
  isActive : bool;
  startedAt : option Z;
  totalFocusTime : Z;
  currentSessionTime : Z;
  restrictedApps : list RestrictedApp.t;
  sessions : list FocusSession.t;
  lastEmergencyUnlock : option Z;
  emergencyUnlockCooldown : Z
}.

Definition preset (id name executableName : string) (isEnabled : bool)
    : RestrictedApp.t :=
  {| RestrictedApp.id := id;
     RestrictedApp.name := name;
     RestrictedApp.executableName := executableName;
     RestrictedApp.path := None;
     RestrictedApp.isEnabled := isEnabled;
     RestrictedApp.isPreset := true |}.

Definition DEFAULT_RESTRICTED_APPS : list RestrictedApp.t :=
  [ preset "steam" "Steam" "steam.exe" true;
    preset "epic" "Epic Games" "EpicGamesLauncher.exe" true;
    preset "discord" "Discord" "Discord.exe" false;
    preset "spotify" "Spotify" "Spotify.exe" false ].

Definition initialState : FocusModeStoreState :=
  {| isActive := false;
     startedAt := None;
     totalFocusTime := 0;
     currentSessionTime := 0;
     restrictedApps := DEFAULT_RESTRICTED_APPS;
     sessions := [];
     lastEmergencyUnlock := None;
     emergencyUnlockCooldown := 30 * 60 * 1000 |}.

Definition startFocusMode (now : Z) (s : FocusModeStoreState) : FocusModeStoreState :=
  {| isActive := true;
     startedAt := Some now;
     totalFocusTime := totalFocusTime s;
     currentSessionTime := 0;
     restrictedApps := restrictedApps s;
     sessions := sessions s;
     lastEmergencyUnlock := lastEmergencyUnlock s;
     emergencyUnlockCooldown := emergencyUnlockCooldown s |}.

(** [if (!startedAt) return] leaves on [null] and on [0]. *)
Definition stopFocusMode (now : Z) (newId : string) (wasNatural : bool)
    (tasksCompleted : Z) (s : FocusModeStoreState) : FocusModeStoreState :=
  if negb (JS.truthy (startedAt s)) then s
  else
    match startedAt s with
    | None => s
    | Some started =>
        let duration := now - started in
        let newSession :=
          {| FocusSession.id := newId;
             FocusSession.startedAt := started;
             FocusSession.endedAt := now;
             FocusSession.duration := duration;
             FocusSession.tasksCompleted := tasksCompleted;
             FocusSession.wasUnlockedNaturally := wasNatural |} in
        {| isActive := false;
           startedAt := None;
           totalFocusTime := totalFocusTime s + duration;
           currentSessionTime := 0;
           restrictedApps := restrictedApps s;
           sessions := sessions s ++ [newSession];
           lastEmergencyUnlock := lastEmergencyUnlock s;
           emergencyUnlockCooldown := emergencyUnlockCooldown s |}
    end.

Definition updateSessionTime (now : Z) (s : FocusModeStoreState) : FocusModeStoreState :=
  if negb (isActive s) || negb (JS.truthy (startedAt s)) then s
  else
    match startedAt s with
    | None => s
    | Some started =>
        {| isActive := isActive s;
           startedAt := startedAt s;
           totalFocusTime := totalFocusTime s;
           currentSessionTime := now - started;
           restrictedApps := restrictedApps s;
           sessions := sessions s;
           lastEmergencyUnlock := lastEmergencyUnlock s;
           emergencyUnlockCooldown := emergencyUnlockCooldown s |}
    end.

Definition setRestrictedApps (apps : list RestrictedApp.t) (s : FocusModeStoreState)
    : FocusModeStoreState :=
  {| isActive := isActive s;
     startedAt := startedAt s;
     totalFocusTime := totalFocusTime s;
     currentSessionTime := currentSessionTime s;
     restrictedApps := apps;
     sessions := sessions s;
     lastEmergencyUnlock := lastEmergencyUnlock s;
     emergencyUnlockCooldown := emergencyUnlockCooldown s |}.

(** The argument of [addRestrictedApp]: a [RestrictedApp] without [id] and
    [isPreset]. *)
Record NewRestrictedApp := mkNew {
  newName : string;
  newExecutableName : string;
  newPath : option string;
  newIsEnabled : bool
}.

Definition addRestrictedApp (newId : string) (app : NewRestrictedApp)
    (s : FocusModeStoreState) : FocusModeStoreState :=
  let newApp :=
    {| RestrictedApp.id := newId;
       RestrictedApp.name := newName app;
       RestrictedApp.executableName := newExecutableName app;
       RestrictedApp.path := newPath app;
       RestrictedApp.isEnabled := newIsEnabled app;
       RestrictedApp.isPreset := false |} in
  setRestrictedApps (restrictedApps s ++ [newApp]) s.

Definition removeRestrictedApp (id : string) (s : FocusModeStoreState)
    : FocusModeStoreState :=
  setRestrictedApps
    (List.filter (fun app => negb (String.eqb (RestrictedApp.id app) id)
                             || RestrictedApp.isPreset app)
                 (restrictedApps s)) s.

Definition toggleRestrictedApp (id : string) (s : FocusModeStoreState)
    : FocusModeStoreState :=
  setRestrictedApps
    (map (fun app =>
            if String.eqb (RestrictedApp.id app) id then
              {| RestrictedApp.id := RestrictedApp.id app;
                 RestrictedApp.name := RestrictedApp.name app;
                 RestrictedApp.executableName := RestrictedApp.executableName app;
                 RestrictedApp.path := RestrictedApp.path app;
                 RestrictedApp.isEnabled := negb (RestrictedApp.isEnabled app);
                 RestrictedApp.isPreset := RestrictedApp.isPreset app |}
            else app)
         (restrictedApps s)) s.

(** The argument [updates] of [updateRestrictedApp]: the fields given. *)
Record RestrictedAppUpdates := mkUpdates {
  updId : option string;
  updName : option string;
  updExecutableName : option string;
  updPath : option string;
  updIsEnabled : option bool;
  updIsPreset : option bool
}.

Definition given {A} (update : option A) (current : A) : A :=
  match update with
  | Some v => v
  | None => current
  end.

Definition updateRestrictedApp (id : string) (updates : RestrictedAppUpdates)
    (s : FocusModeStoreState) : FocusModeStoreState :=
  setRestrictedApps
    (map (fun app =>
            if String.eqb (RestrictedApp.id app) id then
              {| RestrictedApp.id := given (updId updates) (RestrictedApp.id app);
                 RestrictedApp.name := given (updName updates) (RestrictedApp.name app);
                 RestrictedApp.executableName :=
                   given (updExecutableName updates) (RestrictedApp.executableName app);
                 RestrictedApp.path :=
                   match updPath updates with
                   | Some p => Some p
                   | None => RestrictedApp.path app
                   end;
                 RestrictedApp.isEnabled :=
                   given (updIsEnabled updates) (RestrictedApp.isEnabled app);
                 RestrictedApp.isPreset :=
                   given (updIsPreset updates) (RestrictedApp.isPreset app) |}
            else app)
         (restrictedApps s)) s.

Definition canEmergencyUnlock (now : Z) (s : FocusModeStoreState) : bool :=
  if negb (isActive s) then false
  else if negb (JS.truthy (lastEmergencyUnlock s)) then true
  else match lastEmergencyUnlock s with
       | Some last => emergencyUnlockCooldown s <=? now - last
       | None => true
       end.

Definition setLastEmergencyUnlock (now : Z) (s : FocusModeStoreState)
    : FocusModeStoreState :=
  {| isActive := isActive s;
     startedAt := startedAt s;
     totalFocusTime := totalFocusTime s;
     currentSessionTime := currentSessionTime s;
     restrictedApps := restrictedApps s;
     sessions := sessions s;
     lastEmergencyUnlock := Some now;
     emergencyUnlockCooldown := emergencyUnlockCooldown s |}.

(** [nowCheck] is the reading made by [canEmergencyUnlock], [nowStop] and
    [newId] the ones made by [stopFocusMode], [nowMark] the one stored. *)
Definition emergencyUnlock (nowCheck nowStop : Z) (newId : string) (nowMark : Z)
    (s : FocusModeStoreState) : bool * FocusModeStoreState :=
  if negb (canEmergencyUnlock nowCheck s) then (false, s)
  else
    let s := stopFocusMode nowStop newId false 0 s in
    let s := setLastEmergencyUnlock nowMark s in
    (true, s).

Definition getEmergencyUnlockCooldownRemaining (now : Z) (s : FocusModeStoreState) : Z :=
  if negb (JS.truthy (lastEmergencyUnlock s)) then 0
  else
    match lastEmergencyUnlock s with
    | None => 0
    | Some last =>
        let elapsed := now - last in
        Z.max 0 (emergencyUnlockCooldown s - elapsed)
    end.

Definition getEnabledRestrictedApps (s : FocusModeStoreState) : list RestrictedApp.t :=
  List.filter RestrictedApp.isEnabled (restrictedApps s).

Definition getSessionHistory (s : FocusModeStoreState) : list FocusSession.t :=
  sessions s.

Definition resetFocusMode (s : FocusModeStoreState) : FocusModeStoreState :=
  {| isActive := false;
     startedAt := None;
     totalFocusTime := totalFocusTime s;
     currentSessionTime := 0;
     restrictedApps := restrictedApps s;
     sessions := sessions s;
     lastEmergencyUnlock := None;
     emergencyUnlockCooldown := emergencyUnlockCooldown s |}.

(** [ms % 3600000] takes the sign of [ms]. *)
Definition formatTime (ms : Z) : string :=
  let hours := JS.floorDiv ms 3600000 in
  let minutes := JS.floorDiv (Z.rem ms 3600000) 60000 in
  if 0 <? hours then JS.toString hours +:+ "h " +:+ JS.toString minutes +:+ "m"
  else JS.toString minutes +:+ "m".

Definition getTotalFocusTimeFormatted (s : FocusModeStoreState) : string :=
  formatTime (totalFocusTime s + currentSessionTime s).

(** The state-changing actions of the store, each with what it reads from
    outside. *)
Inductive Action :=
| StartFocusMode (now : Z)
| StopFocusMode (now : Z) (newId : string) (wasNatural : bool) (tasksCompleted : Z)
| UpdateSessionTime (now : Z)
| AddRestrictedApp (newId : string) (app : NewRestrictedApp)
| RemoveRestrictedApp (id : string)
| ToggleRestrictedApp (id : string)
| UpdateRestrictedApp (id : string) (updates : RestrictedAppUpdates)
| EmergencyUnlock (nowCheck nowStop : Z) (newId : string) (nowMark : Z)
| ResetFocusMode.

Definition step (s : FocusModeStoreState) (a : Action) : FocusModeStoreState :=
  match a with
  | StartFocusMode now => startFocusMode now s
  | StopFocusMode now newId wasNatural tasksCompleted =>
      stopFocusMode now newId wasNatural tasksCompleted s
  | UpdateSessionTime now => updateSessionTime now s
  | AddRestrictedApp newId app => addRestrictedApp newId app s
  | RemoveRestrictedApp id => removeRestrictedApp id s
  | ToggleRestrictedApp id => toggleRestrictedApp id s
  | UpdateRestrictedApp id updates => updateRestrictedApp id updates s
  | EmergencyUnlock nowCheck nowStop newId nowMark =>
      (emergencyUnlock nowCheck nowStop newId nowMark s).2
  | ResetFocusMode => resetFocusMode s
  end.

(** The state after a sequence of actions. *)
Definition run (s : FocusModeStoreState) (actions : list Action) : FocusModeStoreState :=
  fold_left step actions s.

End FocusModeStore.

(* ===================================================================== *)
(** ** The sticky-note store ([useStickyNoteStore]) *)
(* ===================================================================== *)

(** Array methods of the stores.  A callback of [map] that reads the clock
    reads it once for each element it rebuilds: the reading made at the
    element of index [i] is [now i]. *)
Module JSArray.

Fixpoint mapFrom {A B} (f : nat -> A -> B) (i : nat) (l : list A) : list B :=
  match l with
  | [] => []
  | a :: rest => f i a :: mapFrom f (S i) rest
  end.

(** [l.map((a, i) => f i a)] *)
Definition mapIndexed {A B} (f : nat -> A -> B) (l : list A) : list B :=
  mapFrom f 0 l.

(** [l.findIndex(p)], [None] for -1 *)
Fixpoint findIndex {A} (p : A -> bool) (l : list A) : option nat :=
  match l with
  | [] => None
  | a :: rest =>
      if p a then Some 0%nat
      else match findIndex p rest with
           | Some i => Some (S i)
           | None => None
           end
  end.

End JSArray.

(** Fields that may be missing. *)
Module Optional.

(** [value ?? fallback] *)
Definition orElse {A} (value : option A) (fallback : A) : A :=
  match value with
  | Some v => v
  | None => fallback
  end.

(** [payload?.field] *)
Definition field {P A} (payload : option P) (get : P -> option A) : option A :=
  match payload with
  | Some p => get p
  | None => None
  end.

End Optional.

Inductive StickyNoteColor := YELLOW | BLUE | GREEN | PINK | PURPLE | ORANGE.

Module StickyNotePosition.
Record t := mk {
  x : Z;
  y : Z;
  width : Z;
  height : Z
}.
End StickyNotePosition.

(** [Partial<StickyNotePosition>]: the fields given. *)
Module PartialPosition.
Record t := mk {
  x : option Z;
  y : option Z;
  width : option Z;
  height : option Z
}.
End PartialPosition.

Module StickyNote.
Record t := mk {
  id : string;
  taskId : option string;
  content : string;
  color : StickyNoteColor;
  position : StickyNotePosition.t;
  isAlwaysOnTop : bool;
  isMinimized : bool;
  createdAt : Z;
  updatedAt : Z
}.
End StickyNote.

Module CreateStickyNotePayload.
Record t := mk {
  taskId : option string;
  content : option string;
  color : option StickyNoteColor;
  position : option PartialPosition.t
}.
End CreateStickyNotePayload.

(** [taskId] may be given as [null]. *)
Module UpdateStickyNotePayload.
Record t := mk {
  taskId : option (option string);
  content : option string;
  color : option StickyNoteColor;
  position : option PartialPosition.t;
  isAlwaysOnTop : option bool;
  isMinimized : option bool
}.
End UpdateStickyNotePayload.

Module StickyNoteStore.

Record StickyNoteState := mk {
  notes : list StickyNote.t;
  activeNoteId : option string
}.

Definition DEFAULT_POSITION : StickyNotePosition.t :=
  {| StickyNotePosition.x := 100;
     StickyNotePosition.y := 100;
     StickyNotePosition.width := 250;
     StickyNotePosition.height := 200 |}.

Definition initialState : StickyNoteState :=
  {| notes := []; activeNoteId := None |}.

(** [{ ...position, ...given }] *)
Definition mergePosition (position : StickyNotePosition.t) (given : PartialPosition.t)
    : StickyNotePosition.t :=
  {| StickyNotePosition.x := Optional.orElse (PartialPosition.x given) (StickyNotePosition.x position);
     StickyNotePosition.y := Optional.orElse (PartialPosition.y given) (StickyNotePosition.y position);
     StickyNotePosition.width :=
       Optional.orElse (PartialPosition.width given) (StickyNotePosition.width position);
     StickyNotePosition.height :=
       Optional.orElse (PartialPosition.height given) (StickyNotePosition.height position) |}.

(** The note [addNote] builds.  [payload?.taskId || null] and
    [payload?.content || ''] take the empty string for nothing. *)
Definition newNote (newId : string) (now : Z)
    (payload : option CreateStickyNotePayload.t) (existingNotes : list StickyNote.t)
    : StickyNote.t :=
  let offsetX := Z.of_nat (List.length existingNotes mod 5) * 30 in
  let offsetY := Z.of_nat (List.length existingNotes mod 5) * 30 in
  let given := Optional.field payload CreateStickyNotePayload.position in
  {| StickyNote.id := newId;
     StickyNote.taskId :=
       match Optional.field payload CreateStickyNotePayload.taskId with
       | Some EmptyString => None
       | Some taskId => Some taskId
       | None => None
       end;
     StickyNote.content := Optional.orElse (Optional.field payload CreateStickyNotePayload.content) EmptyString;
     StickyNote.color := Optional.orElse (Optional.field payload CreateStickyNotePayload.color) YELLOW;
     StickyNote.position :=
       {| StickyNotePosition.x :=
            Optional.orElse (Optional.field given PartialPosition.x)
                   (StickyNotePosition.x DEFAULT_POSITION + offsetX);
          StickyNotePosition.y :=
            Optional.orElse (Optional.field given PartialPosition.y)
                   (StickyNotePosition.y DEFAULT_POSITION + offsetY);
          StickyNotePosition.width :=
            Optional.orElse (Optional.field given PartialPosition.width)
                   (StickyNotePosition.width DEFAULT_POSITION);
          StickyNotePosition.height :=
            Optional.orElse (Optional.field given PartialPosition.height)
                   (StickyNotePosition.height DEFAULT_POSITION) |};
     StickyNote.isAlwaysOnTop := false;
     StickyNote.isMinimized := false;
     StickyNote.createdAt := now;
     StickyNote.updatedAt := now |}.

(** [newId] is the identifier [generateNoteId()] makes and [now] the
    reading of the clock. *)
Definition addNote (newId : string) (now : Z)
    (payload : option CreateStickyNotePayload.t) (s : StickyNoteState)
    : string * StickyNoteState :=
  (newId,
   {| notes := notes s ++ [newNote newId now payload (notes s)];
      activeNoteId := Some newId |}).

Definition hasId (id : string) (note : StickyNote.t) : bool :=
  String.eqb (StickyNote.id note) id.

Definition updated (payload : UpdateStickyNotePayload.t) (now : Z) (note : StickyNote.t)
    : StickyNote.t :=
  {| StickyNote.id := StickyNote.id note;
     StickyNote.taskId :=
       Optional.orElse (UpdateStickyNotePayload.taskId payload) (StickyNote.taskId note);
     StickyNote.content :=
       Optional.orElse (UpdateStickyNotePayload.content payload) (StickyNote.content note);
     StickyNote.color :=
       Optional.orElse (UpdateStickyNotePayload.color payload) (StickyNote.color note);
     StickyNote.position :=
       match UpdateStickyNotePayload.position payload with
       | Some given => mergePosition (StickyNote.position note) given
       | None => StickyNote.position note
       end;
     StickyNote.isAlwaysOnTop :=
       Optional.orElse (UpdateStickyNotePayload.isAlwaysOnTop payload) (StickyNote.isAlwaysOnTop note);
     StickyNote.isMinimized :=
       Optional.orElse (UpdateStickyNotePayload.isMinimized payload) (StickyNote.isMinimized note);
     StickyNote.createdAt := StickyNote.createdAt note;
     StickyNote.updatedAt := now |}.

(** The actions that rebuild the notes with the given identifier. *)
Definition rebuild (id : string) (change : Z -> StickyNote.t -> StickyNote.t)
    (now : nat -> Z) (s : StickyNoteState) : StickyNoteState :=
  {| notes := JSArray.mapIndexed
                (fun i note => if hasId id note then change (now i) note else note)
                (notes s);
     activeNoteId := activeNoteId s |}.

Definition updateNote (id : string) (payload : UpdateStickyNotePayload.t)
    (now : nat -> Z) (s : StickyNoteState) : StickyNoteState :=
  rebuild id (updated payload) now s.

Definition deleteNote (id : string) (s : StickyNoteState) : StickyNoteState :=
  {| notes := List.filter (fun note => negb (hasId id note)) (notes s);
     activeNoteId :=
       match activeNoteId s with
       | Some active => if String.eqb active id then None else Some active
       | None => None
       end |}.

Definition moved (position : PartialPosition.t) (now : Z) (note : StickyNote.t)
    : StickyNote.t :=
  {| StickyNote.id := StickyNote.id note;
     StickyNote.taskId := StickyNote.taskId note;
     StickyNote.content := StickyNote.content note;
     StickyNote.color := StickyNote.color note;
     StickyNote.position := mergePosition (StickyNote.position note) position;
     StickyNote.isAlwaysOnTop := StickyNote.isAlwaysOnTop note;
     StickyNote.isMinimized := StickyNote.isMinimized note;
     StickyNote.createdAt := StickyNote.createdAt note;
     StickyNote.updatedAt := now |}.

Definition updatePosition (id : string) (position : PartialPosition.t)
    (now : nat -> Z) (s : StickyNoteState) : StickyNoteState :=
  rebuild id (moved position) now s.

(** [noteIndex] comes from [findIndex], so that [notes[noteIndex]] is a
    note. *)
Definition bringToFront (id : string) (s : StickyNoteState) : StickyNoteState :=
  match JSArray.findIndex (hasId id) (notes s) with
  | None => s
  | Some noteIndex =>
      match nth_error (notes s) noteIndex with
      | Some note =>
          let otherNotes := List.filter (fun n => negb (hasId id n)) (notes s) in
          {| notes := otherNotes ++ [note]; activeNoteId := Some id |}
      | None => s
      end
  end.

Definition pinned (now : Z) (note : StickyNote.t) : StickyNote.t :=
  {| StickyNote.id := StickyNote.id note;
     StickyNote.taskId := StickyNote.taskId note;
     StickyNote.content := StickyNote.content note;
     StickyNote.color := StickyNote.color note;
     StickyNote.position := StickyNote.position note;
     StickyNote.isAlwaysOnTop := negb (StickyNote.isAlwaysOnTop note);
     StickyNote.isMinimized := StickyNote.isMinimized note;
     StickyNote.createdAt := StickyNote.createdAt note;
     StickyNote.updatedAt := now |}.

Definition toggleAlwaysOnTop (id : string) (now : nat -> Z) (s : StickyNoteState)
    : StickyNoteState :=
  rebuild id pinned now s.

Definition folded (now : Z) (note : StickyNote.t) : StickyNote.t :=
  {| StickyNote.id := StickyNote.id note;
     StickyNote.taskId := StickyNote.taskId note;
     StickyNote.content := StickyNote.content note;
     StickyNote.color := StickyNote.color note;
     StickyNote.position := StickyNote.position note;
     StickyNote.isAlwaysOnTop := StickyNote.isAlwaysOnTop note;
     StickyNote.isMinimized := negb (StickyNote.isMinimized note);
     StickyNote.createdAt := StickyNote.createdAt note;
     StickyNote.updatedAt := now |}.

Definition toggleMinimized (id : string) (now : nat -> Z) (s : StickyNoteState)
    : StickyNoteState :=
  rebuild id folded now s.

Definition setActiveNote (id : option string) (s : StickyNoteState) : StickyNoteState :=
  {| notes := notes s; activeNoteId := id |}.

Definition setNotes (loaded : list StickyNote.t) (s : StickyNoteState) : StickyNoteState :=
  {| notes := loaded; activeNoteId := activeNoteId s |}.

Definition clearNotes (s : StickyNoteState) : StickyNoteState :=
  {| notes := []; activeNoteId := None |}.

(** [undefined] is [None]. *)
Definition getNoteById (id : string) (s : StickyNoteState) : option StickyNote.t :=
  List.find (hasId id) (notes s).

Definition getNotesByTaskId (taskId : string) (s : StickyNoteState) : list StickyNote.t :=
  List.filter
    (fun note =>
       match StickyNote.taskId note with
       | Some linked => String.eqb linked taskId
       | None => false
       end)
    (notes s).

(** The state-changing actions of the store, each with what it reads from
    outside. *)
Inductive Action :=
| AddNote (newId : string) (now : Z) (payload : option CreateStickyNotePayload.t)
| UpdateNote (id : string) (payload : UpdateStickyNotePayload.t) (now : nat -> Z)
| DeleteNote (id : string)
| UpdatePosition (id : string) (position : PartialPosition.t) (now : nat -> Z)
| BringToFront (id : string)
| ToggleAlwaysOnTop (id : string) (now : nat -> Z)
| ToggleMinimized (id : string) (now : nat -> Z)
| SetActiveNote (id : option string)
| SetNotes (loaded : list StickyNote.t)
| ClearNotes.

Definition step (s : StickyNoteState) (a : Action) : StickyNoteState :=
  match a with
  | AddNote newId now payload => (addNote newId now payload s).2
  | UpdateNote id payload now => updateNote id payload now s
  | DeleteNote id => deleteNote id s
  | UpdatePosition id position now => updatePosition id position now s
  | BringToFront id => bringToFront id s
  | ToggleAlwaysOnTop id now => toggleAlwaysOnTop id now s
  | ToggleMinimized id now => toggleMinimized id now s
  | SetActiveNote id => setActiveNote id s
  | SetNotes loaded => setNotes loaded s
  | ClearNotes => clearNotes s
  end.

Definition run (s : StickyNoteState) (actions : list Action) : StickyNoteState :=
  fold_left step actions s.

End StickyNoteStore.

(* ===================================================================== *)
(** ** The task store ([useTaskStore]) *)
(* ===================================================================== *)

Module CreateTaskPayload.
Record t := mk {
  title : string;
  description : string;
  difficulty : TaskDifficulty;
  dueDate : option Z
}.
End CreateTaskPayload.

Module UpdateTaskPayload.
Record t := mk {
  title : option string;
  description : option string;
  status : option TaskStatus;
  difficulty : option TaskDifficulty;
  dueDate : option Z
}.
End UpdateTaskPayload.

Module TaskStore.

Record TaskState := mk {
  tasks : list Task.t;
  isLoading : bool;
  error : option string
}.

Definition initialState : TaskState :=
  {| tasks := []; isLoading := false; error := None |}.

(** [newId] is the identifier [generateTaskId()] makes and [now] the
    reading of the clock.  [payload.description || ''] is the description
    itself. *)
Definition addTask (newId : string) (now : Z) (payload : CreateTaskPayload.t)
    (s : TaskState) : TaskState :=
  let newTask :=
    {| Task.id := newId;
       Task.title := JSString.trim (CreateTaskPayload.title payload);
       Task.description := CreateTaskPayload.description payload;
       Task.status := PENDING;
       Task.difficulty := CreateTaskPayload.difficulty payload;
       Task.createdAt := now;
       Task.completedAt := None;
       Task.dueDate := CreateTaskPayload.dueDate payload |} in
  {| tasks := newTask :: tasks s; isLoading := isLoading s; error := None |}.

(** [{ ...task, ...payload, completedAt: ... }] *)
Definition updatedTask (payload : UpdateTaskPayload.t) (now : Z) (task : Task.t) : Task.t :=
  {| Task.id := Task.id task;
     Task.title :=
       Optional.orElse (UpdateTaskPayload.title payload) (Task.title task);
     Task.description :=
       Optional.orElse (UpdateTaskPayload.description payload)
                              (Task.description task);
     Task.status :=
       Optional.orElse (UpdateTaskPayload.status payload) (Task.status task);
     Task.difficulty :=
       Optional.orElse (UpdateTaskPayload.difficulty payload)
                              (Task.difficulty task);
     Task.createdAt := Task.createdAt task;
     Task.completedAt :=
       match UpdateTaskPayload.status payload with
       | Some COMPLETED => Some now
       | Some PENDING => None
       | _ => Task.completedAt task
       end;
     Task.dueDate :=
       match UpdateTaskPayload.dueDate payload with
       | Some dueDate => Some dueDate
       | None => Task.dueDate task
       end |}.

(** The clock is read for each task that is rebuilt with the status
    [COMPLETED]: [now i] is the reading at the task of index [i]. *)
Definition updateTask (id : string) (payload : UpdateTaskPayload.t) (now : nat -> Z)
    (s : TaskState) : TaskState :=
  {| tasks := JSArray.mapIndexed
                (fun i task =>
                   if String.eqb (Task.id task) id then updatedTask payload (now i) task
                   else task)
                (tasks s);
     isLoading := isLoading s;
     error := None |}.

Definition deleteTask (id : string) (s : TaskState) : TaskState :=
  {| tasks := List.filter (fun task => negb (String.eqb (Task.id task) id)) (tasks s);
     isLoading := isLoading s;
     error := None |}.

Definition statusOnly (status : TaskStatus) : UpdateTaskPayload.t :=
  {| UpdateTaskPayload.title := None;
     UpdateTaskPayload.description := None;
     UpdateTaskPayload.status := Some status;
     UpdateTaskPayload.difficulty := None;
     UpdateTaskPayload.dueDate := None |}.

Definition completeTask (id : string) (now : nat -> Z) (s : TaskState) : TaskState :=
  updateTask id (statusOnly COMPLETED) now s.

(** No clock is read on this path. *)
Definition uncompleteTask (id : string) (s : TaskState) : TaskState :=
  updateTask id (statusOnly PENDING) (fun _ => 0) s.

Definition setTasks (loaded : list Task.t) (s : TaskState) : TaskState :=
  {| tasks := loaded; isLoading := isLoading s; error := None |}.

Definition clearTasks (s : TaskState) : TaskState :=
  {| tasks := []; isLoading := isLoading s; error := None |}.

Definition setLoading (loading : bool) (s : TaskState) : TaskState :=
  {| tasks := tasks s; isLoading := loading; error := error s |}.

Definition setError (message : option string) (s : TaskState) : TaskState :=
  {| tasks := tasks s; isLoading := isLoading s; error := message |}.

Definition getPendingTasks (s : TaskState) : list Task.t :=
  List.filter (fun task => TaskStatus_eqb (Task.status task) PENDING) (tasks s).

Definition getCompletedTasks (s : TaskState) : list Task.t :=
  List.filter (fun task => TaskStatus_eqb (Task.status task) COMPLETED) (tasks s).

Definition getCompletionPercentage (s : TaskState) : Z :=
  if (List.length (tasks s) =? 0)%nat then 0
  else
    let completedCount :=
      List.length
        (List.filter (fun t => TaskStatus_eqb (Task.status t) COMPLETED) (tasks s)) in
    JS.round
      (JS.mul
         (JS.div (JS.of_Z (Z.of_nat completedCount))
                 (JS.of_Z (Z.of_nat (List.length (tasks s)))))
         (JS.of_Z 100)).

Definition areAllTasksCompleted (s : TaskState) : bool :=
  if (List.length (tasks s) =? 0)%nat then false
  else forallb (fun task => TaskStatus_eqb (Task.status task) COMPLETED) (tasks s).

Inductive Action :=
| AddTask (newId : string) (now : Z) (payload : CreateTaskPayload.t)
| UpdateTask (id : string) (payload : UpdateTaskPayload.t) (now : nat -> Z)
| DeleteTask (id : string)
| CompleteTask (id : string) (now : nat -> Z)
| UncompleteTask (id : string)
| SetTasks (loaded : list Task.t)
| ClearTasks
| SetLoading (loading : bool)
| SetError (message : option string).

Definition step (s : TaskState) (a : Action) : TaskState :=
  match a with
  | AddTask newId now payload => addTask newId now payload s
  | UpdateTask id payload now => updateTask id payload now s
  | DeleteTask id => deleteTask id s
  | CompleteTask id now => completeTask id now s
  | UncompleteTask id => uncompleteTask id s
  | SetTasks loaded => setTasks loaded s
  | ClearTasks => clearTasks s
  | SetLoading loading => setLoading loading s
  | SetError message => setError message s
  end.

Definition run (s : TaskState) (actions : list Action) : TaskState :=
  fold_left step actions s.

End TaskStore.

(* ===================================================================== *)
(** ** TaskService *)
(* ===================================================================== *)

Module OperationResult.
Record t (T : Type) := mk {
  success : bool;
  data : option T;
  error : option string
}.
Arguments mk {T}.
Arguments success {T}.
Arguments data {T}.
Arguments error {T}.

(** [{ success: false, error }] *)
Definition failure {T} (message : string) : t T :=
  {| success := false; data := None; error := Some message |}.
End OperationResult.

(** The service validates what it is given and hands the rest to the
    database manager.  The database manager is a parameter: each of its
    methods answers with a result and leaves the database in a new
    state. *)
Module TaskService.

Section WithDatabase.

Variable Database : Type.
Variable dbCreateTask :
  CreateTaskPayload.t -> Database -> OperationResult.t Task.t * Database.
Variable dbGetAllTasks : Database -> OperationResult.t (list Task.t) * Database.
Variable dbGetTaskById : string -> Database -> OperationResult.t Task.t * Database.
Variable dbUpdateTask :
  string -> UpdateTaskPayload.t -> Database -> OperationResult.t Task.t * Database.
Variable dbDeleteTask : string -> Database -> OperationResult.t unit * Database.
Variable dbGetTasksByStatus :
  TaskStatus -> Database -> OperationResult.t (list Task.t) * Database.

(** [!text || text.trim().length === 0].  The length of a string is the
    number of its code units, here [String.length]. *)
Definition blank (text : string) : bool :=
  (String.length text =? 0)%nat || (String.length (JSString.trim text) =? 0)%nat.

(** [date && date < Date.now()]: a due date of 0 counts as none. *)
Definition pastDueDate (dueDate : option Z) (now : Z) : bool :=
  JS.truthy dueDate
  && match dueDate with
     | Some date => date <? now
     | None => false
     end.

Definition createTask (payload : CreateTaskPayload.t) (now : Z) (db : Database)
    : OperationResult.t Task.t * Database :=
  if blank (CreateTaskPayload.title payload) then
    (OperationResult.failure "Task title is required", db)
  else if (255 <? String.length (CreateTaskPayload.title payload))%nat then
    (OperationResult.failure "Task title cannot exceed 255 characters", db)
  else if negb (String.length (CreateTaskPayload.description payload) =? 0)%nat
          && (2000 <? String.length (CreateTaskPayload.description payload))%nat then
    (OperationResult.failure "Task description cannot exceed 2000 characters", db)
  else if pastDueDate (CreateTaskPayload.dueDate payload) now then
    (OperationResult.failure "Due date cannot be in the past", db)
  else dbCreateTask payload db.

Definition getAllTasks (db : Database) : OperationResult.t (list Task.t) * Database :=
  dbGetAllTasks db.

Definition getTaskById (id : string) (db : Database)
    : OperationResult.t Task.t * Database :=
  if blank id then (OperationResult.failure "Task ID is required", db)
  else dbGetTaskById id db.

(** [payload.dueDate !== undefined && payload.dueDate < Date.now()] *)
Definition updateTask (id : string) (payload : UpdateTaskPayload.t) (now : Z)
    (db : Database) : OperationResult.t Task.t * Database :=
  if blank id then (OperationResult.failure "Task ID is required", db)
  else
    match
      match UpdateTaskPayload.title payload with
      | Some title =>
          if (String.length (JSString.trim title) =? 0)%nat then
            Some "Task title cannot be empty"
          else if (255 <? String.length title)%nat then
            Some "Task title cannot exceed 255 characters"
          else None
      | None => None
      end
    with
    | Some message => (OperationResult.failure message, db)
    | None =>
        if match UpdateTaskPayload.description payload with
           | Some description => (2000 <? String.length description)%nat
           | None => false
           end
        then (OperationResult.failure "Task description cannot exceed 2000 characters", db)
        else if match UpdateTaskPayload.dueDate payload with
                | Some date => date <? now
                | None => false
                end
        then (OperationResult.failure "Due date cannot be in the past", db)
        else dbUpdateTask id payload db
    end.

Definition completeTask (id : string) (now : Z) (db : Database)
    : OperationResult.t Task.t * Database :=
  updateTask id (TaskStore.statusOnly COMPLETED) now db.

Definition deleteTask (id : string) (db : Database)
    : OperationResult.t unit * Database :=
  if blank id then (OperationResult.failure "Task ID is required", db)
  else dbDeleteTask id db.

Definition getPendingTasks (db : Database) : OperationResult.t (list Task.t) * Database :=
  dbGetTasksByStatus PENDING db.

Definition getCompletedTasks (db : Database)
    : OperationResult.t (list Task.t) * Database :=
  dbGetTasksByStatus COMPLETED db.

(** [!result.data] is false for every array, the empty one too. *)
Definition areAllTasksCompleted (db : Database) : bool * Database :=
  let '(result, db) := dbGetAllTasks db in
  match OperationResult.success result, OperationResult.data result with
  | true, Some tasks =>
      (forallb (fun task => TaskStatus_eqb (Task.status task) COMPLETED) tasks, db)
  | _, _ => (false, db)
  end.

Definition getCompletionPercentage (db : Database) : Z * Database :=
  let '(result, db) := dbGetAllTasks db in
  match OperationResult.success result, OperationResult.data result with
  | true, Some tasks =>
      if (List.length tasks =? 0)%nat then (0, db)
      else
        let completedCount :=
          List.length
            (List.filter (fun task => TaskStatus_eqb (Task.status task) COMPLETED) tasks) in
        (JS.round
           (JS.mul
              (JS.div (JS.of_Z (Z.of_nat completedCount))
                      (JS.of_Z (Z.of_nat (List.length tasks))))
              (JS.of_Z 100)),
         db)
  | _, _ => (0, db)
  end.

End WithDatabase.

End TaskService.

(* ===================================================================== *)
(** ** Vocabulary of the statements *)
(* ===================================================================== *)

(** *** UnlockService *)

(** The completion percentage [evaluateUnlockCondition] reports for a list. *)
Definition pctOf (tasks : list Task.t) : Z :=
  UnlockConditionResult.completionPercentage
    (UnlockService.evaluateUnlockCondition tasks).

(** The four ways a call of [processTaskCompletion] can end. *)
Inductive Outcome (this : UnlockService.t) (tasks : list Task.t)
  : option UnlockNotification.t -> UnlockService.t -> Prop :=
| OutFull :
    UnlockConditionResult.canUnlock (UnlockService.evaluateUnlockCondition tasks) = true ->
    let n := UnlockService.fullUnlockNotification
               (UnlockService.evaluateUnlockCondition tasks)
               (UnlockService.calculateXPEarned tasks) in
    Outcome this tasks (Some n)
      (UnlockService.setPrevious (UnlockService.invokeCallback this n) (pctOf tasks))
| OutPartial th before after :
    UnlockConditionResult.canUnlock (UnlockService.evaluateUnlockCondition tasks) = false ->
    UnlockService.partialUnlockThresholds (UnlockService.config this)
      = before ++ th :: after ->
    Forall (fun u => UnlockService.crosses this (pctOf tasks) u = false) before ->
    UnlockService.crosses this (pctOf tasks) th = true ->
    let n := UnlockService.partialUnlockNotification
               (UnlockService.evaluateUnlockCondition tasks) th in
    Outcome this tasks (Some n)
      (UnlockService.setPrevious
         (UnlockService.invokeCallback (UnlockService.markNotified this th) n)
         (pctOf tasks))
| OutProgress :
    UnlockConditionResult.canUnlock (UnlockService.evaluateUnlockCondition tasks) = false ->
    Forall (fun u => UnlockService.crosses this (pctOf tasks) u = false)
      (UnlockService.partialUnlockThresholds (UnlockService.config this)) ->
    pctOf tasks <> UnlockService.previousCompletionPercentage this ->
    Outcome this tasks
      (Some (UnlockService.progressNotification
               (UnlockService.evaluateUnlockCondition tasks)))
      (UnlockService.setPrevious this (pctOf tasks))
| OutNothing :
    UnlockConditionResult.canUnlock (UnlockService.evaluateUnlockCondition tasks) = false ->
    Forall (fun u => UnlockService.crosses this (pctOf tasks) u = false)
      (UnlockService.partialUnlockThresholds (UnlockService.config this)) ->
    pctOf tasks = UnlockService.previousCompletionPercentage this ->
    Outcome this tasks None this.

(** The reward table of the specification: easy 75, medium 100, hard 150. *)
Definition rewardOf (d : TaskDifficulty) : Z :=
  match d with
  | EASY => 75
  | MEDIUM => 100
  | HARD => 150
  end.

(** The sum of the rewards of the tasks in completed status; a task in
    another status adds nothing. *)
Fixpoint rewardSum (tasks : list Task.t) : Z :=
  match tasks with
  | [] => 0
  | task :: rest =>
      match Task.status task with
      | COMPLETED => rewardOf (Task.difficulty task) + rewardSum rest
      | _ => rewardSum rest
      end
  end.

Definition isCancelled (task : Task.t) : bool :=
  TaskStatus_eqb (Task.status task) CANCELLED.

(** A returned value that is the [partial_unlock] notification of the
    threshold [th]: its type, and its message, which names the threshold. *)
Definition isPartialUnlockFor (th : Z) (r : option UnlockNotification.t) : bool :=
  match r with
  | Some n =>
      match UnlockNotification.type n with
      | partial_unlock =>
          String.eqb (UnlockNotification.message n)
                     (JS.toString th +:+ "% complete! Keep going!")
      | _ => false
      end
  | None => false
  end.

(** How many of the returned values are the [partial_unlock] of [th]. *)
Definition partialUnlocksFor (th : Z) (rs : list (option UnlockNotification.t)) : nat :=
  List.length (List.filter (isPartialUnlockFor th) rs).

(** Sample tasks, as [createTask] of the unit tests builds them. *)
Definition createTask (id : string) (st : TaskStatus) (d : TaskDifficulty) : Task.t :=
  {| Task.id := id;
     Task.title := "Task " +:+ id;
     Task.description := "";
     Task.status := st;
     Task.difficulty := d;
     Task.createdAt := 1700000000000;
     Task.completedAt :=
       match st with COMPLETED => Some 1700000000000 | _ => None end;
     Task.dueDate := None |}.

Definition service0 : UnlockService.t := UnlockService.new UnlockService.DEFAULT_CONFIG.

Definition oneDone : list Task.t := [createTask "1" COMPLETED MEDIUM].

Definition halfDone : list Task.t :=
  [createTask "1" COMPLETED MEDIUM; createTask "2" PENDING MEDIUM].

Definition oneOfEach : list Task.t :=
  [createTask "1" COMPLETED EASY; createTask "2" COMPLETED MEDIUM;
   createTask "3" COMPLETED HARD].

Definition withCancelled : list Task.t :=
  [createTask "1" COMPLETED MEDIUM; createTask "2" CANCELLED MEDIUM].

(** The difficulty multipliers of the specification: 0.75, 1.0 and 1.5. *)
Definition difficultyMultiplier (d : TaskDifficulty) : JS.number :=
  match d with
  | EASY => JS.literal 3 4
  | MEDIUM => JS.literal 1 1
  | HARD => JS.literal 3 2
  end.

(** *** ProcessMonitor *)

(** The letters that come in two cases, capital and small side by side:
    A to Z, and the accented capitals of Latin-1 with their small
    letters. *)
Definition codes (first count : nat) : list ascii :=
  map ascii_of_nat (seq first count).

Definition casePairs : list (ascii * ascii) :=
  combine (list_ascii_of_string "ABCDEFGHIJKLMNOPQRSTUVWXYZ")
          (list_ascii_of_string "abcdefghijklmnopqrstuvwxyz")
  ++ combine (codes 192 23) (codes 224 23)
  ++ combine (codes 216 7) (codes 248 7).

(** The same character, or the two cases of one letter. *)
Definition sameLetter (c d : ascii) : bool :=
  Ascii.eqb c d
  || existsb (fun letter => Ascii.eqb c letter.1 && Ascii.eqb d letter.2
                            || Ascii.eqb c letter.2 && Ascii.eqb d letter.1)
             casePairs.

(** Equality of two executable names, case ignored: the same length, and
    at each place the same letter in either case. *)
Fixpoint sameNameIgnoringCase (a b : string) : bool :=
  match a, b with
  | EmptyString, EmptyString => true
  | String c a', String d b' => sameLetter c d && sameNameIgnoringCase a' b'
  | _, _ => false
  end.

(** Every code unit below 256. *)
Definition allCodes : list ascii := codes 0 256.

(** A running process is restricted when an enabled entry of the list
    carries its executable name, case ignored. *)
Definition isRestricted (restrictedApps : list RestrictedApp.t)
    (process : ProcessInfo.t) : bool :=
  existsb (fun app =>
             RestrictedApp.isEnabled app
             && sameNameIgnoringCase (ProcessInfo.executableName process)
                                     (RestrictedApp.executableName app))
          restrictedApps.

(** The [TerminationResult] that reports the outcome of one request. *)
Definition resultOf (pid : Z) (processName : string) (outcome : ExecOutcome)
    : TerminationResult.t :=
  match outcome with
  | Resolved _ => ProcessMonitor.succeeded pid processName
  | Rejected error => ProcessMonitor.failed pid processName error
  end.

Definition isResolved (outcome : ExecOutcome) : bool :=
  match outcome with
  | Resolved _ => true
  | Rejected _ => false
  end.

(** The listing of the unit tests, one quoted row per process. *)
Definition quoted (field : string) : string :=
  String JSString.quote field +:+ String JSString.quote EmptyString.

Definition csvRow (imageName pid session sessionNo memory : string) : string :=
  quoted imageName +:+ "," +:+ quoted pid +:+ "," +:+ quoted session +:+ ","
  +:+ quoted sessionNo +:+ "," +:+ quoted memory.

Definition unlines (rows : list string) : string :=
  match rows with
  | [] => EmptyString
  | first :: others =>
      fold_left (fun text row => text +:+ String JSString.newline row) others first
  end.

Definition mockTasklistOutput : string :=
  unlines
    [ csvRow "System Idle Process" "0" "Services" "0" "8 K";
      csvRow "System" "4" "Services" "0" "144 K";
      csvRow "steam.exe" "1234" "Console" "1" "150,000 K";
      csvRow "Discord.exe" "5678" "Console" "1" "200,000 K";
      csvRow "chrome.exe" "9012" "Console" "1" "500,000 K";
      csvRow "EpicGamesLauncher.exe" "3456" "Console" "1" "180,000 K" ].

Definition app (id name executableName : string) (isEnabled : bool) : RestrictedApp.t :=
  {| RestrictedApp.id := id;
     RestrictedApp.name := name;
     RestrictedApp.executableName := executableName;
     RestrictedApp.path := None;
     RestrictedApp.isEnabled := isEnabled;
     RestrictedApp.isPreset := true |}.

Definition testRestrictedApps : list RestrictedApp.t :=
  [ app "steam" "Steam" "steam.exe" true;
    app "epic" "Epic Games" "EpicGamesLauncher.exe" true;
    app "discord" "Discord" "Discord.exe" false ].

Definition monitor0 : ProcessMonitor.t := ProcessMonitor.new ProcessMonitor.DEFAULT_CONFIG.

(** A listing and a restriction list that differ in case, with an accented
    capital (code 201) and its small letter (code 233); Steam is restricted
    by two entries and the text editor by a disabled one. *)
Definition mixedCaseOutput : string :=
  unlines
    [ csvRow (String "201"%char "DITEUR.EXE") "77" "Console" "1" "9,000 K";
      csvRow "notepad.exe" "5" "Console" "1" "10 K";
      csvRow "Steam.exe" "1234" "Console" "1" "150,000 K" ].

Definition mixedCaseApps : list RestrictedApp.t :=
  [ app "steam" "Steam" "STEAM.EXE" true;
    app "editor" "Editor" (String "233"%char "diteur.exe") true;
    app "notepad" "Notepad" "notepad.exe" false;
    app "steam2" "Steam again" "steam.exe" true ].

(** *** The focus-mode store *)

(** The readings of [Date.now()] an action makes. *)
Definition clockReadings (a : FocusModeStore.Action) : list Z :=
  match a with
  | FocusModeStore.StartFocusMode now => [now]
  | FocusModeStore.StopFocusMode now _ _ _ => [now]
  | FocusModeStore.UpdateSessionTime now => [now]
  | FocusModeStore.EmergencyUnlock nowCheck nowStop _ nowMark => [nowCheck; nowStop; nowMark]
  | _ => []
  end.

(** The clock gives milliseconds since 1970: every reading is positive. *)
Definition clockPositive (a : FocusModeStore.Action) : Prop :=
  Forall (fun now => 0 < now) (clockReadings a).

(** A state of the store reached from the initial state by actions. *)
Definition reachable (s : FocusModeStore.FocusModeStoreState) : Prop :=
  exists actions,
    Forall clockPositive actions
    /\ s = FocusModeStore.run FocusModeStore.initialState actions.

(** Actions other than [emergencyUnlock] and [resetFocusMode]. *)
Definition keepsCooldown (a : FocusModeStore.Action) : Prop :=
  match a with
  | FocusModeStore.EmergencyUnlock _ _ _ _ => False
  | FocusModeStore.ResetFocusMode => False
  | _ => True
  end.

(** The record [stopFocusMode] appends for a session started at [started]. *)
Definition sessionRecord (newId : string) (started now tasksCompleted : Z)
    (wasNatural : bool) : FocusSession.t :=
  {| FocusSession.id := newId;
     FocusSession.startedAt := started;
     FocusSession.endedAt := now;
     FocusSession.duration := now - started;
     FocusSession.tasksCompleted := tasksCompleted;
     FocusSession.wasUnlockedNaturally := wasNatural |}.

(** What the unit of a session's life looks like in the examples. *)
Definition activeSince (started : Z) : FocusModeStore.FocusModeStoreState :=
  FocusModeStore.startFocusMode started FocusModeStore.initialState.

(** A session started, ended by an emergency unlock 100 s later, the store
    reset and a new session started 10 s after the unlock. *)
Definition unlockedThenReset : FocusModeStore.FocusModeStoreState :=
  FocusModeStore.run FocusModeStore.initialState
    [ FocusModeStore.StartFocusMode 1700000000000;
      FocusModeStore.EmergencyUnlock 1700000100000 1700000100000 "s1" 1700000100000;
      FocusModeStore.ResetFocusMode;
      FocusModeStore.StartFocusMode 1700000110000 ].

(** The lifecycle invariants of the store. *)
Definition lifecycle (s : FocusModeStore.FocusModeStoreState) : Prop :=
  (FocusModeStore.isActive s = false ->
   FocusModeStore.startedAt s = None /\ FocusModeStore.currentSessionTime s = 0)
  /\ (FocusModeStore.isActive s = true -> FocusModeStore.startedAt s <> None).

(** What holds besides in the states reached with a positive clock: the
    cooldown is the initial one, and the stored timestamps are positive. *)
Definition timestamped (s : FocusModeStore.FocusModeStoreState) : Prop :=
  FocusModeStore.emergencyUnlockCooldown s = 1800000
  /\ (forall started, FocusModeStore.startedAt s = Some started -> 0 < started)
  /\ (forall last, FocusModeStore.lastEmergencyUnlock s = Some last -> 0 < last).

(** The types of the notifications a sequence of calls returns. *)
Definition typesOf (rs : list (option UnlockNotification.t))
    : list (option NotificationType) :=
  map (option_map UnlockNotification.type) rs.

(** A list of [n] tasks, the first [k] of them completed. *)
Definition doneOf (k n : nat) : list Task.t :=
  map (fun i => createTask (JS.toString (Z.of_nat i))
                  (if (i <=? k)%nat then COMPLETED else PENDING) MEDIUM)
      (seq 1 n).

(* ===================================================================== *)
(** ** Vocabulary of the further properties *)
(* ===================================================================== *)

(** *** The binary64 model, in the terms of its rounding step *)

(** The mantissa chosen from a quotient [q] and remainder [r] by [den]. *)
Definition roundedMantissa (num den : Z) : Z :=
  let q := num / den in
  let r := num mod den in
  if 2 * r <? den then q
  else if den <? 2 * r then q + 1
  else if Z.even q then q else q + 1.

Definition normalised (m e : Z) : JS.number :=
  if m =? 2 ^ 53 then JS.Pos (2 ^ 52) (e + 1) else JS.Pos m e.


(** *** UnlockService: the public calls other than [resetTracking] *)

Inductive ServiceCall :=
| CallProcessTaskCompletion (tasks : list Task.t)
| CallCheckPartialUnlockThreshold (tasks : list Task.t)
| CallUpdateConfig (partial : UnlockService.PartialConfig)
| CallSetUnlockCallback (callback : UnlockService.Callback)
| CallClearUnlockCallback.

(** The notification a call returns, if it is one that returns
    notifications, and the service after it. *)
Definition serviceCall (this : UnlockService.t) (c : ServiceCall)
    : option UnlockNotification.t * UnlockService.t :=
  match c with
  | CallProcessTaskCompletion tasks => UnlockService.processTaskCompletion this tasks
  | CallCheckPartialUnlockThreshold tasks =>
      (None, (UnlockService.checkPartialUnlockThreshold this tasks).2)
  | CallUpdateConfig partial => (None, UnlockService.updateConfig this partial)
  | CallSetUnlockCallback callback => (None, UnlockService.setUnlockCallback this callback)
  | CallClearUnlockCallback => (None, UnlockService.clearUnlockCallback this)
  end.

Fixpoint serviceCalls (this : UnlockService.t) (calls : list ServiceCall)
    : list (option UnlockNotification.t) * UnlockService.t :=
  match calls with
  | [] => ([], this)
  | c :: rest =>
      let '(n, this) := serviceCall this c in
      let '(ns, this) := serviceCalls this rest in
      (n :: ns, this)
  end.

(** *** ProcessMonitor *)

Definition noHooks : ProcessMonitor.Hooks :=
  {| ProcessMonitor.pollTimer := None;
     ProcessMonitor.onRestrictedProcessDetected := None;
     ProcessMonitor.onProcessTerminated := None;
     ProcessMonitor.detectedCalls := [];
     ProcessMonitor.terminatedCalls := [] |}.

(** The calls a registered [onProcessTerminated] receives for [results]. *)
Definition terminatedCallsFor (hooks : ProcessMonitor.Hooks)
    (results : list TerminationResult.t)
    : list (ProcessMonitor.Hook * TerminationResult.t) :=
  match ProcessMonitor.onProcessTerminated hooks with
  | Some hook => map (fun result => (hook, result)) results
  | None => []
  end.

(** Every character of [s] passes [keep]. *)
Fixpoint allChars (keep : ascii -> bool) (s : string) : bool :=
  match s with
  | EmptyString => true
  | String c rest => keep c && allChars keep rest
  end.

Definition notNewline (c : ascii) : bool := negb (Ascii.eqb c JSString.newline).

(** A row of the process listing: the image name, the pid, and whatever
    follows the second field on the line. *)
Record ListingRow := mkRow {
  rowImageName : string;
  rowPid : Z;
  rowRest : string
}.

Definition rowText (r : ListingRow) : string :=
  quoted (rowImageName r) +:+ "," +:+ quoted (JS.toString (rowPid r)) +:+ rowRest r.

(** The image name is not empty and holds no quote, the pid is a whole
    number that a JavaScript number holds exactly, and nothing in the row
    breaks the line. *)
Definition wellFormedRow (r : ListingRow) : Prop :=
  rowImageName r <> EmptyString
  /\ allChars JSString.notQuote (rowImageName r) = true
  /\ allChars notNewline (rowImageName r) = true
  /\ 0 <= rowPid r < 2 ^ 53
  /\ allChars notNewline (rowRest r) = true.

(** The small letter of a capital, looked up in the table of the letters
    that come in two cases; any other character is left as it is. *)
Definition smallOf (c : ascii) : ascii :=
  match List.find (fun letter => Ascii.eqb c letter.1) casePairs with
  | Some letter => letter.2
  | None => c
  end.

Fixpoint inSmallLetters (s : string) : string :=
  match s with
  | EmptyString => EmptyString
  | String c rest => String (smallOf c) (inSmallLetters rest)
  end.

(** The process a row describes. *)
Definition rowProcess (r : ListingRow) : ProcessInfo.t :=
  {| ProcessInfo.pid := rowPid r;
     ProcessInfo.name := JSString.removeFirst ".exe" (rowImageName r);
     ProcessInfo.executableName := inSmallLetters (rowImageName r) |}.

Definition trimmedRow (r : ListingRow) : ListingRow :=
  {| rowImageName := rowImageName r;
     rowPid := rowPid r;
     rowRest := JSString.trimEnd (rowRest r) |}.

(** Two rows as the system prints them, each line ended by a carriage
    return, and the blank the listing ends with. *)
Definition carriageReturn : string := String "013"%char EmptyString.

Definition sampleRows : list ListingRow :=
  [ {| rowImageName := "Steam.EXE"; rowPid := 1234;
       rowRest := "," +:+ quoted "Console" +:+ "," +:+ quoted "1" +:+ ","
                  +:+ quoted "150,000 K" +:+ carriageReturn |};
    {| rowImageName := String "201"%char "DITEUR.exe"; rowPid := 0;
       rowRest := carriageReturn |} ].

(** A no-break space and a line feed. *)
Definition blankLine : string := String "160"%char (String JSString.newline EmptyString).

(** The value of a run of decimal digits, one digit at a time. *)
Definition digitStep (acc : Z) (c : ascii) : Z :=
  10 * acc + (Z.of_nat (nat_of_ascii c) - 48).


(** *** The focus-mode store *)

(** The sum of the recorded durations. *)
Definition recordedTime (sessions : list FocusSession.t) : Z :=
  fold_right (fun session total => FocusSession.duration session + total) 0 sessions.

(** A record whose duration is the time between its two timestamps. *)
Definition wellRecorded (session : FocusSession.t) : Prop :=
  FocusSession.duration session
  = FocusSession.endedAt session - FocusSession.startedAt session.

(** The total is the sum of the history, and every record is well formed. *)
Definition accounted (s : FocusModeStore.FocusModeStoreState) : Prop :=
  FocusModeStore.totalFocusTime s = recordedTime (FocusModeStore.sessions s)
  /\ Forall wellRecorded (FocusModeStore.sessions s).

(** The preset entries of a list of restricted apps, with the fields that
    identify them. *)
Definition presetEntries (apps : list RestrictedApp.t) : list (string * string * string) :=
  map (fun app => (RestrictedApp.id app, RestrictedApp.name app,
                   RestrictedApp.executableName app))
      (List.filter RestrictedApp.isPreset apps).

Definition notGiven {A} (update : option A) : bool :=
  match update with
  | Some _ => false
  | None => true
  end.

(** Every action but an [updateRestrictedApp] that gives a new [id], [name],
    [executableName] or [isPreset]. *)
Definition keepsPresetFields (a : FocusModeStore.Action) : bool :=
  match a with
  | FocusModeStore.UpdateRestrictedApp _ updates =>
      notGiven (FocusModeStore.updId updates)
      && notGiven (FocusModeStore.updName updates)
      && notGiven (FocusModeStore.updExecutableName updates)
      && notGiven (FocusModeStore.updIsPreset updates)
  | _ => true
  end.

(** No app of the list has the identifier [id]. *)
Definition freshId (id : string) (apps : list RestrictedApp.t) : bool :=
  forallb (fun app => negb (String.eqb (RestrictedApp.id app) id)) apps.

Definition customApp : FocusModeStore.NewRestrictedApp :=
  {| FocusModeStore.newName := "Game";
     FocusModeStore.newExecutableName := "game.exe";
     FocusModeStore.newPath := None;
     FocusModeStore.newIsEnabled := true |}.

(** A removal, a toggle, an added app and an update of the enabled flag. *)
Definition presetActions : list FocusModeStore.Action :=
  [ FocusModeStore.RemoveRestrictedApp "steam";
    FocusModeStore.ToggleRestrictedApp "epic";
    FocusModeStore.AddRestrictedApp "1_a" customApp;
    FocusModeStore.UpdateRestrictedApp "discord"
      {| FocusModeStore.updId := None; FocusModeStore.updName := None;
         FocusModeStore.updExecutableName := None; FocusModeStore.updPath := None;
         FocusModeStore.updIsEnabled := Some true;
         FocusModeStore.updIsPreset := None |} ].

(** A state with the given accumulated and current session times. *)
Definition withTimes (total current : Z) : FocusModeStore.FocusModeStoreState :=
  {| FocusModeStore.isActive := true;
     FocusModeStore.startedAt := Some 1;
     FocusModeStore.totalFocusTime := total;
     FocusModeStore.currentSessionTime := current;
     FocusModeStore.restrictedApps := FocusModeStore.DEFAULT_RESTRICTED_APPS;
     FocusModeStore.sessions := [];
     FocusModeStore.lastEmergencyUnlock := None;
     FocusModeStore.emergencyUnlockCooldown := 30 * 60 * 1000 |}.

(** *** The sticky-note store *)

(** The active note, if there is one, is a note of the store. *)
Definition activeExists (s : StickyNoteStore.StickyNoteState) : Prop :=
  match StickyNoteStore.activeNoteId s with
  | Some id => StickyNoteStore.getNoteById id s <> None
  | None => True
  end.

(** Every action but [setNotes] and a [setActiveNote] that names a note. *)
Definition keepsSelection (a : StickyNoteStore.Action) : bool :=
  match a with
  | StickyNoteStore.SetActiveNote (Some _) => false
  | StickyNoteStore.SetNotes _ => false
  | _ => true
  end.

(** The identifier an editing action names: [updateNote], [updatePosition],
    [toggleAlwaysOnTop] and [toggleMinimized]. *)
Definition editedId (a : StickyNoteStore.Action) : option string :=
  match a with
  | StickyNoteStore.UpdateNote id _ _ => Some id
  | StickyNoteStore.UpdatePosition id _ _ => Some id
  | StickyNoteStore.ToggleAlwaysOnTop id _ => Some id
  | StickyNoteStore.ToggleMinimized id _ => Some id
  | _ => None
  end.

Definition identity (note : StickyNote.t) : string * Z :=
  (StickyNote.id note, StickyNote.createdAt note).

Definition otherThan (id : string) (note : StickyNote.t) : bool :=
  negb (StickyNoteStore.hasId id note).

Definition plainNote (id : string) : StickyNote.t :=
  StickyNoteStore.newNote id 1 None [].

Definition threeNotes : StickyNoteStore.StickyNoteState :=
  {| StickyNoteStore.notes := [plainNote "a"; plainNote "b"; plainNote "c"];
     StickyNoteStore.activeNoteId := Some "c" |}.

(** A note added, an older note brought to the front, the added note
    deleted and the note in front minimised. *)
Definition noteActions : list StickyNoteStore.Action :=
  [ StickyNoteStore.AddNote "n1" 10 None;
    StickyNoteStore.BringToFront "a";
    StickyNoteStore.DeleteNote "n1";
    StickyNoteStore.ToggleMinimized "a" (fun _ => 30) ].

(** *** The task store and the task service *)

(** A pending task has no completion time and a completed task has one. *)
Definition timed (task : Task.t) : bool :=
  match Task.status task, Task.completedAt task with
  | PENDING, Some _ => false
  | COMPLETED, None => false
  | _, _ => true
  end.

(** Every action but a [setTasks] that loads a task breaking [timed]. *)
Definition loadsTimed (a : TaskStore.Action) : bool :=
  match a with
  | TaskStore.SetTasks loaded => forallb timed loaded
  | _ => true
  end.

(** [completeTask] called once for each of [calls], an identifier with
    the clock of that call. *)
Definition completeEach (calls : list (string * (nat -> Z))) (s : TaskStore.TaskState)
    : TaskStore.TaskState :=
  fold_left (fun s call => TaskStore.completeTask call.1 call.2 s) calls s.

(** Every task is named by one of the calls. *)
Definition namesEvery (calls : list (string * (nat -> Z))) (tasks : list Task.t) : bool :=
  forallb (fun task => existsb (String.eqb (Task.id task)) (map fst calls)) tasks.

(** The tasks with the identifier [id] are pending, with no completion
    time. *)
Definition pendingAt (id : string) (tasks : list Task.t) : bool :=
  forallb (fun task =>
             negb (String.eqb (Task.id task) id)
             || (TaskStatus_eqb (Task.status task) PENDING
                 && match Task.completedAt task with Some _ => false | None => true end))
          tasks.

Definition twoPending : TaskStore.TaskState :=
  {| TaskStore.tasks := [createTask "1" PENDING EASY; createTask "2" PENDING HARD];
     TaskStore.isLoading := false;
     TaskStore.error := None |}.

Definition taskActions : list TaskStore.Action :=
  [ TaskStore.AddTask "t1" 10
      {| CreateTaskPayload.title := " write "; CreateTaskPayload.description := "";
         CreateTaskPayload.difficulty := EASY; CreateTaskPayload.dueDate := None |};
    TaskStore.CompleteTask "t1" (fun _ => 20);
    TaskStore.UpdateTask "t1" (TaskStore.statusOnly CANCELLED) (fun _ => 30);
    TaskStore.UncompleteTask "t1" ].

(** What [TaskService.createTask] lets through, in the words of its error
    messages: a title with a character that is not white space and of at
    most 255 characters, a description of at most 2000 characters, and a
    due date that is missing, 0, or not before [now]. *)
Definition acceptable (payload : CreateTaskPayload.t) (now : Z) : bool :=
  negb (allChars JSString.isWhiteSpace (CreateTaskPayload.title payload))
  && (String.length (CreateTaskPayload.title payload) <=? 255)%nat
  && (String.length (CreateTaskPayload.description payload) <=? 2000)%nat
  && match CreateTaskPayload.dueDate payload with
     | Some date => (date =? 0) || (now <=? date)
     | None => true
     end.

(** What [TaskService.updateTask] lets through: an identifier with a
    character that is not white space, and, for what the payload gives, a
    title with such a character and of at most 255 characters, a
    description of at most 2000 characters, a due date not before
    [now]. *)
Definition acceptableUpdate (id : string) (payload : UpdateTaskPayload.t) (now : Z) : bool :=
  negb (allChars JSString.isWhiteSpace id)
  && match UpdateTaskPayload.title payload with
     | Some title =>
         negb (allChars JSString.isWhiteSpace title) && (String.length title <=? 255)%nat
     | None => true
     end
  && match UpdateTaskPayload.description payload with
     | Some description => (String.length description <=? 2000)%nat
     | None => true
     end
  && match UpdateTaskPayload.dueDate payload with
     | Some date => now <=? date
     | None => true
     end.

(** A database manager that keeps the tasks in a list and logs the
    payloads handed to it. *)
Record ListDatabase := mkDb {
  stored : list Task.t;
  created : list CreateTaskPayload.t;
  updates : list (string * UpdateTaskPayload.t)
}.

Definition listCreateTask (payload : CreateTaskPayload.t) (db : ListDatabase)
    : OperationResult.t Task.t * ListDatabase :=
  let task :=
    {| Task.id := JS.toString (Z.of_nat (List.length (stored db)));
       Task.title := JSString.trim (CreateTaskPayload.title payload);
       Task.description := CreateTaskPayload.description payload;
       Task.status := PENDING;
       Task.difficulty := CreateTaskPayload.difficulty payload;
       Task.createdAt := 0;
       Task.completedAt := None;
       Task.dueDate := CreateTaskPayload.dueDate payload |} in
  ({| OperationResult.success := true; OperationResult.data := Some task;
      OperationResult.error := None |},
   {| stored := task :: stored db; created := created db ++ [payload];
      updates := updates db |}).

Definition listGetAllTasks (db : ListDatabase)
    : OperationResult.t (list Task.t) * ListDatabase :=
  ({| OperationResult.success := true; OperationResult.data := Some (stored db);
      OperationResult.error := None |}, db).

Definition listUpdateTask (id : string) (payload : UpdateTaskPayload.t) (db : ListDatabase)
    : OperationResult.t Task.t * ListDatabase :=
  (OperationResult.failure "Task not found",
   {| stored := stored db; created := created db;
      updates := updates db ++ [(id, payload)] |}).

Definition emptyDatabase : ListDatabase :=
  {| stored := []; created := []; updates := [] |}.

Definition goodPayload : CreateTaskPayload.t :=
  {| CreateTaskPayload.title := "Write report";
     CreateTaskPayload.description := "";
     CreateTaskPayload.difficulty := MEDIUM;
     CreateTaskPayload.dueDate := Some 0 |}.

Fixpoint repeated (c : ascii) (n : nat) : string :=
  match n with
  | O => EmptyString
  | S k => String c (repeated c k)
  end.

(** A title of 200 accented letters (code 233) and a description of 2000
    of them. *)
Definition accentedPayload : CreateTaskPayload.t :=
  {| CreateTaskPayload.title := repeated "233"%char 200;
     CreateTaskPayload.description := repeated "233"%char 2000;
     CreateTaskPayload.difficulty := EASY;
     CreateTaskPayload.dueDate := None |}.

(** A title of a no-break space and a space. *)
Definition blankTitlePayload : CreateTaskPayload.t :=
  {| CreateTaskPayload.title := String "160"%char " ";
     CreateTaskPayload.description := "";
     CreateTaskPayload.difficulty := EASY;
     CreateTaskPayload.dueDate := None |}.

Definition dueDateOnly (date : Z) : UpdateTaskPayload.t :=
  {| UpdateTaskPayload.title := None; UpdateTaskPayload.description := None;
     UpdateTaskPayload.status := None; UpdateTaskPayload.difficulty := None;
     UpdateTaskPayload.dueDate := Some date |}.

Definition titleOnly (title : string) : UpdateTaskPayload.t :=
  {| UpdateTaskPayload.title := Some title; UpdateTaskPayload.description := None;
     UpdateTaskPayload.status := None; UpdateTaskPayload.difficulty := None;
     UpdateTaskPayload.dueDate := None |}.
(* ===================================================================== *)
(** * Properties *)
(* ===================================================================== *)

(** ** Strings and numbers *)

Lemma string_length_app (s1 s2 : string) :
  String.length (s1 +:+ s2) = (String.length s1 + String.length s2)%nat.
Proof.
  induction s1 as [|c s1 IH]; [reflexivity|].
  change (String c s1 +:+ s2) with (String c (s1 +:+ s2)).
  simpl. now rewrite IH.
Qed.

Lemma string_app_cancel_r (s1 s2 suffix : string) :
  s1 +:+ suffix = s2 +:+ suffix -> s1 = s2.
Proof.
  revert s2. induction s1 as [|c s1 IH]; intros [|d s2] H.
  - reflexivity.
  - apply (f_equal String.length) in H.
    change (String d s2 +:+ suffix) with (String d (s2 +:+ suffix)) in H.
    change ("" +:+ suffix) with suffix in H.
    simpl in H. rewrite string_length_app in H. lia.
  - apply (f_equal String.length) in H.
    change (String c s1 +:+ suffix) with (String c (s1 +:+ suffix)) in H.
    change ("" +:+ suffix) with suffix in H.
    simpl in H. rewrite string_length_app in H. lia.
  - change (String c (s1 +:+ suffix) = String d (s2 +:+ suffix)) in H.
    injection H as -> H. f_equal. now apply IH.
Qed.

Lemma toString_inj (a b : Z) : JS.toString a = JS.toString b -> a = b.
Proof.
  unfold JS.toString. intros H.
  apply (f_equal NilEmpty.int_of_string) in H.
  rewrite !NilEmpty.isi in H.
  injection H as H.
  apply (f_equal Z.of_int) in H.
  now rewrite !DecimalZ.of_to in H.
Qed.

Lemma taskXP_table (task : Task.t) :
  UnlockService.taskXP task =
  match Task.difficulty task with EASY => 75 | MEDIUM => 100 | HARD => 150 end.
Proof.
  unfold UnlockService.taskXP.
  destruct (Task.difficulty task); vm_compute; reflexivity.
Qed.

(** The percentage is computed in binary64: 29 of 200 is 14.499999999999998
    there and rounds to 14, where the exact quotient 14.5 would round to 15;
    199 of 200 rounds to 100 although a task is left. *)
Example percentage_values :
  map (fun '(completed, total) => UnlockService.percentage completed total)
      [(1, 2); (1, 3); (2, 3); (1, 4); (29, 200); (199, 200); (0, 7); (7, 7)]%nat
  = [50; 33; 67; 25; 14; 100; 0; 100].
Proof. vm_compute. reflexivity. Qed.

Example one_third_binary64 :
  JS.div (JS.of_Z 1) (JS.of_Z 3) = JS.Pos 6004799503160661 (-54).
Proof. vm_compute. reflexivity. Qed.

(** ** UnlockService: the threshold loop and the four outcomes of a call *)

Section UnlockServiceFacts.
Import UnlockService.

Implicit Types (this : UnlockService.t) (tasks : list Task.t).

Lemma crosses_spec this pct th :
  crosses this pct th = true <->
  th <= pct /\ previousCompletionPercentage this < th /\ th ∉ notifiedThresholds this.
Proof.
  unfold crosses. rewrite !andb_true_iff, negb_true_iff, bool_decide_eq_false.
  rewrite Z.leb_le, Z.ltb_lt. tauto.
Qed.

Lemma thresholdLoop_Some this pct ths th this' :
  thresholdLoop this pct ths = (Some th, this') ->
  this' = markNotified this th /\
  exists before after,
    ths = before ++ th :: after /\
    Forall (fun u => crosses this pct u = false) before /\
    crosses this pct th = true.
Proof.
  induction ths as [|u ths IH]; simpl; [discriminate|].
  destruct (crosses this pct u) eqn:Hu.
  - intros [= <- <-]. split; [reflexivity|].
    exists [], ths. repeat split; [constructor | exact Hu].
  - intros H. destruct (IH H) as [-> (before & after & -> & Hb & Hth)].
    split; [reflexivity|].
    exists (u :: before), after. repeat split; [constructor; assumption | exact Hth].
Qed.

Lemma thresholdLoop_None this pct ths this' :
  thresholdLoop this pct ths = (None, this') ->
  this' = this /\ Forall (fun u => crosses this pct u = false) ths.
Proof.
  induction ths as [|u ths IH]; simpl.
  - intros [= <-]. split; [reflexivity | constructor].
  - destruct (crosses this pct u) eqn:Hu; [discriminate|].
    intros H. destruct (IH H) as [-> Hall]. split; [reflexivity|].
    constructor; assumption.
Qed.

Lemma thresholdLoop_first this pct before th after :
  Forall (fun u => crosses this pct u = false) before ->
  crosses this pct th = true ->
  thresholdLoop this pct (before ++ th :: after) = (Some th, markNotified this th).
Proof.
  induction 1 as [|u before Hu _ IH]; intros Hth; simpl.
  - now rewrite Hth.
  - rewrite Hu. now apply IH.
Qed.

(** Nothing crosses when the percentage has not moved. *)
Lemma thresholdLoop_unmoved this ths :
  thresholdLoop this (previousCompletionPercentage this) ths = (None, this).
Proof.
  induction ths as [|u ths IH]; simpl; [reflexivity|].
  replace (crosses this (previousCompletionPercentage this) u) with false; [exact IH|].
  symmetry. apply not_true_is_false. rewrite crosses_spec. lia.
Qed.

Lemma processTaskCompletion_outcome this tasks :
  Outcome this tasks (processTaskCompletion this tasks).1
                     (processTaskCompletion this tasks).2.
Proof.
  unfold processTaskCompletion, checkPartialUnlockThreshold.
  destruct (UnlockConditionResult.canUnlock (evaluateUnlockCondition tasks)) eqn:Hcan.
  - simpl. now apply OutFull.
  - fold (pctOf tasks).
    destruct (thresholdLoop this (pctOf tasks) (partialUnlockThresholds (config this)))
      as [[th|] this'] eqn:Hloop.
    + apply thresholdLoop_Some in Hloop as [-> (before & after & Hths & Hb & Hth)].
      simpl. now apply (OutPartial this tasks th before after).
    + apply thresholdLoop_None in Hloop as [-> Hall].
      destruct (pctOf tasks =? previousCompletionPercentage this) eqn:Heq; simpl.
      * apply Z.eqb_eq in Heq. now apply OutNothing.
      * apply Z.eqb_neq in Heq. now apply OutProgress.
Qed.

Lemma processTaskCompletion_inv this tasks r this' :
  processTaskCompletion this tasks = (r, this') -> Outcome this tasks r this'.
Proof.
  intros H. pose proof (processTaskCompletion_outcome this tasks) as Ho.
  now rewrite H in Ho.
Qed.

End UnlockServiceFacts.


(** ** UnlockService: repeated calls (C1) *)

Section RepeatedCalls.
Import UnlockService.

Implicit Types (this : UnlockService.t) (tasks : list Task.t).

Lemma processTaskCompletion_unmoved this tasks :
  UnlockConditionResult.canUnlock (evaluateUnlockCondition tasks) = false ->
  previousCompletionPercentage this = pctOf tasks ->
  processTaskCompletion this tasks = (None, this).
Proof.
  intros Hcan Hprev.
  unfold processTaskCompletion, checkPartialUnlockThreshold.
  rewrite Hcan. fold (pctOf tasks). rewrite <- Hprev.
  rewrite thresholdLoop_unmoved. now rewrite Z.eqb_refl.
Qed.

Lemma Outcome_previous this tasks n this1 :
  Outcome this tasks (Some n) this1 ->
  previousCompletionPercentage this1 = pctOf tasks.
Proof.
  intros Ho. remember (Some n) as r eqn:Hr.
  destruct Ho; [reflexivity .. | discriminate].
Qed.

Lemma Outcome_full_type this tasks r this1 :
  Outcome this tasks r this1 ->
  UnlockConditionResult.canUnlock (evaluateUnlockCondition tasks) = true ->
  r = Some (fullUnlockNotification (evaluateUnlockCondition tasks)
              (calculateXPEarned tasks)).
Proof.
  intros Ho Hcan.
  destruct Ho as [Hc | th before after Hc | Hc | Hc]; [reflexivity | congruence ..].
Qed.

(** C1, as amended.  When a call of [processTaskCompletion] returns a
    notification for a list that is not fully completed, the call repeated at
    once on the same list returns nothing and leaves the service as it is.
    For a fully completed list (completed = total > 0) the notification is a
    [full_unlock], and the repeated call returns that same notification
    again. *)
Theorem processTaskCompletion_repeated this tasks n this1 :
  processTaskCompletion this tasks = (Some n, this1) ->
  if UnlockConditionResult.canUnlock (evaluateUnlockCondition tasks)
  then UnlockNotification.type n = full_unlock
       /\ (processTaskCompletion this1 tasks).1 = Some n
  else processTaskCompletion this1 tasks = (None, this1).
Proof.
  intros Hfirst. apply processTaskCompletion_inv in Hfirst.
  destruct (UnlockConditionResult.canUnlock (evaluateUnlockCondition tasks)) eqn:Hcan.
  - pose proof (Outcome_full_type _ _ _ _ Hfirst Hcan) as [= ->].
    split; [reflexivity|].
    now apply (Outcome_full_type this1 tasks _ _ (processTaskCompletion_outcome this1 tasks)).
  - apply processTaskCompletion_unmoved; [exact Hcan|].
    now apply Outcome_previous in Hfirst.
Qed.

(** The repeated call is silent after the [partial_unlock] of 50%. *)
Lemma processTaskCompletion_repeated_witness :
  processTaskCompletion (processTaskCompletion service0 halfDone).2 halfDone
  = (None, (processTaskCompletion service0 halfDone).2).
Proof.
  refine (processTaskCompletion_repeated service0 halfDone
            (partialUnlockNotification (evaluateUnlockCondition halfDone) 50)
            (processTaskCompletion service0 halfDone).2 _).
  vm_compute. reflexivity.
Defined.

(** C1 as stated fails: on the one-task list whose task is completed, the
    first call returns a [full_unlock] notification and the call repeated on
    the same list returns it again instead of nothing. *)
Lemma full_unlock_returned_again :
  (processTaskCompletion service0 oneDone).1
  = Some {| UnlockNotification.type := full_unlock;
            UnlockNotification.message := "All tasks completed! Focus Mode unlocked.";
            UnlockNotification.completedTasks := 1;
            UnlockNotification.totalTasks := 1;
            UnlockNotification.xpEarned := Some 100 |}
  /\ (processTaskCompletion (processTaskCompletion service0 oneDone).2 oneDone).1
     = (processTaskCompletion service0 oneDone).1
  /\ (processTaskCompletion (processTaskCompletion service0 oneDone).2 oneDone).1 <> None.
Proof. vm_compute. repeat split; discriminate. Qed.

End RepeatedCalls.

(** ** UnlockService: the full unlock and its reward (C3), cancelled tasks (C10) *)

Section FullUnlock.
Import UnlockService.

Implicit Types (this : UnlockService.t) (tasks : list Task.t).

Lemma rewardOf_multiplier (d : TaskDifficulty) :
  rewardOf d = JS.round (JS.mul (JS.of_Z 100) (difficultyMultiplier d)).
Proof. destruct d; vm_compute; reflexivity. Qed.

Lemma isCompleted_status (task : Task.t) :
  isCompleted task = true <-> Task.status task = COMPLETED.
Proof. unfold isCompleted. destruct (Task.status task); simpl; split; congruence. Qed.

Lemma fold_taskXP (l : list Task.t) (acc : Z) :
  fold_left (fun totalXP task => totalXP + taskXP task) l acc
  = acc + fold_right (fun task s => taskXP task + s) 0 l.
Proof.
  revert acc. induction l as [|task l IH]; intros acc; simpl; [lia|].
  rewrite IH. lia.
Qed.

Lemma calculateXPEarned_rewardSum tasks :
  calculateXPEarned tasks = rewardSum tasks.
Proof.
  unfold calculateXPEarned. rewrite fold_taskXP, Z.add_0_l.
  induction tasks as [|task tasks IH]; [reflexivity|].
  cbn [List.filter rewardSum]. unfold isCompleted at 1.
  destruct (Task.status task) eqn:Hst; cbn [TaskStatus_eqb fold_right]; try exact IH.
  rewrite IH, taskXP_table. unfold rewardOf. reflexivity.
Qed.

Lemma filter_length_le {A} (f : A -> bool) (l : list A) :
  (List.length (List.filter f l) <= List.length l)%nat.
Proof. induction l as [|a l IH]; simpl; [lia|]. destruct (f a); simpl; lia. Qed.

Lemma completed_cancelled_le tasks :
  (List.length (List.filter isCompleted tasks)
   + List.length (List.filter isCancelled tasks) <= List.length tasks)%nat.
Proof.
  induction tasks as [|task tasks IH]; simpl; [lia|].
  unfold isCompleted at 1, isCancelled at 1.
  destruct (Task.status task); simpl; lia.
Qed.

Lemma cancelled_counted tasks task :
  In task tasks -> Task.status task = CANCELLED ->
  (1 <= List.length (List.filter isCancelled tasks))%nat.
Proof.
  intros Hin Hst. induction tasks as [|x tasks IH]; [destruct Hin|].
  simpl. destruct Hin as [-> | Hin].
  - unfold isCancelled at 1. rewrite Hst. simpl. lia.
  - specialize (IH Hin). destruct (isCancelled x); simpl; lia.
Qed.

Lemma canUnlock_counts tasks :
  UnlockConditionResult.canUnlock (evaluateUnlockCondition tasks) = true <->
  (0 < UnlockConditionResult.totalTasks (evaluateUnlockCondition tasks))%nat /\
  UnlockConditionResult.completedTasks (evaluateUnlockCondition tasks)
  = UnlockConditionResult.totalTasks (evaluateUnlockCondition tasks).
Proof.
  unfold evaluateUnlockCondition; cbn -[percentage Nat.ltb Nat.eqb].
  rewrite andb_true_iff, Nat.ltb_lt, Nat.eqb_eq. tauto.
Qed.

(** C3.  For a list with [totalTasks > 0] whose tasks are all completed,
    [processTaskCompletion] returns a [full_unlock] notification, whatever
    the thresholds and the tracking state are, and its [xpEarned] is the sum
    over the completed tasks of [Math.round(100 * m)], [m] being 0.75, 1.0 or
    1.5 by difficulty, that is 75, 100 or 150 a task; a task in another
    status adds nothing to [calculateXPEarned]; one completed task of each
    difficulty earns 325. *)
Theorem full_unlock_reward this tasks :
  (0 < UnlockConditionResult.totalTasks (evaluateUnlockCondition tasks))%nat ->
  UnlockConditionResult.completedTasks (evaluateUnlockCondition tasks)
  = UnlockConditionResult.totalTasks (evaluateUnlockCondition tasks) ->
  (exists n,
      (processTaskCompletion this tasks).1 = Some n
      /\ UnlockNotification.type n = full_unlock
      /\ UnlockNotification.xpEarned n = Some (rewardSum tasks))
  /\ (forall d, rewardOf d = JS.round (JS.mul (JS.of_Z 100) (difficultyMultiplier d)))
  /\ (forall any, calculateXPEarned any = rewardSum any)
  /\ calculateXPEarned oneOfEach = 325.
Proof.
  intros Hpos Hall.
  assert (Hcan : UnlockConditionResult.canUnlock (evaluateUnlockCondition tasks) = true)
    by (apply canUnlock_counts; split; assumption).
  split; [| split; [exact rewardOf_multiplier | split;
                    [exact calculateXPEarned_rewardSum | vm_compute; reflexivity]]].
  exists (fullUnlockNotification (evaluateUnlockCondition tasks) (calculateXPEarned tasks)).
  split.
  - now apply (Outcome_full_type this tasks _ _ (processTaskCompletion_outcome this tasks)).
  - split; [reflexivity|]. cbn. now rewrite calculateXPEarned_rewardSum.
Qed.

(** The three-task list with one task of each difficulty, all completed. *)
Lemma full_unlock_reward_witness :
  exists n,
    (processTaskCompletion service0 oneOfEach).1 = Some n
    /\ UnlockNotification.type n = full_unlock
    /\ UnlockNotification.xpEarned n = Some 325.
Proof.
  refine (proj1 (full_unlock_reward service0 oneOfEach _ _));
    vm_compute; [lia | reflexivity].
Defined.

(** C10.  A cancelled task counts in [totalTasks] and not in
    [completedTasks]; so for a list holding a cancelled task
    [evaluateUnlockCondition] gives [canUnlock = false],
    [areAllTasksCompleted] gives false, and [processTaskCompletion] returns
    no [full_unlock] notification in any state of the service. *)
Theorem cancelled_task_blocks_unlock tasks :
  (exists task, In task tasks /\ Task.status task = CANCELLED) ->
  UnlockConditionResult.totalTasks (evaluateUnlockCondition tasks) = List.length tasks
  /\ (UnlockConditionResult.completedTasks (evaluateUnlockCondition tasks)
      + List.length (List.filter isCancelled tasks) <= List.length tasks)%nat
  /\ (UnlockConditionResult.completedTasks (evaluateUnlockCondition tasks)
      < UnlockConditionResult.totalTasks (evaluateUnlockCondition tasks))%nat
  /\ UnlockConditionResult.canUnlock (evaluateUnlockCondition tasks) = false
  /\ areAllTasksCompleted tasks = false
  /\ (forall this n,
        (processTaskCompletion this tasks).1 = Some n ->
        UnlockNotification.type n <> full_unlock).
Proof.
  intros (task & Hin & Hst).
  pose proof (completed_cancelled_le tasks) as Hle.
  pose proof (cancelled_counted tasks task Hin Hst) as Hone.
  assert (Hcan : UnlockConditionResult.canUnlock (evaluateUnlockCondition tasks) = false).
  { apply not_true_is_false. rewrite canUnlock_counts.
    unfold evaluateUnlockCondition; cbn -[percentage]. lia. }
  split; [reflexivity|]. split; [exact Hle|].
  split; [unfold evaluateUnlockCondition; cbn -[percentage]; lia|].
  split; [exact Hcan|]. split.
  - unfold areAllTasksCompleted. destruct (List.length tasks =? 0)%nat; [reflexivity|].
    apply not_true_is_false. rewrite forallb_forall. intros Hall.
    specialize (Hall task Hin). apply isCompleted_status in Hall. congruence.
  - intros this n Hn.
    pose proof (processTaskCompletion_outcome this tasks) as Ho.
    rewrite Hn in Ho. remember (Some n) as r eqn:Hr.
    destruct Ho as [Hc | th before after Hc | Hc | Hc];
      [congruence | injection Hr as <-; discriminate ..| discriminate].
Qed.

(** A completed task next to a cancelled one: no unlock. *)
Lemma cancelled_task_blocks_unlock_witness :
  UnlockConditionResult.canUnlock (evaluateUnlockCondition withCancelled) = false
  /\ areAllTasksCompleted withCancelled = false.
Proof.
  refine (let H := cancelled_task_blocks_unlock withCancelled _ in
          conj (proj1 (proj2 (proj2 (proj2 H))))
               (proj1 (proj2 (proj2 (proj2 (proj2 H)))))).
  exists (createTask "2" CANCELLED MEDIUM). split; [right; left; reflexivity | reflexivity].
Defined.

End FullUnlock.

(** ** UnlockService: thresholds within a tracking epoch (C2) *)

Section Thresholds.
Import UnlockService.

Implicit Types (this : UnlockService.t) (tasks : list Task.t).

Lemma isPartialUnlockFor_partial cond th th' :
  isPartialUnlockFor th (Some (partialUnlockNotification cond th')) = true <-> th = th'.
Proof.
  unfold isPartialUnlockFor, partialUnlockNotification; cbn.
  rewrite String.eqb_eq. split.
  - intros H. apply string_app_cancel_r in H. symmetry. now apply toString_inj.
  - now intros ->.
Qed.

(** What a call that returns the [partial_unlock] of [th] has tested and done. *)
Lemma Outcome_partial this tasks r this1 th :
  Outcome this tasks r this1 ->
  isPartialUnlockFor th r = true ->
  UnlockConditionResult.canUnlock (evaluateUnlockCondition tasks) = false
  /\ crosses this (pctOf tasks) th = true
  /\ (exists before after,
        partialUnlockThresholds (config this) = before ++ th :: after
        /\ Forall (fun u => crosses this (pctOf tasks) u = false) before)
  /\ r = Some (partialUnlockNotification (evaluateUnlockCondition tasks) th)
  /\ notifiedThresholds this1 = {[th]} ∪ notifiedThresholds this.
Proof.
  intros Ho Hr.
  destruct Ho as [Hc | th' before after Hc Hths Hb Hth | Hc Hall Hne | Hc Hall He];
    try discriminate Hr.
  apply isPartialUnlockFor_partial in Hr as ->.
  split; [exact Hc|]. split; [exact Hth|].
  split; [exists before, after; split; assumption|].
  split; [reflexivity|].
  cbn. unfold invokeCallback. destruct (onUnlockCallback _); reflexivity.
Qed.

(** A call marks at most one threshold, and only next to its notification. *)
Lemma Outcome_notified this tasks r this1 :
  Outcome this tasks r this1 ->
  notifiedThresholds this1 = notifiedThresholds this
  \/ exists th, isPartialUnlockFor th r = true
                /\ notifiedThresholds this1 = {[th]} ∪ notifiedThresholds this.
Proof.
  intros Ho.
  destruct Ho as [Hc | th before after Hc Hths Hb Hth | Hc Hall Hne | Hc Hall He].
  - left. cbn. unfold invokeCallback. destruct (onUnlockCallback _); reflexivity.
  - right. exists th. split; [now apply isPartialUnlockFor_partial|].
    cbn. unfold invokeCallback. destruct (onUnlockCallback _); reflexivity.
  - left. reflexivity.
  - left. reflexivity.
Qed.

Lemma Outcome_notified_mono this tasks r this1 th :
  Outcome this tasks r this1 ->
  th ∈ notifiedThresholds this -> th ∈ notifiedThresholds this1.
Proof.
  intros Ho Hin. destruct (Outcome_notified _ _ _ _ Ho) as [-> | (u & _ & ->)];
    set_solver.
Qed.

Lemma processAll_cons this tasks calls :
  processAll this (tasks :: calls)
  = ((processTaskCompletion this tasks).1
       :: (processAll (processTaskCompletion this tasks).2 calls).1,
     (processAll (processTaskCompletion this tasks).2 calls).2).
Proof.
  simpl. destruct (processTaskCompletion this tasks) as [r this1]. simpl.
  destruct (processAll this1 calls) as [rs this2]. reflexivity.
Qed.

(** Once [th] is in [notifiedThresholds], the epoch returns no
    [partial_unlock] of [th] any more. *)
Lemma epoch_silent_once_notified calls : forall this th,
  th ∈ notifiedThresholds this ->
  partialUnlocksFor th (processAll this calls).1 = 0%nat.
Proof.
  induction calls as [|tasks calls IH]; intros this th Hin; [reflexivity|].
  rewrite processAll_cons. unfold partialUnlocksFor in *. cbn [fst List.filter].
  pose proof (processTaskCompletion_outcome this tasks) as Ho.
  destruct (isPartialUnlockFor th (processTaskCompletion this tasks).1) eqn:Hfire.
  - destruct (Outcome_partial _ _ _ _ _ Ho Hfire) as (_ & Hcross & _).
    apply crosses_spec in Hcross. tauto.
  - apply IH. now apply (Outcome_notified_mono _ _ _ _ _ Ho).
Qed.

Lemma epoch_at_most_once calls : forall this th,
  (partialUnlocksFor th (processAll this calls).1 <= 1)%nat.
Proof.
  induction calls as [|tasks calls IH]; intros this th; [cbn; lia|].
  rewrite processAll_cons.
  pose proof (processTaskCompletion_outcome this tasks) as Ho.
  unfold partialUnlocksFor. cbn [fst List.filter].
  destruct (isPartialUnlockFor th (processTaskCompletion this tasks).1) eqn:Hfire.
  - destruct (Outcome_partial _ _ _ _ _ Ho Hfire) as (_ & _ & _ & _ & Hmark).
    cbn [List.length]. fold (partialUnlocksFor th (processAll (processTaskCompletion this tasks).2 calls).1).
    rewrite epoch_silent_once_notified; [lia|].
    rewrite Hmark. apply elem_of_union_l. now apply elem_of_singleton.
  - apply IH.
Qed.

Lemma crosses_after_reset this pct th :
  crosses (resetTracking this) pct th = true <-> 0 < th <= pct.
Proof.
  rewrite crosses_spec. cbn.
  pose proof (not_elem_of_empty (C:=gset Z) th). intuition lia.
Qed.

(** C2.  Within one tracking epoch, from any state of the service:
    - a call returns the [partial_unlock] of a threshold [th] only when
      [completionPercentage >= th], [previousCompletionPercentage < th] and
      [th] is not in [notifiedThresholds]; [th] is then the first threshold
      of the configured list, in the order of the list, that passes this
      test, and the only one the call adds to [notifiedThresholds];
    - a call adds at most one threshold to [notifiedThresholds];
    - over any sequence of calls the [partial_unlock] of [th] is returned at
      most once;
    - [resetTracking] sets [previousCompletionPercentage] to 0 and empties
      [notifiedThresholds], after which the first configured threshold [th]
      with [0 < th <= completionPercentage] fires again. *)
Theorem thresholds_once_per_epoch this :
  (forall tasks th,
      isPartialUnlockFor th (processTaskCompletion this tasks).1 = true ->
      th <= pctOf tasks
      /\ previousCompletionPercentage this < th
      /\ (th ∉ notifiedThresholds this)
      /\ UnlockConditionResult.canUnlock (evaluateUnlockCondition tasks) = false
      /\ (exists before after,
            partialUnlockThresholds (config this) = before ++ th :: after
            /\ Forall (fun u => ~ (u <= pctOf tasks
                                   /\ previousCompletionPercentage this < u
                                   /\ u ∉ notifiedThresholds this)) before)
      /\ notifiedThresholds (processTaskCompletion this tasks).2
         = {[th]} ∪ notifiedThresholds this)
  /\ (forall tasks,
        notifiedThresholds (processTaskCompletion this tasks).2 = notifiedThresholds this
        \/ exists th,
             isPartialUnlockFor th (processTaskCompletion this tasks).1 = true
             /\ notifiedThresholds (processTaskCompletion this tasks).2
                = {[th]} ∪ notifiedThresholds this)
  /\ (forall calls th, (partialUnlocksFor th (processAll this calls).1 <= 1)%nat)
  /\ previousCompletionPercentage (resetTracking this) = 0
  /\ notifiedThresholds (resetTracking this) = ∅
  /\ (forall tasks before th after,
        UnlockConditionResult.canUnlock (evaluateUnlockCondition tasks) = false ->
        partialUnlockThresholds (config this) = before ++ th :: after ->
        Forall (fun u => ~ (0 < u <= pctOf tasks)) before ->
        0 < th <= pctOf tasks ->
        (processTaskCompletion (resetTracking this) tasks).1
        = Some (partialUnlockNotification (evaluateUnlockCondition tasks) th)).
Proof.
  split; [| split; [| split; [| split; [| split]]]].
  - intros tasks th Hfire.
    pose proof (processTaskCompletion_outcome this tasks) as Ho.
    destruct (Outcome_partial _ _ _ _ _ Ho Hfire)
      as (Hcan & Hcross & (before & after & Hths & Hb) & _ & Hmark).
    apply crosses_spec in Hcross as (H1 & H2 & H3).
    repeat (split; [assumption|]). split; [|exact Hmark].
    exists before, after. split; [exact Hths|].
    eapply List.Forall_impl; [|exact Hb]. cbn. intros u Hu Hc.
    apply crosses_spec in Hc. congruence.
  - intros tasks. apply (Outcome_notified this tasks), processTaskCompletion_outcome.
  - intros calls th. apply epoch_at_most_once.
  - reflexivity.
  - reflexivity.
  - intros tasks before th after Hcan Hths Hb Hth.
    unfold processTaskCompletion, checkPartialUnlockThreshold.
    rewrite Hcan. fold (pctOf tasks). cbn [config resetTracking]. rewrite Hths.
    rewrite thresholdLoop_first; [reflexivity | | now apply crosses_after_reset].
    eapply List.Forall_impl; [|exact Hb]. cbn. intros u Hu.
    apply not_true_is_false. now rewrite crosses_after_reset.
Qed.

(** After [resetTracking], the half-completed list crosses 50% again. *)
Lemma thresholds_once_per_epoch_witness :
  (processTaskCompletion
     (resetTracking (processTaskCompletion service0 halfDone).2) halfDone).1
  = Some (partialUnlockNotification (evaluateUnlockCondition halfDone) 50).
Proof.
  refine (proj2 (proj2 (proj2 (proj2 (proj2
            (thresholds_once_per_epoch (processTaskCompletion service0 halfDone).2)))))
            halfDone [] 50 [75] _ _ _ _).
  - vm_compute. reflexivity.
  - vm_compute. reflexivity.
  - constructor.
  - vm_compute. split; [reflexivity | discriminate].
Defined.

(** The runs of the unit tests. *)
Example test_same_threshold_not_twice :
  typesOf (processAll service0 [doneOf 0 2; doneOf 1 2; doneOf 1 2]).1
  = [None; Some partial_unlock; None].
Proof. vm_compute. reflexivity. Qed.

Example test_progress_below_threshold :
  typesOf (processAll service0 [doneOf 0 4; doneOf 1 4]).1
  = [None; Some progress_update].
Proof. vm_compute. reflexivity. Qed.

(** From 0% to 80% in one step: the call returns the notification of 50%
    alone, and the call after it nothing. *)
Example test_one_threshold_per_call :
  map (option_map UnlockNotification.message)
      (processAll service0 [doneOf 4 5; doneOf 4 5]).1
  = [Some "50% complete! Keep going!"; None].
Proof. vm_compute. reflexivity. Qed.

End Thresholds.

(** ** ProcessMonitor: the scan and the matching step (C6) *)

Section Matching.
Import ProcessMonitor.

Example parseTasklist_mock :
  map (fun p => (ProcessInfo.pid p, ProcessInfo.name p, ProcessInfo.executableName p))
      (parseTasklist mockTasklistOutput)
  = [ (0, "System Idle Process", "system idle process");
      (4, "System", "system");
      (1234, "steam", "steam.exe");
      (5678, "Discord", "discord.exe");
      (9012, "chrome", "chrome.exe");
      (3456, "EpicGamesLauncher", "epicgameslauncher.exe") ].
Proof. vm_compute. reflexivity. Qed.

Example detect_mock :
  map ProcessInfo.executableName
      (detectRestrictedProcesses scripted monitor0 testRestrictedApps
         (boot [Resolved mockTasklistOutput])).1
  = ["steam.exe"; "epicgameslauncher.exe"].
Proof. vm_compute. reflexivity. Qed.

Lemma lowerChar_idem (c : ascii) :
  JSString.lowerChar (JSString.lowerChar c) = JSString.lowerChar c.
Proof. destruct c as [[] [] [] [] [] [] [] []]; reflexivity. Qed.

Lemma toLowerCase_idem (s : string) :
  JSString.toLowerCase (JSString.toLowerCase s) = JSString.toLowerCase s.
Proof.
  induction s as [|c s IH]; [reflexivity|].
  cbn [JSString.toLowerCase]. now rewrite lowerChar_idem, IH.
Qed.

(** The scanner hands out executable names in lower case. *)
Lemma parseTasklist_lowercase (stdout : string) :
  Forall (fun p => JSString.toLowerCase (ProcessInfo.executableName p)
                   = ProcessInfo.executableName p)
         (parseTasklist stdout).
Proof.
  unfold parseTasklist.
  induction (JSString.splitLines (JSString.trim stdout)) as [|line lines IH];
    [constructor|].
  cbn [flat_map]. apply Forall_app. split; [|exact IH].
  unfold parseLine. destruct (JSString.matchRow line) as [[name digits]|];
    [|constructor].
  constructor; [|constructor]. cbn. apply toLowerCase_idem.
Qed.

Lemma getRunningProcesses_lowercase {World} (execAsync : string -> World -> ExecOutcome * World)
    (this : ProcessMonitor.t) (s : Sys World) :
  Forall (fun p => JSString.toLowerCase (ProcessInfo.executableName p)
                   = ProcessInfo.executableName p)
         (getRunningProcesses execAsync this s).1.
Proof.
  unfold getRunningProcesses.
  destruct (exec execAsync "tasklist /FO CSV /NH" s) as [[stdout|error] s1]; cbn.
  - apply parseTasklist_lowercase.
  - constructor.
Qed.

Lemma matchApps_spec (process : ProcessInfo.t) (enabledApps : list RestrictedApp.t)
    (detected : list ProcessInfo.t) :
  matchApps process enabledApps detected
  = detected ++
    (if existsb (fun app => String.eqb (ProcessInfo.executableName process)
                              (JSString.toLowerCase (RestrictedApp.executableName app)))
                enabledApps
     then [process] else []).
Proof.
  induction enabledApps as [|app apps IH]; cbn [matchApps existsb].
  - now rewrite app_nil_r.
  - destruct (String.eqb _ _); [reflexivity | exact IH].
Qed.

Lemma existsb_filter {A} (keep test : A -> bool) (l : list A) :
  existsb test (List.filter keep l) = existsb (fun a => keep a && test a) l.
Proof.
  induction l as [|a l IH]; [reflexivity|].
  cbn [List.filter existsb]. destruct (keep a); cbn [existsb andb]; now rewrite IH.
Qed.

Lemma fold_matchApps (enabledApps : list RestrictedApp.t) (running : list ProcessInfo.t) :
  forall detected,
    fold_left (fun detected process => matchApps process enabledApps detected)
              running detected
    = detected ++
      List.filter
        (fun process =>
           existsb (fun app => String.eqb (ProcessInfo.executableName process)
                                 (JSString.toLowerCase (RestrictedApp.executableName app)))
                   enabledApps)
        running.
Proof.
  induction running as [|p running IH]; intros detected; cbn [fold_left List.filter].
  - now rewrite app_nil_r.
  - rewrite IH, matchApps_spec. rewrite <- app_assoc. f_equal.
    destruct (existsb _ enabledApps); reflexivity.
Qed.

(** Case-ignoring equality is equality after [toLowerCase]: checked on
    every pair of code units. *)
Lemma allCodes_complete (c : ascii) : In c allCodes.
Proof.
  unfold allCodes, codes. apply in_map_iff. exists (nat_of_ascii c).
  split; [apply ascii_nat_embedding|].
  apply in_seq. pose proof (nat_ascii_bounded c). lia.
Qed.

Lemma sameLetter_lowerChar (c d : ascii) :
  sameLetter c d = Ascii.eqb (JSString.lowerChar c) (JSString.lowerChar d).
Proof.
  assert (Htable :
            forallb (fun c =>
              forallb (fun d =>
                Bool.eqb (sameLetter c d)
                         (Ascii.eqb (JSString.lowerChar c) (JSString.lowerChar d)))
                allCodes) allCodes = true)
    by (vm_compute; reflexivity).
  rewrite forallb_forall in Htable.
  specialize (Htable c (allCodes_complete c)).
  rewrite forallb_forall in Htable.
  specialize (Htable d (allCodes_complete d)).
  now apply Bool.eqb_prop in Htable.
Qed.

Lemma sameNameIgnoringCase_toLowerCase (a : string) : forall b,
  sameNameIgnoringCase a b
  = String.eqb (JSString.toLowerCase a) (JSString.toLowerCase b).
Proof.
  induction a as [|c a IH]; intros [|d b]; try reflexivity.
  cbn [sameNameIgnoringCase JSString.toLowerCase String.eqb].
  rewrite sameLetter_lowerChar, IH.
  destruct (Ascii.eqb (JSString.lowerChar c) (JSString.lowerChar d)); reflexivity.
Qed.

Lemma existsb_same {A} (f g : A -> bool) (l : list A) :
  (forall a, f a = g a) -> existsb f l = existsb g l.
Proof.
  intros Hfg. induction l as [|a l IH]; [reflexivity|].
  cbn [existsb]. now rewrite Hfg, IH.
Qed.

(** On names already in lower case the two nested loops compute the
    restricted processes, in the order of the running list. *)
Lemma matchProcesses_filter (running : list ProcessInfo.t)
    (restrictedApps : list RestrictedApp.t) :
  Forall (fun p => JSString.toLowerCase (ProcessInfo.executableName p)
                   = ProcessInfo.executableName p) running ->
  matchProcesses running restrictedApps
  = List.filter (isRestricted restrictedApps) running.
Proof.
  intros Hlow. unfold matchProcesses. rewrite fold_matchApps. cbn [List.app].
  apply filter_ext_in. intros p Hin.
  rewrite List.Forall_forall in Hlow. specialize (Hlow p Hin).
  rewrite existsb_filter. unfold isRestricted.
  apply existsb_same. intros app. now rewrite sameNameIgnoringCase_toLowerCase, Hlow.
Qed.


End Matching.


(** ** ProcessMonitor: graceful-then-forced termination (C4, C5) *)

Section Termination.
Import ProcessMonitor.

Context {World : Type}.
Variable execAsync : string -> World -> ExecOutcome * World.

Implicit Types (this : ProcessMonitor.t) (s : Sys World) (pid : Z) (processName : string).

(** The graceful and the forced request are different command lines. *)
Lemma taskkill_distinct pid : taskkill pid false <> taskkill pid true.
Proof.
  unfold taskkill. intros H. apply (f_equal String.length) in H.
  rewrite !string_length_app in H. cbn in H. lia.
Qed.

Lemma forceKill_spec pid processName s :
  forceKill execAsync pid processName s
  = (resultOf pid processName (execAsync (taskkill pid true) (world s)).1,
     {| world := (execAsync (taskkill pid true) (world s)).2;
        issued := issued s ++ [taskkill pid true] |}).
Proof.
  unfold forceKill, exec.
  destruct (execAsync (taskkill pid true) (world s)) as [[out|e] w]; reflexivity.
Qed.

Lemma success_resultOf pid processName outcome :
  TerminationResult.success (resultOf pid processName outcome) = isResolved outcome.
Proof. destruct outcome; reflexivity. Qed.

(** C4.  With [gracefulTerminationFirst] set: when the graceful request is
    rejected, the forced request is issued next, once, and the result is the
    one of the forced request alone ([success] exactly when it resolved);
    when the graceful request resolves, nothing else is issued and the
    result is a success.  With [gracefulTerminationFirst] unset, the forced
    request is the only one issued and the result is its own. *)
Theorem terminateProcess_escalation this pid processName s :
  (gracefulTerminationFirst (config this) = true ->
   forall error w1,
     execAsync (taskkill pid false) (world s) = (Rejected error, w1) ->
     terminateProcess execAsync this pid processName s
     = (resultOf pid processName (execAsync (taskkill pid true) w1).1,
        {| world := (execAsync (taskkill pid true) w1).2;
           issued := issued s ++ [taskkill pid false; taskkill pid true] |})
     /\ TerminationResult.success (terminateProcess execAsync this pid processName s).1
        = isResolved (execAsync (taskkill pid true) w1).1)
  /\ (gracefulTerminationFirst (config this) = true ->
      forall stdout w1,
        execAsync (taskkill pid false) (world s) = (Resolved stdout, w1) ->
        terminateProcess execAsync this pid processName s
        = (succeeded pid processName,
           {| world := w1; issued := issued s ++ [taskkill pid false] |}))
  /\ (gracefulTerminationFirst (config this) = false ->
      terminateProcess execAsync this pid processName s
      = (resultOf pid processName (execAsync (taskkill pid true) (world s)).1,
         {| world := (execAsync (taskkill pid true) (world s)).2;
            issued := issued s ++ [taskkill pid true] |}))
  /\ taskkill pid false <> taskkill pid true.
Proof.
  split; [| split; [| split]].
  - intros Hg error w1 Hgraceful.
    assert (Heq : terminateProcess execAsync this pid processName s
      = (resultOf pid processName (execAsync (taskkill pid true) w1).1,
         {| world := (execAsync (taskkill pid true) w1).2;
            issued := issued s ++ [taskkill pid false; taskkill pid true] |})).
    { unfold terminateProcess. rewrite Hg. unfold exec at 1. rewrite Hgraceful.
      rewrite forceKill_spec. cbn [world issued]. now rewrite <- app_assoc. }
    split; [exact Heq|]. rewrite Heq. apply success_resultOf.
  - intros Hg stdout w1 Hgraceful.
    unfold terminateProcess. rewrite Hg. unfold exec. now rewrite Hgraceful.
  - intros Hg. unfold terminateProcess. rewrite Hg. apply forceKill_spec.
  - apply taskkill_distinct.
Qed.

(** C5, as amended.  When the target is gone and every request issued
    against it is rejected, [terminateProcess] returns [success = false]
    and, as [error], the message of the rejected forced request. *)
Theorem terminateProcess_all_rejected this pid processName s :
  forall e1 w1 e2 w2,
    execAsync (taskkill pid false) (world s) = (Rejected e1, w1) ->
    execAsync (taskkill pid true)
              (if gracefulTerminationFirst (config this) then w1 else world s)
    = (Rejected e2, w2) ->
    TerminationResult.success (terminateProcess execAsync this pid processName s).1 = false
    /\ TerminationResult.error (terminateProcess execAsync this pid processName s).1
       = Some (errorMessageOf e2)
    /\ TerminationResult.pid (terminateProcess execAsync this pid processName s).1 = pid
    /\ TerminationResult.processName (terminateProcess execAsync this pid processName s).1
       = processName.
Proof.
  intros e1 w1 e2 w2 Hgraceful Hforced.
  assert (Heq : (terminateProcess execAsync this pid processName s).1
                = failed pid processName e2).
  { unfold terminateProcess.
    destruct (gracefulTerminationFirst (config this)).
    - unfold exec. rewrite Hgraceful. rewrite forceKill_spec. cbn [world fst].
      now rewrite Hforced.
    - rewrite forceKill_spec. cbn [fst]. now rewrite Hforced. }
  rewrite Heq. repeat split.
Qed.

End Termination.

(** The run of the unit test: the graceful request is rejected with
    [Access denied], the forced one resolves. *)
Lemma terminateProcess_escalation_witness :
  ProcessMonitor.terminateProcess scripted monitor0 1234 "steam"
    (boot [Rejected (ErrorObject "Access denied"); Resolved ""])
  = (ProcessMonitor.succeeded 1234 "steam",
     {| ProcessMonitor.world := [];
        ProcessMonitor.issued := ["taskkill /PID 1234"; "taskkill /PID 1234 /F"] |}).
Proof.
  exact (proj1 (proj1 (terminateProcess_escalation scripted monitor0 1234 "steam"
                         (boot [Rejected (ErrorObject "Access denied"); Resolved ""]))
                      eq_refl (ErrorObject "Access denied") [Resolved ""] eq_refl)).
Defined.

(** The run of the unit test in which both requests are rejected with
    [Process not found]. *)
Lemma terminateProcess_all_rejected_witness :
  TerminationResult.success
    (ProcessMonitor.terminateProcess scripted monitor0 1234 "steam"
       (boot [Rejected (ErrorObject "Process not found");
              Rejected (ErrorObject "Process not found")])).1 = false
  /\ TerminationResult.error
       (ProcessMonitor.terminateProcess scripted monitor0 1234 "steam"
          (boot [Rejected (ErrorObject "Process not found");
                 Rejected (ErrorObject "Process not found")])).1
     = Some "Process not found".
Proof.
  refine (let H := terminateProcess_all_rejected scripted monitor0 1234 "steam"
                     (boot [Rejected (ErrorObject "Process not found");
                            Rejected (ErrorObject "Process not found")])
                     (ErrorObject "Process not found")
                     [Rejected (ErrorObject "Process not found")]
                     (ErrorObject "Process not found") [] eq_refl eq_refl in
          conj (proj1 H) (proj1 (proj2 H))).
Defined.

(** C5 as stated fails: against a process that is gone, both requests are
    rejected and the result has [success = false], not [true]. *)
Lemma terminateProcess_gone_is_failure :
  ProcessMonitor.terminateProcess scripted monitor0 1234 "steam"
    (boot [Rejected (ErrorObject "Process not found");
           Rejected (ErrorObject "Process not found")])
  = ({| TerminationResult.success := false;
        TerminationResult.pid := 1234;
        TerminationResult.processName := "steam";
        TerminationResult.error := Some "Process not found" |},
     {| ProcessMonitor.world := [];
        ProcessMonitor.issued := ["taskkill /PID 1234"; "taskkill /PID 1234 /F"] |}).
Proof. vm_compute. reflexivity. Qed.

(** ** The focus-mode store: closing a session (C8) *)

Section Store.
Import FocusModeStore.

Implicit Types (s : FocusModeStoreState) (a : Action).

Lemma truthy_Some (k : Z) : JS.truthy (Some k) = true <-> k <> 0.
Proof. cbn. rewrite negb_true_iff. apply Z.eqb_neq. Qed.

Lemma stopFocusMode_unset s now newId wasNatural tasksCompleted :
  JS.truthy (startedAt s) = false ->
  stopFocusMode now newId wasNatural tasksCompleted s = s.
Proof. intros H. unfold stopFocusMode. now rewrite H. Qed.

Lemma stopFocusMode_set s now newId wasNatural tasksCompleted started :
  startedAt s = Some started -> started <> 0 ->
  stopFocusMode now newId wasNatural tasksCompleted s
  = {| isActive := false;
       startedAt := None;
       totalFocusTime := totalFocusTime s + (now - started);
       currentSessionTime := 0;
       restrictedApps := restrictedApps s;
       sessions := sessions s ++ [sessionRecord newId started now tasksCompleted wasNatural];
       lastEmergencyUnlock := lastEmergencyUnlock s;
       emergencyUnlockCooldown := emergencyUnlockCooldown s |}.
Proof.
  intros Hs Hne. unfold stopFocusMode. rewrite Hs.
  apply truthy_Some in Hne. now rewrite Hne.
Qed.

(** C8.  When [startedAt] is set (a timestamp other than the falsy [0]),
    [stopFocusMode(wasNatural, tasksCompleted)] appends one [FocusSession]
    with [endedAt = now], [duration = endedAt - startedAt], the given
    [tasksCompleted] and [wasUnlockedNaturally = wasNatural], adds the
    duration to [totalFocusTime], and leaves [isActive = false],
    [startedAt = null], [currentSessionTime = 0], the other fields as they
    were.  When [startedAt] is unset the call changes nothing. *)
Theorem stopFocusMode_accounting s now newId wasNatural tasksCompleted :
  (forall started,
      startedAt s = Some started -> JS.truthy (startedAt s) = true ->
      let s' := stopFocusMode now newId wasNatural tasksCompleted s in
      sessions s' = sessions s ++ [sessionRecord newId started now tasksCompleted wasNatural]
      /\ FocusSession.endedAt (sessionRecord newId started now tasksCompleted wasNatural) = now
      /\ FocusSession.duration (sessionRecord newId started now tasksCompleted wasNatural)
         = now - started
      /\ totalFocusTime s' = totalFocusTime s + (now - started)
      /\ isActive s' = false
      /\ startedAt s' = None
      /\ currentSessionTime s' = 0
      /\ restrictedApps s' = restrictedApps s
      /\ lastEmergencyUnlock s' = lastEmergencyUnlock s
      /\ emergencyUnlockCooldown s' = emergencyUnlockCooldown s)
  /\ (startedAt s = None ->
      stopFocusMode now newId wasNatural tasksCompleted s = s).
Proof.
  split.
  - intros started Hs Ht. rewrite Hs in Ht. apply truthy_Some in Ht.
    cbv zeta. rewrite (stopFocusMode_set _ _ _ _ _ _ Hs Ht). cbn. repeat split.
  - intros Hs. apply stopFocusMode_unset. now rewrite Hs.
Qed.

(** A session started a minute before it is stopped. *)
Lemma stopFocusMode_accounting_witness :
  sessions (stopFocusMode 1700000060000 "s1" true 3 (activeSince 1700000000000))
  = [sessionRecord "s1" 1700000000000 1700000060000 3 true]
  /\ totalFocusTime (stopFocusMode 1700000060000 "s1" true 3 (activeSince 1700000000000))
     = 60000.
Proof.
  refine (let H := proj1 (stopFocusMode_accounting (activeSince 1700000000000)
                            1700000060000 "s1" true 3)
                         1700000000000 eq_refl eq_refl in
          conj (proj1 H) (proj1 (proj2 (proj2 (proj2 H))))).
Defined.

(** ** The focus-mode store: lifecycle invariants (C9) *)

Lemma lifecycle_initial : lifecycle initialState.
Proof. split; [intros _; split; reflexivity | discriminate]. Qed.

Lemma lifecycle_stop s now newId wasNatural tasksCompleted :
  lifecycle s -> lifecycle (stopFocusMode now newId wasNatural tasksCompleted s).
Proof.
  intros Hl. unfold stopFocusMode.
  destruct (JS.truthy (startedAt s)); cbn [negb]; [|exact Hl].
  destruct (startedAt s); [|exact Hl].
  split; cbn; [intros _; split; reflexivity | discriminate].
Qed.

Lemma lifecycle_step s a : lifecycle s -> lifecycle (step s a).
Proof.
  intros Hl. destruct a; cbn [step].
  - split; cbn; [discriminate | intros _; discriminate].
  - now apply lifecycle_stop.
  - unfold updateSessionTime.
    destruct (isActive s) eqn:Ha; cbn [negb orb]; [|exact Hl].
    destruct (JS.truthy (startedAt s)); cbn [negb]; [|exact Hl].
    destruct (startedAt s) eqn:Hs; [|exact Hl].
    split; cbn; [congruence | intros _; congruence].
  - exact Hl.
  - exact Hl.
  - exact Hl.
  - exact Hl.
  - unfold emergencyUnlock.
    destruct (canEmergencyUnlock nowCheck s); cbn [negb snd]; [|exact Hl].
    apply (lifecycle_stop s nowStop newId false 0) in Hl.
    exact Hl.
  - split; cbn; [intros _; split; reflexivity | discriminate].
Qed.

Lemma lifecycle_run actions : forall s, lifecycle s -> lifecycle (run s actions).
Proof.
  induction actions as [|a actions IH]; intros s Hl; [exact Hl|].
  cbn. apply IH. now apply lifecycle_step.
Qed.

Ltac nothing_added :=
  exists []; rewrite app_nil_r; split; [reflexivity | cbn; lia].

Lemma sessions_stop s now newId wasNatural tasksCompleted :
  exists added,
    sessions (stopFocusMode now newId wasNatural tasksCompleted s) = sessions s ++ added
    /\ (List.length added <= 1)%nat.
Proof.
  unfold stopFocusMode.
  destruct (JS.truthy (startedAt s)); cbn [negb]; [| nothing_added].
  destruct (startedAt s) as [started|]; [| nothing_added].
  eexists [_]. split; [reflexivity | cbn; lia].
Qed.

(** An action leaves the recorded sessions in place and appends at most one. *)
Lemma sessions_step s a :
  exists added, sessions (step s a) = sessions s ++ added
                /\ (List.length added <= 1)%nat.
Proof.
  destruct a; cbn [step]; try nothing_added.
  - apply sessions_stop.
  - unfold updateSessionTime.
    destruct (negb (isActive s) || negb (JS.truthy (startedAt s))); [nothing_added|].
    destruct (startedAt s); nothing_added.
  - unfold emergencyUnlock.
    destruct (canEmergencyUnlock nowCheck s); cbn [negb snd]; [| nothing_added].
    apply sessions_stop.
Qed.

Lemma sessions_run actions : forall s,
  exists added, sessions (run s actions) = sessions s ++ added.
Proof.
  induction actions as [|a actions IH]; intros s; [exists []; now rewrite app_nil_r|].
  cbn. destruct (IH (step s a)) as [later Hlater].
  destruct (sessions_step s a) as (added & Hadded & _).
  exists (added ++ later). unfold run in Hlater. rewrite Hlater, Hadded.
  now rewrite app_assoc.
Qed.

(** C9.  After any sequence of store actions from the initial state:
    [isActive = false] gives [startedAt = null] and [currentSessionTime = 0];
    [isActive = true] gives [startedAt] other than [null]; and any further
    action, or sequence of actions, keeps every recorded [FocusSession]
    where it is and as it is, adding new records at the end only (one
    action adds at most one). *)
Theorem store_lifecycle_invariants actions :
  (isActive (run initialState actions) = false ->
   startedAt (run initialState actions) = None
   /\ currentSessionTime (run initialState actions) = 0)
  /\ (isActive (run initialState actions) = true ->
      startedAt (run initialState actions) <> None)
  /\ (forall a, exists added,
        sessions (step (run initialState actions) a)
        = sessions (run initialState actions) ++ added
        /\ (List.length added <= 1)%nat)
  /\ (forall more, exists added,
        sessions (run (run initialState actions) more)
        = sessions (run initialState actions) ++ added).
Proof.
  pose proof (lifecycle_run actions initialState lifecycle_initial) as [Hoff Hon].
  split; [exact Hoff|]. split; [exact Hon|]. split.
  - intros a. apply sessions_step.
  - intros more. apply sessions_run.
Qed.

(** After a session is started and stopped the store is inactive, with
    [startedAt] and [currentSessionTime] cleared. *)
Lemma store_lifecycle_invariants_witness :
  startedAt (run initialState
               [StartFocusMode 1700000000000;
                StopFocusMode 1700000060000 "s1" true 2]) = None
  /\ currentSessionTime (run initialState
                           [StartFocusMode 1700000000000;
                            StopFocusMode 1700000060000 "s1" true 2]) = 0.
Proof.
  exact (proj1 (store_lifecycle_invariants
                  [StartFocusMode 1700000000000;
                   StopFocusMode 1700000060000 "s1" true 2]) eq_refl).
Defined.

(** ** The focus-mode store: the emergency unlock and its cooldown (C7) *)

Lemma timestamped_stop s now newId wasNatural tasksCompleted :
  timestamped s -> timestamped (stopFocusMode now newId wasNatural tasksCompleted s).
Proof.
  intros Ht. unfold stopFocusMode.
  destruct (JS.truthy (startedAt s)); cbn [negb]; [|exact Ht].
  destruct (startedAt s); [|exact Ht].
  destruct Ht as (Hc & Hs & Hl). split; [exact Hc|]. split; [discriminate | exact Hl].
Qed.

Lemma timestamped_step s a :
  clockPositive a -> timestamped s -> timestamped (step s a).
Proof.
  intros Hclock Ht. destruct a; cbn [step]; try exact Ht.
  - destruct Ht as (Hc & Hs & Hl). apply Forall_inv in Hclock.
    split; [exact Hc|]. split; [intros started [= <-]; exact Hclock | exact Hl].
  - now apply timestamped_stop.
  - unfold updateSessionTime.
    destruct (negb (isActive s) || negb (JS.truthy (startedAt s))); [exact Ht|].
    destruct (startedAt s) eqn:Hs; [rewrite <- Hs|]; exact Ht.
  - unfold emergencyUnlock.
    destruct (canEmergencyUnlock nowCheck s); cbn [negb snd]; [|exact Ht].
    apply (timestamped_stop s nowStop newId false 0) in Ht.
    destruct Ht as (Hc & Hs & Hl).
    unfold clockPositive in Hclock. cbn in Hclock.
    apply Forall_inv_tail, Forall_inv_tail, Forall_inv in Hclock.
    split; [exact Hc|]. split; [exact Hs | intros last [= <-]; exact Hclock].
  - destruct Ht as (Hc & Hs & Hl).
    split; [exact Hc|]. split; discriminate.
Qed.

Lemma timestamped_run actions : forall s,
  Forall clockPositive actions -> timestamped s -> timestamped (run s actions).
Proof.
  induction actions as [|a actions IH]; intros s Hclock Ht; [exact Ht|].
  cbn. apply IH; [now apply Forall_inv_tail in Hclock|].
  apply timestamped_step; [now apply Forall_inv in Hclock | exact Ht].
Qed.

Lemma reachable_invariants s : reachable s -> lifecycle s /\ timestamped s.
Proof.
  intros (actions & Hclock & ->). split.
  - apply lifecycle_run, lifecycle_initial.
  - apply timestamped_run; [exact Hclock|].
    split; [reflexivity|]. split; discriminate.
Qed.

(** Actions other than the emergency unlock and the reset leave the
    cooldown and its timestamp alone. *)
Lemma keepsCooldown_step s a :
  keepsCooldown a ->
  lastEmergencyUnlock (step s a) = lastEmergencyUnlock s
  /\ emergencyUnlockCooldown (step s a) = emergencyUnlockCooldown s.
Proof.
  intros Hk. destruct a; cbn [step]; try (split; reflexivity); try contradiction.
  - unfold stopFocusMode.
    destruct (JS.truthy (startedAt s)); cbn [negb]; [|split; reflexivity].
    destruct (startedAt s); split; reflexivity.
  - unfold updateSessionTime.
    destruct (negb (isActive s) || negb (JS.truthy (startedAt s))); [split; reflexivity|].
    destruct (startedAt s); split; reflexivity.
Qed.

Lemma keepsCooldown_run actions : forall s,
  Forall keepsCooldown actions ->
  lastEmergencyUnlock (run s actions) = lastEmergencyUnlock s
  /\ emergencyUnlockCooldown (run s actions) = emergencyUnlockCooldown s.
Proof.
  induction actions as [|a actions IH]; intros s Hk; [split; reflexivity|].
  cbn. destruct (IH (step s a)) as [Hl Hc]; [now apply Forall_inv_tail in Hk|].
  destruct (keepsCooldown_step s a) as [Hl' Hc']; [now apply Forall_inv in Hk|].
  unfold run in *. split; congruence.
Qed.

Lemma canEmergencyUnlock_false s now :
  timestamped s ->
  canEmergencyUnlock now s = false <->
  isActive s = false
  \/ exists last, lastEmergencyUnlock s = Some last
                  /\ now - last < emergencyUnlockCooldown s.
Proof.
  intros (_ & _ & Hl). unfold canEmergencyUnlock.
  destruct (isActive s); cbn [negb].
  - destruct (lastEmergencyUnlock s) as [last|] eqn:Hlast.
    + specialize (Hl last eq_refl).
      assert (Ht : JS.truthy (Some last) = true) by (apply truthy_Some; lia).
      rewrite Ht. cbn [negb]. rewrite Z.leb_gt. split.
      * intros H. right. exists last. split; [reflexivity | exact H].
      * intros [H | (l & [= <-] & H)]; [discriminate | exact H].
    + cbn. split; [discriminate|].
      intros [H | (l & H & _)]; discriminate.
  - split; [intros _; now left | reflexivity].
Qed.

(** C7, as amended.  In a state [s] reached from the initial one (the clock giving
    positive readings): the cooldown is 1 800 000 ms;
    [canEmergencyUnlock()] is false exactly when the session is inactive or
    a previous emergency unlock is less than the cooldown old; in that case
    [emergencyUnlock()] returns false and the state is unchanged; otherwise
    it returns true after [stopFocusMode(false, 0)], which here closes the
    running session with a record whose [tasksCompleted] is 0 and
    [wasUnlockedNaturally] is false, and it stores
    [lastEmergencyUnlock = now].  A later [emergencyUnlock()] made less than
    30 minutes after the stored time returns false, whatever was done in
    between short of another emergency unlock or [resetFocusMode]. *)
Theorem emergencyUnlock_cooldown s nowCheck nowStop newId nowMark :
  reachable s -> 0 < nowMark ->
  emergencyUnlockCooldown s = 1800000
  /\ (canEmergencyUnlock nowCheck s = false <->
      isActive s = false
      \/ exists last, lastEmergencyUnlock s = Some last
                      /\ nowCheck - last < emergencyUnlockCooldown s)
  /\ (canEmergencyUnlock nowCheck s = false ->
      emergencyUnlock nowCheck nowStop newId nowMark s = (false, s))
  /\ (canEmergencyUnlock nowCheck s = true ->
      exists started,
        startedAt s = Some started
        /\ emergencyUnlock nowCheck nowStop newId nowMark s
           = (true, setLastEmergencyUnlock nowMark (stopFocusMode nowStop newId false 0 s))
        /\ (emergencyUnlock nowCheck nowStop newId nowMark s).2
           = {| isActive := false;
                startedAt := None;
                totalFocusTime := totalFocusTime s + (nowStop - started);
                currentSessionTime := 0;
                restrictedApps := restrictedApps s;
                sessions := sessions s ++ [sessionRecord newId started nowStop 0 false];
                lastEmergencyUnlock := Some nowMark;
                emergencyUnlockCooldown := emergencyUnlockCooldown s |}
        /\ forall between,
             Forall keepsCooldown between ->
             forall nowCheck' nowStop' newId' nowMark',
               nowCheck' - nowMark < 1800000 ->
               (emergencyUnlock nowCheck' nowStop' newId' nowMark'
                  (run (emergencyUnlock nowCheck nowStop newId nowMark s).2 between)).1
               = false).
Proof.
  intros Hreach Hmark.
  destruct (reachable_invariants s Hreach) as [[Hoff Hon] Ht].
  pose proof Ht as (Hcool & Hstarted & Hlast).
  split; [exact Hcool|]. split; [now apply canEmergencyUnlock_false|]. split.
  - intros Hno. unfold emergencyUnlock. now rewrite Hno.
  - intros Hyes.
    assert (Hactive : isActive s = true).
    { unfold canEmergencyUnlock in Hyes. destruct (isActive s); [reflexivity | discriminate]. }
    destruct (startedAt s) as [started|] eqn:Hs; [|now destruct (Hon Hactive)].
    exists started. split; [reflexivity|].
    assert (Hne : started <> 0) by (specialize (Hstarted started eq_refl); lia).
    assert (Heq : emergencyUnlock nowCheck nowStop newId nowMark s
                  = (true, setLastEmergencyUnlock nowMark
                             (stopFocusMode nowStop newId false 0 s))).
    { unfold emergencyUnlock. now rewrite Hyes. }
    split; [exact Heq|]. rewrite Heq. cbn [snd].
    rewrite (stopFocusMode_set s nowStop newId false 0 started Hs Hne).
    split; [reflexivity|].
    intros between Hquiet nowCheck' nowStop' newId' nowMark' Hsoon.
    match goal with |- (emergencyUnlock _ _ _ _ (run ?s1 _)).1 = _ => set (s1' := s1) end.
    destruct (keepsCooldown_run between s1' Hquiet) as [Hl' Hc'].
    cbn in Hl', Hc'.
    unfold emergencyUnlock.
    replace (canEmergencyUnlock nowCheck' (run s1' between)) with false; [reflexivity|].
    symmetry. unfold canEmergencyUnlock. rewrite Hl', Hc', Hcool.
    destruct (isActive (run s1' between)); [|reflexivity].
    cbn [negb]. assert (Htr : JS.truthy (Some nowMark) = true) by (apply truthy_Some; lia).
    rewrite Htr. cbn [negb]. apply Z.leb_gt. exact Hsoon.
Qed.

End Store.

(** Ten minutes after an emergency unlock, with a new session started in
    between, the emergency unlock is refused. *)
Lemma emergencyUnlock_cooldown_witness :
  (FocusModeStore.emergencyUnlock 1700000700000 1700000700001 "s2" 1700000700002
     (FocusModeStore.run
        (FocusModeStore.emergencyUnlock 1700000100000 1700000100001 "s1" 1700000100002
           (activeSince 1700000000000)).2
        [FocusModeStore.StartFocusMode 1700000400000])).1
  = false.
Proof.
  assert (Hreach : reachable (activeSince 1700000000000)).
  { exists [FocusModeStore.StartFocusMode 1700000000000].
    split; [repeat constructor | reflexivity]. }
  destruct (emergencyUnlock_cooldown (activeSince 1700000000000)
              1700000100000 1700000100001 "s1" 1700000100002 Hreach eq_refl)
    as (_ & _ & _ & Hyes).
  destruct (Hyes eq_refl) as (started & _ & _ & _ & Hsecond).
  apply Hsecond; [repeat constructor | reflexivity].
Defined.

(** C7 as stated fails: the first emergency unlock succeeds, the store is
    reset and a session started again, and the second emergency unlock,
    70 s after the first and so well within the 30 minutes, returns true:
    [resetFocusMode] has cleared [lastEmergencyUnlock]. *)
Lemma emergencyUnlock_again_after_reset :
  (FocusModeStore.emergencyUnlock 1700000100000 1700000100000 "s1" 1700000100000
     (activeSince 1700000000000)).1 = true
  /\ reachable unlockedThenReset
  /\ FocusModeStore.emergencyUnlockCooldown unlockedThenReset = 1800000
  /\ 1700000170000 - 1700000100000 < 1800000
  /\ (FocusModeStore.emergencyUnlock 1700000170000 1700000170000 "s2" 1700000170000
        unlockedThenReset).1 = true.
Proof.
  split; [reflexivity|]. split.
  - eexists. split; [|reflexivity]. repeat constructor.
  - repeat split.
Qed.

(* ===================================================================== *)
(** * The binary64 model: rounding keeps representable bounds *)
(* ===================================================================== *)

Section Binary64.

Lemma roundedMantissa_bounds (num den I : Z) :
  0 < den ->
  (num <= I * den -> roundedMantissa num den <= I)
  /\ (I * den <= num -> I <= roundedMantissa num den).
Proof.
  intros Hden. unfold roundedMantissa.
  pose proof (Z.div_mod num den ltac:(lia)) as Hdm.
  pose proof (Z.mod_pos_bound num den Hden) as Hr.
  set (q := num / den) in *. set (r := num mod den) in *.
  split; intros H.
  - assert (Hq : q <= I).
    { unfold q. apply Z.div_le_upper_bound; lia. }
    destruct (2 * r <? den) eqn:H1; [lia|].
    apply Z.ltb_ge in H1.
    assert (Hlt : den * q < den * I) by lia.
    apply Z.mul_lt_mono_pos_l in Hlt; [|exact Hden].
    destruct (den <? 2 * r); [lia|]. destruct (Z.even q); lia.
  - assert (Hq : I <= q).
    { unfold q. apply Z.div_le_lower_bound; lia. }
    destruct (2 * r <? den); [lia|].
    destruct (den <? 2 * r); [lia|]. destruct (Z.even q); lia.
Qed.

(** What [JS.nearest] computes for a quotient below [2^52]: the exponent is
    negative and the scaled numerator is divided by [d] or by [2 d]. *)
Lemma nearest_shape (n d j : Z) :
  0 < n -> 0 < d -> 0 <= j <= 52 -> n < 2 ^ (52 - j) * d ->
  exists e num den,
    e <= - j /\ 0 < den
    /\ num * d = n * 2 ^ (- e) * den
    /\ JS.nearest n d = normalised (roundedMantissa num den) e.
Proof.
  intros Hn Hd Hj Hlt.
  assert (He0 : Z.log2 n - Z.log2 d - 53 <= - 1 - j).
  { assert (Z.log2 n <= Z.log2 (d * 2 ^ (52 - j))).
    { apply Z.log2_le_mono. lia. }
    rewrite Z.log2_mul_pow2 in H by lia. lia. }
  unfold JS.nearest.
  replace ((n <=? 0) || (d <=? 0)) with false
    by (symmetry; apply orb_false_iff; split; apply Z.leb_gt; lia).
  set (e0 := Z.log2 n - Z.log2 d - 53) in *.
  rewrite (Z.max_r 0 (- e0)) by lia. rewrite (Z.max_l 0 e0) by lia.
  rewrite Z.pow_0_r, Z.mul_1_r.
  destruct (2 ^ 53 <=? n * 2 ^ (- e0) / d) eqn:Hbig.
  - exists (e0 + 1), (n * 2 ^ (- e0)), (2 * d).
    split; [lia|]. split; [lia|]. split; [|reflexivity].
    replace (- e0) with (- (e0 + 1) + 1) by lia.
    rewrite Z.pow_add_r by lia. lia.
  - exists e0, (n * 2 ^ (- e0)), d.
    split; [lia|]. split; [lia|]. split; [lia | reflexivity].
Qed.

Lemma normalised_fraction (m e : Z) :
  e < 0 ->
  JS.denominator (normalised m e) = (if m =? 2 ^ 53 then 2 ^ (- e - 1) else 2 ^ (- e))
  /\ JS.numerator (normalised m e) = (if m =? 2 ^ 53 then 2 ^ 52 else m).
Proof.
  intros He. unfold normalised. destruct (m =? 2 ^ 53); cbn [JS.denominator JS.numerator].
  - rewrite (Z.max_r 0 (- (e + 1))) by lia. rewrite (Z.max_l 0 (e + 1)) by lia.
    rewrite Z.pow_0_r. split; [f_equal; lia | lia].
  - rewrite (Z.max_r 0 (- e)) by lia. rewrite (Z.max_l 0 e) by lia.
    rewrite Z.pow_0_r. split; [reflexivity | lia].
Qed.

Lemma denominator_pos (x : JS.number) : 0 < JS.denominator x.
Proof. destruct x; cbn; [lia | apply Z.pow_pos_nonneg; lia]. Qed.

(** Rounding does not cross a representable bound: when [n / d] lies
    between [a / 2^j] and [b / 2^j], so does the nearest binary64. *)
Lemma nearest_sandwich (n d j a b : Z) :
  0 < n -> 0 < d -> 0 <= j <= 52 -> n < 2 ^ (52 - j) * d ->
  a * d <= n * 2 ^ j <= b * d ->
  a * JS.denominator (JS.nearest n d)
  <= JS.numerator (JS.nearest n d) * 2 ^ j
  <= b * JS.denominator (JS.nearest n d).
Proof.
  intros Hn Hd Hj Hlt [Ha Hb].
  destruct (nearest_shape n d j Hn Hd Hj Hlt) as (e & num & den & He & Hden & Hnum & ->).
  assert (Hneg : e < 0 \/ e = 0) by lia.
  assert (Hpj : 0 < 2 ^ j) by (apply Z.pow_pos_nonneg; lia).
  assert (Hsplit : 2 ^ (- e) = 2 ^ (- e - j) * 2 ^ j).
  { rewrite <- Z.pow_add_r by lia. f_equal. lia. }
  assert (Hpk : 0 < 2 ^ (- e - j)) by (apply Z.pow_pos_nonneg; lia).
  destruct (roundedMantissa_bounds num den (a * 2 ^ (- e - j)) Hden) as [_ Hlow].
  destruct (roundedMantissa_bounds num den (b * 2 ^ (- e - j)) Hden) as [Hup _].
  assert (Hnum_low : a * 2 ^ (- e - j) * den <= num).
  { apply (Z.mul_le_mono_pos_r _ _ d Hd). rewrite Hnum, Hsplit. nia. }
  assert (Hnum_up : num <= b * 2 ^ (- e - j) * den).
  { apply (Z.mul_le_mono_pos_r _ _ d Hd). rewrite Hnum, Hsplit. nia. }
  specialize (Hlow Hnum_low). specialize (Hup Hnum_up).
  set (m := roundedMantissa num den) in *.
  destruct Hneg as [Hneg | ->].
  - destruct (normalised_fraction m e Hneg) as [-> ->].
    destruct (m =? 2 ^ 53) eqn:Hm.
    + apply Z.eqb_eq in Hm.
      assert (H2 : 2 ^ (- e) = 2 * 2 ^ (- e - 1)).
      { rewrite <- Z.pow_succ_r by lia. f_equal. lia. }
      assert (H53 : 2 ^ 53 = 2 * 2 ^ 52) by reflexivity.
      rewrite Hsplit in H2. nia.
    + rewrite Hsplit. nia.
  - assert (j = 0) by lia. subst j.
    change (2 ^ (- 0 - 0)) with 1 in Hlow, Hup.
    unfold normalised. destruct (m =? 2 ^ 53) eqn:Hm; cbn [JS.numerator JS.denominator].
    + apply Z.eqb_eq in Hm.
      change (Z.max 0 (- (0 + 1))) with 0. change (Z.max 0 (0 + 1)) with 1.
      change (2 ^ 0) with 1. change (2 ^ 1) with 2.
      change (2 ^ 53) with (2 ^ 52 * 2) in Hm. lia.
    + change (Z.max 0 (- 0)) with 0. change (Z.max 0 0) with 0.
      change (2 ^ 0) with 1. lia.
Qed.


(** An integer below [2^52] is a binary64 number as it is. *)
Lemma of_Z_exact (k : Z) :
  0 <= k < 2 ^ 52 ->
  JS.numerator (JS.of_Z k) = k * JS.denominator (JS.of_Z k).
Proof.
  intros [Hk Hlt]. unfold JS.of_Z.
  destruct (Z.eq_dec k 0) as [-> | Hne]; [reflexivity|].
  pose proof (nearest_sandwich k 1 0 k k) as H.
  change (2 ^ (52 - 0)) with (2 ^ 52) in H. change (2 ^ 0) with 1 in H.
  specialize (H ltac:(lia) ltac:(lia) ltac:(lia) ltac:(lia) ltac:(lia)). lia.
Qed.

(** [a / b] on integers: the quotient stays within dyadic bounds. *)
Lemma div_of_Z_sandwich (a b j lo hi : Z) :
  0 < a < 2 ^ 52 -> 0 < b < 2 ^ 52 -> 0 <= j <= 52 ->
  a < 2 ^ (52 - j) * b ->
  lo * b <= a * 2 ^ j <= hi * b ->
  lo * JS.denominator (JS.div (JS.of_Z a) (JS.of_Z b))
  <= JS.numerator (JS.div (JS.of_Z a) (JS.of_Z b)) * 2 ^ j
  <= hi * JS.denominator (JS.div (JS.of_Z a) (JS.of_Z b)).
Proof.
  intros Ha Hb Hj Hlt Hbound. unfold JS.div.
  rewrite (of_Z_exact a) by lia. rewrite (of_Z_exact b) by lia.
  pose proof (denominator_pos (JS.of_Z a)) as Hda.
  pose proof (denominator_pos (JS.of_Z b)) as Hdb.
  set (da := JS.denominator (JS.of_Z a)) in *.
  set (db := JS.denominator (JS.of_Z b)) in *.
  assert (Hp : 0 < 2 ^ (52 - j)) by (apply Z.pow_pos_nonneg; lia).
  assert (Hdd : 0 < da * db) by lia.
  apply nearest_sandwich; [nia | nia | exact Hj | | ].
  - replace (a * da * db) with (a * (da * db)) by ring.
    replace (2 ^ (52 - j) * (da * (b * db))) with (2 ^ (52 - j) * b * (da * db)) by ring.
    apply Z.mul_lt_mono_pos_r; assumption.
  - replace (lo * (da * (b * db))) with (lo * b * (da * db)) by ring.
    replace (hi * (da * (b * db))) with (hi * b * (da * db)) by ring.
    replace (a * da * db * 2 ^ j) with (a * 2 ^ j * (da * db)) by ring.
    split; apply Z.mul_le_mono_nonneg_r; lia.
Qed.

(** [x * K] for an integer [K]: the product stays within dyadic bounds. *)
Lemma mul_of_Z_sandwich (x : JS.number) (K j lo hi : Z) :
  0 < JS.numerator x -> 0 < K < 2 ^ 52 -> 0 <= j <= 52 ->
  JS.numerator x * K < 2 ^ (52 - j) * JS.denominator x ->
  lo * JS.denominator x <= JS.numerator x * K * 2 ^ j <= hi * JS.denominator x ->
  lo * JS.denominator (JS.mul x (JS.of_Z K))
  <= JS.numerator (JS.mul x (JS.of_Z K)) * 2 ^ j
  <= hi * JS.denominator (JS.mul x (JS.of_Z K)).
Proof.
  intros Hx HK Hj Hlt Hbound. unfold JS.mul.
  rewrite (of_Z_exact K) by lia.
  pose proof (denominator_pos x) as Hdx.
  pose proof (denominator_pos (JS.of_Z K)) as HdK.
  set (nx := JS.numerator x) in *. set (dx := JS.denominator x) in *.
  set (dK := JS.denominator (JS.of_Z K)) in *.
  assert (Hp : 0 < 2 ^ (52 - j)) by (apply Z.pow_pos_nonneg; lia).
  apply nearest_sandwich; [nia | nia | exact Hj | | ].
  - replace (nx * (K * dK)) with (nx * K * dK) by ring.
    replace (2 ^ (52 - j) * (dx * dK)) with (2 ^ (52 - j) * dx * dK) by ring.
    apply Z.mul_lt_mono_pos_r; assumption.
  - replace (lo * (dx * dK)) with (lo * dx * dK) by ring.
    replace (hi * (dx * dK)) with (hi * dx * dK) by ring.
    replace (nx * (K * dK) * 2 ^ j) with (nx * K * 2 ^ j * dK) by ring.
    split; apply Z.mul_le_mono_nonneg_r; lia.
Qed.

Lemma div_zero_l (y : JS.number) : JS.div JS.Zero y = JS.Zero.
Proof. reflexivity. Qed.

Lemma mul_numerator_zero (x y : JS.number) :
  JS.numerator x = 0 -> JS.mul x y = JS.Zero.
Proof. intros H. unfold JS.mul. rewrite H. reflexivity. Qed.

Lemma round_lower (y : JS.number) (th lo : Z) :
  lo * JS.denominator y <= JS.numerator y * 1024 ->
  2048 * th <= 2 * lo + 1024 ->
  th <= JS.round y.
Proof.
  intros Hlo Hth. unfold JS.round.
  pose proof (denominator_pos y) as Hd.
  apply Z.div_le_lower_bound; [lia|]. nia.
Qed.

Lemma round_upper (y : JS.number) (th hi : Z) :
  JS.numerator y * 1024 <= hi * JS.denominator y ->
  2 * hi + 1024 < 2048 * (th + 1) ->
  JS.round y <= th.
Proof.
  intros Hhi Hth. unfold JS.round.
  pose proof (denominator_pos y) as Hd.
  apply Z.lt_succ_r. apply Z.div_lt_upper_bound; [lia|]. nia.
Qed.

(** The percentage of [c] out of [t], as [completionPercentage] computes
    it, does not fall on the wrong side of an integer: it is at least every
    integer that [100 c / t] reaches and at most every integer that
    [100 c / t] does not exceed. *)
Lemma percentage_brackets (c t : nat) (th : Z) :
  (0 < t)%nat -> (c <= t)%nat -> Z.of_nat t < 2 ^ 52 ->
  (th * Z.of_nat t <= 100 * Z.of_nat c -> th <= UnlockService.percentage c t)
  /\ (100 * Z.of_nat c <= th * Z.of_nat t -> UnlockService.percentage c t <= th).
Proof.
  intros Ht Hct Hsize. unfold UnlockService.percentage.
  destruct c as [|c'].
  { change (JS.of_Z (Z.of_nat 0)) with JS.Zero. rewrite div_zero_l.
    rewrite mul_numerator_zero by reflexivity.
    change (JS.round JS.Zero) with 0. split; intros H; nia. }
  set (c := S c') in *.
  set (zc := Z.of_nat c) in *. set (zt := Z.of_nat t) in *.
  assert (Hzc : 0 < zc) by (unfold zc, c; lia).
  assert (Hzt : zc <= zt) by (unfold zc, zt; lia).
  set (x := JS.div (JS.of_Z zc) (JS.of_Z zt)).
  assert (Hs : forall lo hi, lo * zt <= zc * 2 ^ 10 <= hi * zt ->
             lo * JS.denominator x <= JS.numerator x * 2 ^ 10 <= hi * JS.denominator x).
  { intros lo hi Hb. apply div_of_Z_sandwich; lia. }
  change (2 ^ 10) with 1024 in Hs.
  pose proof (denominator_pos x) as Hdx.
  destruct (Hs 0 1024 ltac:(lia)) as [Hx0 Hx1].
  assert (Hm : 0 < JS.numerator x ->
             forall lo hi, lo * JS.denominator x <= JS.numerator x * 100 * 1024
                           <= hi * JS.denominator x ->
             lo * JS.denominator (JS.mul x (JS.of_Z 100))
             <= JS.numerator (JS.mul x (JS.of_Z 100)) * 1024
             <= hi * JS.denominator (JS.mul x (JS.of_Z 100))).
  { intros Hpos lo hi Hb.
    apply (mul_of_Z_sandwich x 100 10 lo hi Hpos); lia. }
  split; intros Hth.
  - pose proof (Z.div_mod (th * 1024) 100 ltac:(lia)) as Hdm.
    pose proof (Z.mod_pos_bound (th * 1024) 100 ltac:(lia)) as Hr.
    set (a := th * 1024 / 100) in *.
    destruct (Hs a 1024 ltac:(split; [nia | lia])) as [Ha _].
    destruct (Z.eq_dec (JS.numerator x) 0) as [Hz | Hnz].
    + rewrite mul_numerator_zero by exact Hz. change (JS.round JS.Zero) with 0.
      rewrite Hz in Ha. nia.
    + destruct (Hm ltac:(lia) (100 * a) (100 * 1024) ltac:(split; nia)) as [Hy _].
      apply (round_lower _ th (100 * a)); [exact Hy | lia].
  - pose proof (Z.div_mod (th * 1024 + 99) 100 ltac:(lia)) as Hdm.
    pose proof (Z.mod_pos_bound (th * 1024 + 99) 100 ltac:(lia)) as Hr.
    set (a := (th * 1024 + 99) / 100) in *.
    assert (Hth0 : 0 < th) by nia.
    destruct (Hs 0 a ltac:(split; [lia | nia])) as [_ Ha].
    destruct (Z.eq_dec (JS.numerator x) 0) as [Hz | Hnz].
    + rewrite mul_numerator_zero by exact Hz. change (JS.round JS.Zero) with 0. lia.
    + destruct (Hm ltac:(lia) 0 (100 * a) ltac:(split; nia)) as [_ Hy].
      apply (round_upper _ th (100 * a)); [exact Hy | lia].
Qed.

(** A quotient of integers that is an integer is computed exactly. *)
Lemma round_div_multiple (k d : Z) :
  0 <= k -> 0 < d -> k * d < 2 ^ 52 ->
  JS.round (JS.div (JS.of_Z (k * d)) (JS.of_Z d)) = k.
Proof.
  intros Hk Hd Hlt.
  destruct (Z.eq_dec k 0) as [-> | Hne]; [reflexivity|].
  assert (Hkd : 0 < k * d) by nia.
  assert (Hd52 : d < 2 ^ 52) by nia.
  assert (Hk52 : k < 2 ^ 52) by nia.
  pose proof (div_of_Z_sandwich (k * d) d 0 k k) as H.
  change (2 ^ (52 - 0)) with (2 ^ 52) in H. change (2 ^ 0) with 1 in H.
  specialize (H ltac:(lia) ltac:(lia) ltac:(lia) ltac:(nia) ltac:(lia)).
  unfold JS.round.
  set (x := JS.div (JS.of_Z (k * d)) (JS.of_Z d)) in *.
  pose proof (denominator_pos x) as Hden.
  assert (Hn : JS.numerator x = k * JS.denominator x) by lia.
  rewrite Hn. symmetry. apply (Z.div_unique _ _ k (JS.denominator x)); lia.
Qed.

(** [Math.floor(a / b)] on integers is the integer quotient. *)
Lemma floor_div_of_Z (a b j : Z) :
  0 <= a < 2 ^ 52 -> 0 < b < 2 ^ 52 -> 0 <= j <= 52 -> b <= 2 ^ j ->
  a < 2 ^ (52 - j) * b ->
  JS.floor (JS.div (JS.of_Z a) (JS.of_Z b)) = a / b.
Proof.
  intros Ha Hb Hj Hbj Hlt.
  destruct (Z.eq_dec a 0) as [-> | Hne]; [reflexivity|].
  pose proof (Z.div_mod a b ltac:(lia)) as Hdm.
  pose proof (Z.mod_pos_bound a b ltac:(lia)) as Hr.
  set (k := a / b) in *.
  assert (Hpj : 0 < 2 ^ j) by (apply Z.pow_pos_nonneg; lia).
  pose proof (div_of_Z_sandwich a b j (k * 2 ^ j) ((k + 1) * 2 ^ j - 1)) as H.
  specialize (H ltac:(lia) ltac:(lia) Hj Hlt ltac:(split; nia)).
  unfold JS.floor.
  set (x := JS.div (JS.of_Z a) (JS.of_Z b)) in *.
  pose proof (denominator_pos x) as Hden.
  destruct H as [Hlo Hhi].
  assert (H1 : k * JS.denominator x <= JS.numerator x) by nia.
  assert (H2 : JS.numerator x < (k + 1) * JS.denominator x) by nia.
  symmetry. apply (Z.div_unique _ _ k (JS.numerator x - k * JS.denominator x)); lia.
Qed.

Lemma ceil_div_of_Z (a b j : Z) :
  0 < a < 2 ^ 52 -> 0 < b < 2 ^ 52 -> 0 <= j <= 52 -> b <= 2 ^ j ->
  a < 2 ^ (52 - j) * b ->
  JS.ceil (JS.div (JS.of_Z a) (JS.of_Z b)) = - ((- a) / b).
Proof.
  intros Ha Hb Hj Hbj Hlt.
  pose proof (Z.div_mod (- a) b ltac:(lia)) as Hdm.
  pose proof (Z.mod_pos_bound (- a) b ltac:(lia)) as Hr.
  set (k := (- a) / b) in *.
  assert (Hpj : 0 < 2 ^ j) by (apply Z.pow_pos_nonneg; lia).
  pose proof (div_of_Z_sandwich a b j ((- k - 1) * 2 ^ j + 1) (- k * 2 ^ j)) as H.
  specialize (H ltac:(lia) ltac:(lia) Hj Hlt ltac:(split; nia)).
  unfold JS.ceil.
  set (x := JS.div (JS.of_Z a) (JS.of_Z b)) in *.
  pose proof (denominator_pos x) as Hden.
  destruct H as [Hlo Hhi].
  assert (H1 : JS.numerator x <= - k * JS.denominator x) by nia.
  assert (H2 : (- k - 1) * JS.denominator x < JS.numerator x) by nia.
  f_equal. symmetry.
  apply (Z.div_unique _ _ k (- JS.numerator x - k * JS.denominator x)); lia.
Qed.

(** [Math.floor(a / b)] of whole numbers is the quotient rounded down,
    for either sign of [a]. *)
Lemma floorDiv_exact (a b j : Z) :
  Z.abs a < 2 ^ 52 -> 0 < b < 2 ^ 52 -> 0 <= j <= 52 -> b <= 2 ^ j ->
  Z.abs a < 2 ^ (52 - j) * b ->
  JS.floorDiv a b = a / b.
Proof.
  intros Ha Hb Hj Hbj Hlt. unfold JS.floorDiv.
  destruct (0 <=? a) eqn:Hsign.
  - apply Z.leb_le in Hsign. apply (floor_div_of_Z a b j); lia.
  - apply Z.leb_gt in Hsign.
    rewrite (ceil_div_of_Z (- a) b j) by lia.
    rewrite !Z.opp_involutive. reflexivity.
Qed.

End Binary64.

(* ===================================================================== *)
(** * Further properties *)
(* ===================================================================== *)

(** ** UnlockService: the evaluation of a task list *)

Section UnlockEvaluation.
Import UnlockService.

Implicit Types (this : UnlockService.t) (tasks : list Task.t).

Lemma filter_negb_length {A} (f : A -> bool) (l : list A) :
  (List.length (List.filter f l) + List.length (List.filter (fun a => negb (f a)) l)
   = List.length l)%nat.
Proof.
  induction l as [|a l IH]; [reflexivity|].
  cbn [List.filter]. destruct (f a); cbn [negb List.length]; lia.
Qed.

Lemma forallb_filter_length {A} (f : A -> bool) (l : list A) :
  forallb f l = (List.length (List.filter f l) =? List.length l)%nat.
Proof.
  induction l as [|a l IH]; [reflexivity|].
  cbn [forallb List.filter]. destruct (f a); cbn [andb List.length].
  - rewrite IH. reflexivity.
  - symmetry. apply Nat.eqb_neq. pose proof (filter_length_le f l). lia.
Qed.

(** X1.  The counts reported by [evaluateUnlockCondition] add up, [canUnlock]
    says that the list is not empty and nothing remains, and
    [areAllTasksCompleted] gives the same answer as [canUnlock] on every
    list; the empty list evaluates to no unlock at 0%. *)
Theorem evaluateUnlockCondition_consistent tasks :
  (UnlockConditionResult.completedTasks (evaluateUnlockCondition tasks)
   + UnlockConditionResult.remainingTasks (evaluateUnlockCondition tasks)
   = UnlockConditionResult.totalTasks (evaluateUnlockCondition tasks))%nat
  /\ (UnlockConditionResult.canUnlock (evaluateUnlockCondition tasks) = true <->
      tasks <> []
      /\ UnlockConditionResult.remainingTasks (evaluateUnlockCondition tasks) = 0%nat)
  /\ areAllTasksCompleted tasks
     = UnlockConditionResult.canUnlock (evaluateUnlockCondition tasks)
  /\ (tasks = [] ->
      UnlockConditionResult.canUnlock (evaluateUnlockCondition tasks) = false
      /\ UnlockConditionResult.completionPercentage (evaluateUnlockCondition tasks) = 0).
Proof.
  pose proof (filter_length_le isCompleted tasks) as Hle.
  split; [| split; [| split]].
  - unfold evaluateUnlockCondition; cbn -[percentage Nat.ltb Nat.eqb]. lia.
  - rewrite canUnlock_counts.
    unfold evaluateUnlockCondition; cbn -[percentage Nat.ltb Nat.eqb].
    destruct tasks as [|task tasks]; [cbn; intuition (try lia; congruence)|].
    cbn [List.length] in *. split.
    + intros [_ H]. split; [discriminate | lia].
    + intros [_ H]. split; lia.
  - unfold areAllTasksCompleted, evaluateUnlockCondition;
      cbn -[percentage Nat.ltb Nat.eqb].
    destruct tasks as [|task tasks]; [reflexivity|].
    change (List.length (task :: tasks) =? 0)%nat with false.
    change (0 <? List.length (task :: tasks))%nat with true.
    cbn [andb]. apply forallb_filter_length.
  - intros ->. split; reflexivity.
Qed.

(** The empty list. *)
Lemma evaluateUnlockCondition_consistent_witness :
  UnlockConditionResult.canUnlock (evaluateUnlockCondition []) = false
  /\ UnlockConditionResult.completionPercentage (evaluateUnlockCondition []) = 0.
Proof.
  exact (proj2 (proj2 (proj2 (evaluateUnlockCondition_consistent []))) eq_refl).
Defined.

(** ** UnlockService: what reaches the callback *)

(** X3.  The registered callback receives exactly the [full_unlock] and
    [partial_unlock] notifications a call returns, once each and at the
    time of the call; a [progress_update] is returned without being
    delivered, and with no callback registered nothing is delivered.  The
    registration itself is left as it is. *)
Theorem callback_receives_unlocks_only this tasks :
  delivered (processTaskCompletion this tasks).2
  = delivered this ++
    match onUnlockCallback this, (processTaskCompletion this tasks).1 with
    | Some callback, Some n =>
        match UnlockNotification.type n with
        | progress_update => []
        | _ => [(callback, n)]
        end
    | _, _ => []
    end
  /\ onUnlockCallback (processTaskCompletion this tasks).2 = onUnlockCallback this
  /\ config (processTaskCompletion this tasks).2 = config this.
Proof.
  pose proof (processTaskCompletion_outcome this tasks) as Ho.
  destruct Ho as [Hc | th before after Hc Hths Hb Hth | Hc Hall Hne | Hc Hall He];
    cbn [UnlockNotification.type fullUnlockNotification partialUnlockNotification
         progressNotification].
  - subst n. cbn. unfold invokeCallback.
    destruct (onUnlockCallback this) eqn:Hcb; cbn; rewrite ?Hcb, ?app_nil_r; auto.
  - subst n. cbn. unfold invokeCallback. cbn.
    destruct (onUnlockCallback this) eqn:Hcb; cbn; rewrite ?Hcb, ?app_nil_r; auto.
  - cbn. destruct (onUnlockCallback this); rewrite app_nil_r; auto.
  - destruct (onUnlockCallback this); rewrite app_nil_r; auto.
Qed.

(** ** UnlockService: a direct call of [checkPartialUnlockThreshold] *)

Lemma checkPartialUnlockThreshold_Some this tasks th this1 :
  checkPartialUnlockThreshold this tasks = (Some th, this1) ->
  this1 = markNotified this th /\ crosses this (pctOf tasks) th = true.
Proof.
  unfold checkPartialUnlockThreshold. fold (pctOf tasks). intros H.
  apply thresholdLoop_Some in H as [-> (before & after & _ & _ & Hth)].
  split; [reflexivity | exact Hth].
Qed.

(** X4.  When [checkPartialUnlockThreshold] is called directly and returns a
    threshold, the threshold is marked as notified although no notification
    was made, and [previousCompletionPercentage] stays as it was: until
    [resetTracking], no call of [processTaskCompletion] returns the
    [partial_unlock] of that threshold, and no further direct call returns
    it. *)
Theorem direct_check_consumes_threshold this tasks th this1 :
  checkPartialUnlockThreshold this tasks = (Some th, this1) ->
  th ∈ notifiedThresholds this1
  /\ previousCompletionPercentage this1 = previousCompletionPercentage this
  /\ delivered this1 = delivered this
  /\ (forall calls, partialUnlocksFor th (processAll this1 calls).1 = 0%nat)
  /\ (forall tasks', (checkPartialUnlockThreshold this1 tasks').1 <> Some th).
Proof.
  intros Hcheck.
  apply checkPartialUnlockThreshold_Some in Hcheck as [-> Hcross].
  assert (Hin : th ∈ notifiedThresholds (markNotified this th)).
  { cbn. apply elem_of_union_l. now apply elem_of_singleton. }
  split; [exact Hin|]. split; [reflexivity|]. split; [reflexivity|]. split.
  - intros calls. now apply epoch_silent_once_notified.
  - intros tasks' Hagain.
    destruct (checkPartialUnlockThreshold (markNotified this th) tasks')
      as [r this2] eqn:Hc. cbn in Hagain. subst r.
    apply checkPartialUnlockThreshold_Some in Hc as [_ Hc].
    apply crosses_spec in Hc. tauto.
Qed.

(** The half-completed list checked directly: 50% is consumed, and the
    same list processed twice afterwards gives no [partial_unlock]. *)
Lemma direct_check_consumes_threshold_witness :
  partialUnlocksFor 50
    (processAll (checkPartialUnlockThreshold service0 halfDone).2 [halfDone; halfDone]).1
  = 0%nat.
Proof.
  refine (proj1 (proj2 (proj2 (proj2
            (direct_check_consumes_threshold service0 halfDone 50
               (checkPartialUnlockThreshold service0 halfDone).2 _))))
            [halfDone; halfDone]).
  vm_compute. reflexivity.
Defined.

(** ** UnlockService: the time estimate *)

Lemma getEstimatedTimeRemaining_remaining tasks :
  getEstimatedTimeRemaining tasks
  = 900000 * Z.of_nat (UnlockConditionResult.remainingTasks (evaluateUnlockCondition tasks)).
Proof.
  pose proof (filter_negb_length isCompleted tasks) as Hsum.
  unfold getEstimatedTimeRemaining, evaluateUnlockCondition;
    cbn -[percentage Nat.ltb Nat.eqb]. lia.
Qed.

(** X6.  [getEstimatedTimeRemaining] is 900 000 ms for each task that is not
    completed, cancelled tasks included: it is 900 000 times the
    [remainingTasks] of [evaluateUnlockCondition], and it is 0 exactly when
    every task of the list is completed (the empty list too). *)
Theorem getEstimatedTimeRemaining_counts tasks :
  getEstimatedTimeRemaining tasks
  = 900000 * Z.of_nat (UnlockConditionResult.remainingTasks (evaluateUnlockCondition tasks))
  /\ (getEstimatedTimeRemaining tasks = 0 <-> forallb isCompleted tasks = true)
  /\ (forall task, getEstimatedTimeRemaining (task :: tasks)
                   = (if isCompleted task then 0 else 900000)
                     + getEstimatedTimeRemaining tasks).
Proof.
  pose proof (getEstimatedTimeRemaining_remaining tasks) as Heq.
  split; [exact Heq|]. split.
  - rewrite Heq, forallb_filter_length, Nat.eqb_eq.
    unfold evaluateUnlockCondition; cbn -[percentage Nat.ltb Nat.eqb].
    pose proof (filter_length_le isCompleted tasks). lia.
  - intros task. unfold getEstimatedTimeRemaining. cbn [List.filter].
    destruct (isCompleted task); cbn [negb List.length]; lia.
Qed.

(** X7.  [formatTimeRemaining] shows a quarter of an hour for each task that is
    not completed: below four such tasks the minutes alone, from four tasks
    on the whole hours and the minutes left (0, 15, 30 or 45). *)
Theorem formatTimeRemaining_quarters tasks :
  Z.of_nat (List.length tasks) < 2 ^ 32 ->
  let r := Z.of_nat (UnlockConditionResult.remainingTasks (evaluateUnlockCondition tasks)) in
  formatTimeRemaining tasks
  = if r <? 4 then "~" +:+ JS.toString (15 * r) +:+ "m"
    else "~" +:+ JS.toString (r / 4) +:+ "h " +:+ JS.toString (15 * (r mod 4)) +:+ "m".
Proof.
  intros Hsize r.
  assert (Hr : 0 <= r < 2 ^ 32).
  { unfold r, evaluateUnlockCondition; cbn -[percentage Nat.ltb Nat.eqb Z.pow]. lia. }
  unfold formatTimeRemaining.
  pose proof (getEstimatedTimeRemaining_remaining tasks) as Hms.
  fold r in Hms. rewrite Hms.
  replace (900000 * r) with (15 * r * 60000) by ring.
  change (2 ^ 32) with 4294967296 in Hr.
  rewrite round_div_multiple;
    [| lia | lia | change (2 ^ 52) with 4503599627370496; lia].
  replace (15 * r <? 60) with (r <? 4).
  2:{ destruct (r <? 4) eqn:H4; symmetry.
      - apply Z.ltb_lt in H4. apply Z.ltb_lt. lia.
      - apply Z.ltb_ge in H4. apply Z.ltb_ge. lia. }
  destruct (r <? 4); [reflexivity|].
  rewrite (floor_div_of_Z (15 * r) 60 6);
    [| change (2 ^ 52) with 4503599627370496; lia
     | change (2 ^ 52) with 4503599627370496; lia
     | lia | change (2 ^ 6) with 64; lia
     | change (2 ^ (52 - 6)) with 70368744177664; lia].
  rewrite Z.rem_mod_nonneg by lia.
  change 60 with (15 * 4).
  rewrite Z.mul_mod_distr_l by lia. rewrite Z.div_mul_cancel_l by lia.
  reflexivity.
Qed.

(** Eight pending tasks, as in the unit test: two hours. *)
Lemma formatTimeRemaining_quarters_witness :
  formatTimeRemaining (doneOf 0 8) = "~2h 0m".
Proof.
  exact (formatTimeRemaining_quarters (doneOf 0 8) eq_refl).
Defined.

(** X2.  On a list of fewer than [2^52] tasks, [completionPercentage] lies
    between 0 and 100; it is 100 when every task is completed and 0 when
    none is; and it stays on the right side of every integer threshold
    [th]: at least [th] whenever [100 * completed >= th * total], at most
    [th] whenever [100 * completed <= th * total]. *)
Theorem completionPercentage_range tasks :
  Z.of_nat (List.length tasks) < 2 ^ 52 ->
  let r := evaluateUnlockCondition tasks in
  0 <= UnlockConditionResult.completionPercentage r <= 100
  /\ (UnlockConditionResult.canUnlock r = true ->
      UnlockConditionResult.completionPercentage r = 100)
  /\ (UnlockConditionResult.completedTasks r = 0%nat ->
      UnlockConditionResult.completionPercentage r = 0)
  /\ (forall th,
        tasks <> [] ->
        (th * Z.of_nat (UnlockConditionResult.totalTasks r)
         <= 100 * Z.of_nat (UnlockConditionResult.completedTasks r) ->
         th <= UnlockConditionResult.completionPercentage r)
        /\ (100 * Z.of_nat (UnlockConditionResult.completedTasks r)
            <= th * Z.of_nat (UnlockConditionResult.totalTasks r) ->
            UnlockConditionResult.completionPercentage r <= th)).
Proof.
  intros Hsize r.
  pose proof (filter_length_le isCompleted tasks) as Hle.
  destruct tasks as [|task tasks].
  { cbn. split; [lia|]. split; [discriminate|]. split; [reflexivity|].
    intros th Hne. now destruct Hne. }
  set (l := task :: tasks) in *.
  assert (Hpos : (0 < List.length l)%nat) by (unfold l; cbn; lia).
  assert (Hpct : UnlockConditionResult.completionPercentage r
                 = percentage (List.length (List.filter isCompleted l)) (List.length l)).
  { unfold r, evaluateUnlockCondition. cbn -[percentage Nat.ltb Nat.eqb l].
    destruct (0 <? List.length l)%nat eqn:H0; [reflexivity|].
    apply Nat.ltb_ge in H0. lia. }
  assert (Hc : UnlockConditionResult.completedTasks r
               = List.length (List.filter isCompleted l)) by reflexivity.
  assert (Ht : UnlockConditionResult.totalTasks r = List.length l) by reflexivity.
  rewrite Hpct, Hc, Ht.
  pose proof (fun th => percentage_brackets
                          (List.length (List.filter isCompleted l)) (List.length l) th
                          Hpos Hle Hsize) as Hb.
  split; [| split; [| split]].
  - split; [apply (Hb 0); lia | apply (Hb 100); lia].
  - intros Hcan. apply canUnlock_counts in Hcan as [_ Hall].
    fold r in Hall. rewrite Hc, Ht in Hall.
    apply Z.le_antisymm; [apply (Hb 100); lia | apply (Hb 100); lia].
  - intros Hzero. apply Z.le_antisymm; [apply (Hb 0); lia | apply (Hb 0); lia].
  - intros th _. apply Hb.
Qed.

(** Two tasks of three completed: the percentage is 67, between the exact
    66.67 rounded down and rounded up. *)
Lemma completionPercentage_range_witness :
  66 <= UnlockConditionResult.completionPercentage (evaluateUnlockCondition (doneOf 2 3))
     <= 67.
Proof.
  assert (Hsize : Z.of_nat (List.length (doneOf 2 3)) < 2 ^ 52) by reflexivity.
  assert (Hne : doneOf 2 3 <> []) by discriminate.
  destruct (completionPercentage_range (doneOf 2 3) Hsize) as (_ & _ & _ & Hth).
  split.
  - apply (proj1 (Hth 66 Hne)). vm_compute. discriminate.
  - apply (proj2 (Hth 67 Hne)). vm_compute. discriminate.
Defined.

(** ** UnlockService: an epoch with the other public calls in between *)

Lemma checkPartialUnlockThreshold_notified this tasks :
  notifiedThresholds (checkPartialUnlockThreshold this tasks).2 = notifiedThresholds this
  \/ exists th, notifiedThresholds (checkPartialUnlockThreshold this tasks).2
                = {[th]} ∪ notifiedThresholds this.
Proof.
  destruct (checkPartialUnlockThreshold this tasks) as [[th|] this1] eqn:Hc.
  - apply checkPartialUnlockThreshold_Some in Hc as [-> _]. right. now exists th.
  - unfold checkPartialUnlockThreshold in Hc. apply thresholdLoop_None in Hc as [-> _].
    now left.
Qed.

(** What a public call other than [resetTracking] does to the tracking:
    the notified thresholds stay, and the [partial_unlock] of [th] is
    returned only when [th] was not notified and is so afterwards. *)
Lemma serviceCall_tracking this c th :
  (th ∈ notifiedThresholds this -> th ∈ notifiedThresholds (serviceCall this c).2)
  /\ (isPartialUnlockFor th (serviceCall this c).1 = true ->
      (th ∉ notifiedThresholds this) /\ th ∈ notifiedThresholds (serviceCall this c).2).
Proof.
  destruct c as [tasks | tasks | partial | callback |]; cbn [serviceCall fst snd].
  - pose proof (processTaskCompletion_outcome this tasks) as Ho. split.
    + now apply (Outcome_notified_mono _ _ _ _ _ Ho).
    + intros Hfire.
      destruct (Outcome_partial _ _ _ _ _ Ho Hfire) as (_ & Hcross & _ & _ & Hmark).
      apply crosses_spec in Hcross. split; [tauto|].
      rewrite Hmark. apply elem_of_union_l. now apply elem_of_singleton.
  - split; [|discriminate]. intros Hin.
    destruct (checkPartialUnlockThreshold_notified this tasks) as [-> | [u ->]];
      [exact Hin | now apply elem_of_union_r].
  - split; [auto | discriminate].
  - split; [auto | discriminate].
  - split; [auto | discriminate].
Qed.

Lemma serviceCalls_cons this c calls :
  serviceCalls this (c :: calls)
  = ((serviceCall this c).1 :: (serviceCalls (serviceCall this c).2 calls).1,
     (serviceCalls (serviceCall this c).2 calls).2).
Proof.
  cbn [serviceCalls]. destruct (serviceCall this c) as [r this1]. cbn [fst snd].
  destruct (serviceCalls this1 calls) as [rs this2]. reflexivity.
Qed.

Lemma serviceCalls_silent calls : forall this th,
  th ∈ notifiedThresholds this ->
  partialUnlocksFor th (serviceCalls this calls).1 = 0%nat.
Proof.
  induction calls as [|c calls IH]; intros this th Hin; [reflexivity|].
  rewrite serviceCalls_cons. unfold partialUnlocksFor in *. cbn [fst List.filter].
  destruct (serviceCall_tracking this c th) as [Hmono Hfire].
  destruct (isPartialUnlockFor th (serviceCall this c).1).
  - destruct (Hfire eq_refl) as [Hnot _]. contradiction.
  - apply IH. now apply Hmono.
Qed.

(** X5.  Between two calls of [resetTracking], whatever the service is asked in
    whatever order ([processTaskCompletion], direct calls of
    [checkPartialUnlockThreshold], [updateConfig] with new thresholds,
    registering or clearing the callback), the [partial_unlock] of a given
    threshold is returned at most once; in particular a threshold taken out
    of the configuration and put back does not fire a second time. *)
Theorem epoch_at_most_once_any_calls calls : forall this th,
  (partialUnlocksFor th (serviceCalls this calls).1 <= 1)%nat.
Proof.
  induction calls as [|c calls IH]; intros this th; [cbn; lia|].
  rewrite serviceCalls_cons. unfold partialUnlocksFor. cbn [fst List.filter].
  destruct (serviceCall_tracking this c th) as [_ Hfire].
  destruct (isPartialUnlockFor th (serviceCall this c).1).
  - destruct (Hfire eq_refl) as [_ Hin]. cbn [List.length].
    fold (partialUnlocksFor th (serviceCalls (serviceCall this c).2 calls).1).
    rewrite serviceCalls_silent by exact Hin. lia.
  - apply IH.
Qed.

(** ** UnlockService: the instance kept by the module *)

(** X8.  [getUnlockService] builds the instance from its argument on first use
    only: while an instance is kept, a call returns that instance whatever
    configuration it is given.  [resetUnlockService] clears the callback of
    the instance it lets go, and the next [getUnlockService] builds a new
    one with the tracking at its start. *)
Theorem getUnlockService_keeps_first partial partial' kept :
  let '(first, kept1) := getUnlockService partial kept in
  let '(second, kept2) := getUnlockService partial' kept1 in
  second = first /\ kept2 = kept1 /\ kept1 = Some first
  /\ (kept = None -> config first = spread DEFAULT_CONFIG partial)
  /\ (forall instance, kept = Some instance -> first = instance)
  /\ (let '(released, kept3) := resetUnlockService kept1 in
      released = Some (clearUnlockCallback first)
      /\ (getUnlockService partial' kept3).1 = create partial'
      /\ previousCompletionPercentage (getUnlockService partial' kept3).1 = 0
      /\ notifiedThresholds (getUnlockService partial' kept3).1 = ∅).
Proof.
  destruct kept as [instance|]; cbn.
  - repeat split; try reflexivity; try discriminate. now intros i [= ->].
  - repeat split; try reflexivity; discriminate.
Qed.

End UnlockEvaluation.

(** ** ProcessMonitor: terminating every restricted process *)

Section TerminateAll.
Import ProcessMonitor.

Context {World : Type}.
Variable execAsync : string -> World -> ExecOutcome * World.

Implicit Types (this : ProcessMonitor.t) (s : Sys World) (hooks : Hooks).

(** One [terminateProcess]: the result names the process it was asked to
    terminate, and one or two command lines are issued. *)
Lemma terminateProcess_footprint this pid processName s :
  TerminationResult.pid (terminateProcess execAsync this pid processName s).1 = pid
  /\ TerminationResult.processName (terminateProcess execAsync this pid processName s).1
     = processName
  /\ exists commands,
       issued (terminateProcess execAsync this pid processName s).2 = issued s ++ commands
       /\ (1 <= List.length commands <= 2)%nat.
Proof.
  unfold terminateProcess.
  destruct (gracefulTerminationFirst (config this)).
  - unfold exec at 1 2 3.
    destruct (execAsync (taskkill pid false) (world s)) as [[out|e] w1].
    + cbn. repeat split. exists [taskkill pid false]. split; [reflexivity | cbn; lia].
    + rewrite forceKill_spec. cbn [fst snd world issued].
      split; [now destruct (execAsync (taskkill pid true) w1) as [[?|?] ?]|].
      split; [now destruct (execAsync (taskkill pid true) w1) as [[?|?] ?]|].
      exists [taskkill pid false; taskkill pid true].
      split; [now rewrite <- app_assoc | cbn; lia].
  - rewrite forceKill_spec. cbn [fst snd world issued].
    split; [now destruct (execAsync (taskkill pid true) (world s)) as [[?|?] ?]|].
    split; [now destruct (execAsync (taskkill pid true) (world s)) as [[?|?] ?]|].
    exists [taskkill pid true]. split; [reflexivity | cbn; lia].
Qed.

Lemma notifyTerminated_calls hooks result :
  onProcessTerminated (notifyTerminated hooks result) = onProcessTerminated hooks
  /\ terminatedCalls (notifyTerminated hooks result)
     = terminatedCalls hooks ++ terminatedCallsFor hooks [result].
Proof.
  unfold notifyTerminated, terminatedCallsFor.
  destruct (onProcessTerminated hooks) eqn:H; cbn; rewrite ?H, ?app_nil_r; auto.
Qed.

Lemma terminatedCallsFor_app hooks hooks' (l1 l2 : list TerminationResult.t) :
  onProcessTerminated hooks' = onProcessTerminated hooks ->
  terminatedCallsFor hooks l1 ++ terminatedCallsFor hooks' l2
  = terminatedCallsFor hooks (l1 ++ l2).
Proof.
  intros H. unfold terminatedCallsFor. rewrite H.
  destruct (onProcessTerminated hooks); [now rewrite map_app | reflexivity].
Qed.

Lemma terminateEach_spec this detected : forall results hooks s,
  exists added commands,
    (terminateEach execAsync this detected results hooks s).1.1 = results ++ added
    /\ map (fun r => (TerminationResult.pid r, TerminationResult.processName r)) added
       = map (fun p => (ProcessInfo.pid p, ProcessInfo.name p)) detected
    /\ onProcessTerminated (terminateEach execAsync this detected results hooks s).1.2
       = onProcessTerminated hooks
    /\ terminatedCalls (terminateEach execAsync this detected results hooks s).1.2
       = terminatedCalls hooks ++ terminatedCallsFor hooks added
    /\ issued (terminateEach execAsync this detected results hooks s).2
       = issued s ++ commands
    /\ (List.length detected <= List.length commands <= 2 * List.length detected)%nat.
Proof.
  induction detected as [|p detected IH]; intros results hooks s.
  - exists [], []. cbn. rewrite !app_nil_r. unfold terminatedCallsFor.
    destruct (onProcessTerminated hooks); cbn; rewrite ?app_nil_r; repeat split; lia.
  - cbn [terminateEach].
    destruct (terminateProcess_footprint this (ProcessInfo.pid p) (ProcessInfo.name p) s)
      as (Hpid & Hname & cmds & Hissued & Hlen).
    destruct (terminateProcess execAsync this (ProcessInfo.pid p) (ProcessInfo.name p) s)
      as [result s1]. cbn [fst snd] in Hpid, Hname, Hissued.
    destruct (notifyTerminated_calls hooks result) as [Hhook Hcalls].
    destruct (IH (results ++ [result]) (notifyTerminated hooks result) s1)
      as (added & commands & Hres & Hkeys & Hh & Hc & Hi & Hl).
    exists (result :: added), (cmds ++ commands).
    split; [rewrite Hres; now rewrite <- app_assoc|].
    split; [cbn [map]; now rewrite Hpid, Hname, Hkeys|].
    split; [now rewrite Hh|].
    split.
    + rewrite Hc, Hcalls, <- app_assoc. f_equal.
      now rewrite (terminatedCallsFor_app hooks _ [result] added Hhook).
    + split; [rewrite Hi, Hissued; now rewrite <- app_assoc|].
      rewrite length_app. cbn [List.length]. lia.
Qed.


End TerminateAll.


(** ** ProcessMonitor: reading the process listing *)

Section Listing.
Import ProcessMonitor.

Lemma app_String (c : ascii) (s t : string) : String c s +:+ t = String c (s +:+ t).
Proof. reflexivity. Qed.

Lemma app_empty_l (t : string) : EmptyString +:+ t = t.
Proof. reflexivity. Qed.

Lemma string_app_assoc (a b c : string) : (a +:+ b) +:+ c = a +:+ (b +:+ c).
Proof.
  induction a as [|x a IH]; [reflexivity|].
  rewrite !app_String. now rewrite IH.
Qed.

Lemma string_app_empty_r (a : string) : a +:+ EmptyString = a.
Proof. induction a as [|x a IH]; [reflexivity|]. rewrite app_String. now rewrite IH. Qed.

Lemma allChars_app keep (a b : string) :
  allChars keep (a +:+ b) = allChars keep a && allChars keep b.
Proof.
  induction a as [|x a IH]; [reflexivity|].
  rewrite app_String. cbn [allChars]. rewrite IH. now rewrite andb_assoc.
Qed.

Lemma span_stop keep (s : string) (c : ascii) (rest : string) :
  allChars keep s = true -> keep c = false ->
  JSString.span keep (s +:+ String c rest) = (s, String c rest).
Proof.
  intros Hs Hc. induction s as [|x s IH].
  - rewrite app_empty_l. cbn [JSString.span]. now rewrite Hc.
  - cbn [allChars] in Hs. apply andb_true_iff in Hs as [Hx Hs].
    rewrite app_String. cbn [JSString.span]. rewrite Hx, (IH Hs). reflexivity.
Qed.

(** *** Decimal digits *)

Lemma parse_uint (d : Decimal.uint) : forall acc,
  fold_left digitStep (list_ascii_of_string (NilEmpty.string_of_uint d)) acc
  = acc * 10 ^ Z.of_N (DecimalPos.Unsigned.usize d)
    + Z.of_N (DecimalPos.Unsigned.of_lu (Decimal.rev d)).
Proof.
  induction d; intros acc;
    cbn [NilEmpty.string_of_uint list_ascii_of_string fold_left DecimalPos.Unsigned.usize];
    [cbn; lia | ..];
    rewrite IHd;
    set (R := DecimalPos.Unsigned.of_lu (Decimal.rev d));
    match goal with
    | |- context [Decimal.rev (?f d)] =>
        change (Decimal.rev (f d)) with (Decimal.revapp d (f Decimal.Nil));
        rewrite (DecimalPos.Unsigned.of_lu_revapp d (f Decimal.Nil))
    end;
    fold R;
    rewrite N2Z.inj_succ, Z.pow_succ_r by lia;
    rewrite N2Z.inj_add, N2Z.inj_mul, N2Z.inj_pow;
    set (P := Z.of_N 10 ^ Z.of_N (DecimalPos.Unsigned.usize d));
    change (10 ^ Z.of_N (DecimalPos.Unsigned.usize d)) with P;
    unfold digitStep; cbn [DecimalPos.Unsigned.of_lu];
    match goal with
    | |- context [Z.of_nat (nat_of_ascii ?c)] =>
        let v := eval vm_compute in (Z.of_nat (nat_of_ascii c)) in
        change (Z.of_nat (nat_of_ascii c)) with v
    end;
    match goal with
    | |- context [Z.of_N ?n * P] =>
        let v := eval vm_compute in (Z.of_N n) in
        change (Z.of_N n) with v
    end;
    lia.
Qed.

Lemma digits_of_uint (d : Decimal.uint) :
  allChars JSString.isDigit (NilEmpty.string_of_uint d) = true.
Proof. induction d; cbn [NilEmpty.string_of_uint allChars]; [reflexivity | now rewrite IHd ..]. Qed.

(** The decimal text of a pid reads back as the pid. *)
Lemma parseInt_toString (pid : Z) :
  0 <= pid ->
  JSString.parseInt (JS.toString pid) = pid
  /\ allChars JSString.isDigit (JS.toString pid) = true
  /\ JS.toString pid <> EmptyString.
Proof.
  intros Hpid. unfold JS.toString, JSString.parseInt.
  destruct pid as [|p|p]; [| | lia].
  - cbn. repeat split. discriminate.
  - cbn [Z.to_int NilEmpty.string_of_int].
    change (fold_left (fun acc c => 10 * acc + (Z.of_nat (nat_of_ascii c) - 48)))
      with (fold_left digitStep).
    rewrite parse_uint, Z.mul_0_l, Z.add_0_l.
    rewrite <- DecimalPos.Unsigned.of_uint_alt, DecimalPos.Unsigned.of_to.
    split; [reflexivity|]. split; [apply digits_of_uint|].
    pose proof (DecimalPos.Unsigned.to_uint_nonnil p) as Hnn.
    destruct (Pos.to_uint p); [now destruct Hnn | discriminate ..].
Qed.

(** *** One line *)

Lemma matchRow_fields (name digits rest : string) :
  name <> EmptyString -> allChars JSString.notQuote name = true ->
  digits <> EmptyString -> allChars JSString.isDigit digits = true ->
  JSString.matchRow (quoted name +:+ "," +:+ quoted digits +:+ rest)
  = Some (name, digits).
Proof.
  intros Hn Hnq Hd Hdd.
  unfold quoted. rewrite !string_app_assoc, !app_String, !app_empty_l.
  destruct name as [|n0 name']; [now destruct Hn|].
  destruct digits as [|d0 digits']; [now destruct Hd|].
  unfold JSString.matchRow at 1.
  cbn [JSString.matchRow JSString.matchRowHere].
  change (Ascii.eqb JSString.quote JSString.quote) with true. cbv iota.
  rewrite (span_stop JSString.notQuote (String n0 name') JSString.quote _ Hnq eq_refl).
  change (Ascii.eqb JSString.comma JSString.comma) with true. cbn [andb].
  rewrite (span_stop JSString.isDigit (String d0 digits') JSString.quote _ Hdd eq_refl).
  reflexivity.
Qed.

(** [toLowerCase] gives each capital its small letter of the table:
    checked on every code unit. *)
Lemma lowerChar_smallOf (c : ascii) : JSString.lowerChar c = smallOf c.
Proof.
  assert (Htable :
            forallb (fun c => Ascii.eqb (JSString.lowerChar c) (smallOf c)) allCodes = true)
    by (vm_compute; reflexivity).
  rewrite forallb_forall in Htable.
  apply Ascii.eqb_eq. apply Htable, allCodes_complete.
Qed.

Lemma toLowerCase_inSmallLetters (s : string) :
  JSString.toLowerCase s = inSmallLetters s.
Proof.
  induction s as [|c s IH]; [reflexivity|].
  cbn [JSString.toLowerCase inSmallLetters]. now rewrite lowerChar_smallOf, IH.
Qed.

Lemma parseLine_row (r : ListingRow) (rest : string) :
  wellFormedRow r ->
  parseLine (quoted (rowImageName r) +:+ "," +:+ quoted (JS.toString (rowPid r)) +:+ rest)
  = [rowProcess r].
Proof.
  intros (Hne & Hnq & _ & [Hpid _] & _).
  destruct (parseInt_toString (rowPid r) Hpid) as (Hparse & Hdigits & Hnonempty).
  unfold parseLine. rewrite matchRow_fields by assumption.
  unfold rowProcess. now rewrite Hparse, toLowerCase_inSmallLetters.
Qed.

(** *** Lines and surrounding blanks *)

Lemma trimStart_blank (blank s : string) :
  allChars JSString.isWhiteSpace blank = true ->
  JSString.trimStart (blank +:+ s) = JSString.trimStart s.
Proof.
  intros Hb. induction blank as [|c blank IH]; [reflexivity|].
  cbn [allChars] in Hb. apply andb_true_iff in Hb as [Hc Hb].
  rewrite app_String. cbn [JSString.trimStart]. rewrite Hc. now apply IH.
Qed.

Lemma trimEnd_blank (blank : string) :
  allChars JSString.isWhiteSpace blank = true -> JSString.trimEnd blank = EmptyString.
Proof.
  intros Hb. induction blank as [|c blank IH]; [reflexivity|].
  cbn [allChars] in Hb. apply andb_true_iff in Hb as [Hc Hb].
  cbn [JSString.trimEnd]. rewrite (IH Hb), Hc. reflexivity.
Qed.

Lemma trimEnd_app_blank (s blank : string) :
  JSString.trimEnd blank = EmptyString ->
  JSString.trimEnd (s +:+ blank) = JSString.trimEnd s.
Proof.
  intros Hb. induction s as [|c s IH]; [exact Hb|].
  rewrite app_String. cbn [JSString.trimEnd]. now rewrite IH.
Qed.

Lemma trimEnd_app_kept (s t : string) :
  JSString.trimEnd t <> EmptyString ->
  JSString.trimEnd (s +:+ t) = s +:+ JSString.trimEnd t.
Proof.
  intros Ht. induction s as [|c s IH]; [reflexivity|].
  rewrite !app_String. cbn [JSString.trimEnd]. rewrite IH.
  destruct (s +:+ JSString.trimEnd t) eqn:E; [|reflexivity].
  destruct s; [rewrite app_empty_l in E; contradiction | discriminate].
Qed.

Lemma trimEnd_String_kept (c : ascii) (s : string) :
  JSString.isWhiteSpace c = false -> JSString.trimEnd (String c s) <> EmptyString.
Proof.
  intros Hc. cbn [JSString.trimEnd].
  destruct (JSString.trimEnd s); [rewrite Hc|]; discriminate.
Qed.

Lemma trimEnd_String_after (c : ascii) (s : string) :
  JSString.trimEnd s <> EmptyString ->
  JSString.trimEnd (String c s) = String c (JSString.trimEnd s).
Proof.
  intros Hs. cbn [JSString.trimEnd].
  destruct (JSString.trimEnd s); [contradiction | reflexivity].
Qed.

Lemma trimEnd_allChars keep (s : string) :
  allChars keep s = true -> allChars keep (JSString.trimEnd s) = true.
Proof.
  induction s as [|c s IH]; [reflexivity|].
  cbn [allChars]. intros H. apply andb_true_iff in H as [Hc Hs].
  cbn [JSString.trimEnd]. specialize (IH Hs).
  destruct (JSString.trimEnd s) eqn:E.
  - destruct (JSString.isWhiteSpace c); [reflexivity | cbn; now rewrite Hc].
  - cbn [allChars] in *. now rewrite Hc, IH.
Qed.

Lemma splitLines_nonempty (s : string) : JSString.splitLines s <> [].
Proof.
  destruct s as [|c s]; cbn [JSString.splitLines]; [discriminate|].
  destruct (JSString.splitLines s); [discriminate|].
  destruct (Ascii.eqb c JSString.newline); discriminate.
Qed.

Lemma splitLines_one (s : string) :
  allChars notNewline s = true -> JSString.splitLines s = [s].
Proof.
  induction s as [|c s IH]; [reflexivity|].
  cbn [allChars]. intros H. apply andb_true_iff in H as [Hc Hs].
  cbn [JSString.splitLines]. rewrite (IH Hs).
  unfold notNewline in Hc. apply negb_true_iff in Hc. now rewrite Hc.
Qed.

Lemma splitLines_line (s t : string) :
  allChars notNewline s = true ->
  JSString.splitLines (s +:+ String JSString.newline t) = s :: JSString.splitLines t.
Proof.
  induction s as [|c s IH]; intros H.
  - rewrite app_empty_l. cbn [JSString.splitLines].
    pose proof (splitLines_nonempty t) as Hne.
    destruct (JSString.splitLines t); [now destruct Hne | reflexivity].
  - cbn [allChars] in H. apply andb_true_iff in H as [Hc Hs].
    rewrite app_String. cbn [JSString.splitLines]. rewrite (IH Hs).
    unfold notNewline in Hc. apply negb_true_iff in Hc. now rewrite Hc.
Qed.

(** *** The whole listing *)

Lemma fold_unlines (rows : list string) : forall a b,
  fold_left (fun text row => text +:+ String JSString.newline row) rows (a +:+ b)
  = a +:+ fold_left (fun text row => text +:+ String JSString.newline row) rows b.
Proof.
  induction rows as [|x rows IH]; intros a b; [reflexivity|].
  cbn [fold_left]. rewrite string_app_assoc. apply IH.
Qed.

Lemma unlines_two (t t' : string) (ts : list string) :
  unlines (t :: t' :: ts) = t +:+ String JSString.newline (unlines (t' :: ts)).
Proof.
  unfold unlines. cbn [fold_left]. rewrite fold_unlines. f_equal.
  change (String JSString.newline t') with (String JSString.newline EmptyString +:+ t').
  rewrite fold_unlines. reflexivity.
Qed.

Lemma allChars_impl (keep keep' : ascii -> bool) (s : string) :
  (forall c, keep c = true -> keep' c = true) ->
  allChars keep s = true -> allChars keep' s = true.
Proof.
  intros Himp. induction s as [|c s IH]; [reflexivity|].
  cbn [allChars]. intros H. apply andb_true_iff in H as [Hc Hs].
  now rewrite (Himp c Hc), (IH Hs).
Qed.

Lemma digit_notNewline (c : ascii) : JSString.isDigit c = true -> notNewline c = true.
Proof. destruct c as [[] [] [] [] [] [] [] []]; vm_compute; congruence. Qed.

Lemma rowText_shape (r : ListingRow) :
  wellFormedRow r ->
  allChars notNewline (rowText r) = true
  /\ exists tail, rowText r = String JSString.quote tail.
Proof.
  intros (_ & _ & Hname & [Hpid _] & Hrest).
  destruct (parseInt_toString (rowPid r) Hpid) as (_ & Hdigits & _).
  apply (allChars_impl _ notNewline _ digit_notNewline) in Hdigits.
  split.
  - unfold rowText, quoted. rewrite !allChars_app. cbn [allChars].
    rewrite Hname, Hdigits, Hrest. reflexivity.
  - unfold rowText, quoted. rewrite !string_app_assoc, app_String. eauto.
Qed.

Lemma trimEnd_quoted (field rest : string) :
  JSString.trimEnd (quoted field +:+ rest) = quoted field +:+ JSString.trimEnd rest
  /\ JSString.trimEnd (quoted field +:+ rest) <> EmptyString.
Proof.
  assert (Hq : JSString.trimEnd (String JSString.quote rest)
               = String JSString.quote (JSString.trimEnd rest)).
  { cbn [JSString.trimEnd]. destruct (JSString.trimEnd rest); reflexivity. }
  assert (Heq : JSString.trimEnd (quoted field +:+ rest)
                = quoted field +:+ JSString.trimEnd rest).
  { unfold quoted. rewrite !string_app_assoc, !(app_String JSString.quote EmptyString).
    rewrite !app_empty_l.
    rewrite trimEnd_app_kept; [now rewrite Hq | rewrite Hq; discriminate]. }
  split; [exact Heq|]. rewrite Heq. unfold quoted. rewrite app_String. discriminate.
Qed.

Lemma trimEnd_rowText (r : ListingRow) :
  JSString.trimEnd (rowText r) = rowText (trimmedRow r)
  /\ JSString.trimEnd (rowText r) <> EmptyString.
Proof.
  destruct (trimEnd_quoted (JS.toString (rowPid r)) (rowRest r)) as [Heq Hne].
  assert (Hne' : JSString.trimEnd ("," +:+ quoted (JS.toString (rowPid r)) +:+ rowRest r)
                 <> EmptyString).
  { rewrite trimEnd_app_kept by exact Hne. discriminate. }
  assert (Hrow : JSString.trimEnd (rowText r) = rowText (trimmedRow r)).
  { unfold rowText, trimmedRow. cbn [rowImageName rowPid rowRest].
    rewrite trimEnd_app_kept by exact Hne'.
    rewrite trimEnd_app_kept by exact Hne.
    now rewrite Heq. }
  split; [exact Hrow|]. rewrite Hrow.
  unfold rowText, quoted. rewrite !app_String. discriminate.
Qed.

Lemma trimmedRow_wellFormed (r : ListingRow) :
  wellFormedRow r -> wellFormedRow (trimmedRow r) /\ rowProcess (trimmedRow r) = rowProcess r.
Proof.
  intros (H1 & H2 & H3 & H4 & H5). split; [|reflexivity].
  unfold wellFormedRow, trimmedRow. cbn [rowImageName rowPid rowRest].
  split; [exact H1|]. split; [exact H2|]. split; [exact H3|]. split; [exact H4|].
  now apply trimEnd_allChars.
Qed.

Lemma parse_trimmed_rows (rows : list ListingRow) : forall first,
  Forall wellFormedRow (first :: rows) ->
  JSString.trimEnd (unlines (map rowText (first :: rows))) <> EmptyString
  /\ flat_map parseLine
       (JSString.splitLines (JSString.trimEnd (unlines (map rowText (first :: rows)))))
     = map rowProcess (first :: rows).
Proof.
  induction rows as [|second rows IH]; intros first Hwf.
  - apply Forall_inv in Hwf.
    destruct (trimEnd_rowText first) as [Heq Hne].
    destruct (trimmedRow_wellFormed first Hwf) as [Hwf' Hsame].
    destruct (rowText_shape _ Hwf') as [Hline _].
    split; [exact Hne|].
    change (unlines (map rowText [first])) with (rowText first).
    rewrite Heq, (splitLines_one _ Hline). cbn [flat_map map].
    unfold rowText. rewrite (parseLine_row _ _ Hwf'), Hsame. reflexivity.
  - pose proof (Forall_inv Hwf) as Hfirst. apply Forall_inv_tail in Hwf.
    destruct (IH second Hwf) as [Hne Hparse].
    destruct (rowText_shape _ Hfirst) as [Hline _].
    cbn [map]. rewrite unlines_two.
    change (rowText second :: map rowText rows) with (map rowText (second :: rows)).
    set (J := unlines (map rowText (second :: rows))) in *.
    assert (Hnl : JSString.trimEnd (String JSString.newline J)
                  = String JSString.newline (JSString.trimEnd J))
      by (now apply trimEnd_String_after).
    rewrite trimEnd_app_kept by (rewrite Hnl; discriminate).
    rewrite Hnl. split.
    + destruct (rowText first); [rewrite app_empty_l|rewrite app_String]; discriminate.
    + rewrite (splitLines_line _ _ Hline). cbn [flat_map].
      rewrite Hparse. unfold rowText at 1.
      rewrite (parseLine_row _ _ Hfirst). reflexivity.
Qed.

(** X10.  A listing whose rows are well formed is read back row by row:
    whatever white space surrounds it (the no-break space too) and
    whatever follows the pid on each line (the other columns, a carriage
    return), [getRunningProcesses] builds one process for each row, in the
    order of the rows, with the pid the row prints, the image name with
    each capital replaced by its small letter as [executableName], and the
    image name without its first [.exe] as [name]. *)
Theorem parseTasklist_reads_rows (leading trailing : string) (rows : list ListingRow) :
  allChars JSString.isWhiteSpace leading = true ->
  allChars JSString.isWhiteSpace trailing = true ->
  Forall wellFormedRow rows ->
  parseTasklist (leading +:+ unlines (map rowText rows) +:+ trailing)
  = map rowProcess rows.
Proof.
  intros Hlead Htrail Hwf. unfold parseTasklist, JSString.trim.
  rewrite (trimStart_blank _ _ Hlead).
  destruct rows as [|first rows].
  - change (unlines (map rowText [])) with EmptyString. rewrite app_empty_l.
    rewrite <- (string_app_empty_r trailing), (trimStart_blank _ _ Htrail).
    reflexivity.
  - destruct (parse_trimmed_rows rows first Hwf) as [_ Hparse].
    assert (Hstart : exists tail, unlines (map rowText (first :: rows))
                                  = String JSString.quote tail).
    { destruct (rowText_shape _ (Forall_inv Hwf)) as [_ [tail Htail]].
      destruct rows as [|second rows].
      - exists tail. exact Htail.
      - cbn [map]. rewrite unlines_two, Htail, app_String. eauto. }
    destruct Hstart as [tail Hstart].
    rewrite Hstart at 1. rewrite app_String.
    cbn [JSString.trimStart]. change (JSString.isWhiteSpace JSString.quote) with false.
    cbv iota. rewrite <- app_String, <- Hstart.
    rewrite (trimEnd_app_blank _ _ (trimEnd_blank _ Htrail)).
    exact Hparse.
Qed.

(** Two rows ended by carriage returns, the second with an accented
    capital, and a line of white space (a no-break space) before and
    after. *)
Lemma parseTasklist_reads_rows_witness :
  parseTasklist (blankLine +:+ unlines (map rowText sampleRows) +:+ carriageReturn +:+ blankLine)
  = [ {| ProcessInfo.pid := 1234; ProcessInfo.name := "Steam.EXE";
         ProcessInfo.executableName := "steam.exe" |};
      {| ProcessInfo.pid := 0; ProcessInfo.name := String "201"%char "DITEUR";
         ProcessInfo.executableName := String "233"%char "diteur.exe" |} ].
Proof.
  refine (parseTasklist_reads_rows blankLine (carriageReturn +:+ blankLine) sampleRows
            eq_refl eq_refl _).
  repeat constructor; try discriminate; cbn; try lia; reflexivity.
Defined.

End Listing.

(** ** The focus-mode store: history and total *)

Section StoreExtras.
Import FocusModeStore.

Implicit Types (s : FocusModeStoreState) (a : Action).

Lemma recordedTime_app (sessions : list FocusSession.t) (session : FocusSession.t) :
  recordedTime (sessions ++ [session])
  = recordedTime sessions + FocusSession.duration session.
Proof.
  unfold recordedTime.
  induction sessions as [|x sessions IH]; simpl; [lia|].
  rewrite IH. lia.
Qed.

Lemma accounted_stop s now newId wasNatural tasksCompleted :
  accounted s -> accounted (stopFocusMode now newId wasNatural tasksCompleted s).
Proof.
  intros [Htotal Hrec]. unfold stopFocusMode.
  destruct (negb (JS.truthy (startedAt s))); [now split|].
  destruct (startedAt s) as [started|]; [|now split].
  split; cbn [totalFocusTime sessions].
  - rewrite recordedTime_app, Htotal. reflexivity.
  - apply Forall_app. split; [exact Hrec|]. constructor; [reflexivity|constructor].
Qed.

Lemma accounted_step s a : accounted s -> accounted (step s a).
Proof.
  intros Hs.
  destruct a as [now | now newId wasNatural tasksCompleted | now | newId app | id | id
                 | id updates | nowCheck nowStop newId nowMark | ];
    cbn [step].
  - exact Hs.
  - now apply accounted_stop.
  - unfold updateSessionTime.
    destruct (negb (isActive s) || negb (JS.truthy (startedAt s))); [exact Hs|].
    destruct (startedAt s); exact Hs.
  - exact Hs.
  - exact Hs.
  - exact Hs.
  - exact Hs.
  - unfold emergencyUnlock.
    destruct (negb (canEmergencyUnlock nowCheck s)); [exact Hs|].
    cbn [snd]. exact (accounted_stop s nowStop newId false 0 Hs).
  - exact Hs.
Qed.

(** X11.  Whatever the store has been asked since its initial state, and whatever
    the clock read, [totalFocusTime] is the sum of the durations of the
    sessions in the history, and the duration of every recorded session is
    the time between its [startedAt] and its [endedAt]. *)
Theorem history_accounts_for_total (actions : list Action) :
  totalFocusTime (run initialState actions)
  = recordedTime (getSessionHistory (run initialState actions))
  /\ Forall wellRecorded (getSessionHistory (run initialState actions)).
Proof.
  change (accounted (run initialState actions)).
  assert (H : forall s, accounted s -> accounted (run s actions)).
  { induction actions as [|a actions IH]; intros s Hs; [exact Hs|].
    cbn [run fold_left]. apply IH. now apply accounted_step. }
  apply H. split; [reflexivity | constructor].
Qed.

(** ** The focus-mode store: the restricted apps *)

Lemma presetEntries_map (f : RestrictedApp.t -> RestrictedApp.t) (apps : list RestrictedApp.t) :
  (forall app, RestrictedApp.isPreset (f app) = RestrictedApp.isPreset app
               /\ RestrictedApp.id (f app) = RestrictedApp.id app
               /\ RestrictedApp.name (f app) = RestrictedApp.name app
               /\ RestrictedApp.executableName (f app) = RestrictedApp.executableName app) ->
  presetEntries (map f apps) = presetEntries apps.
Proof.
  intros Hf. unfold presetEntries.
  induction apps as [|app apps IH]; [reflexivity|].
  destruct (Hf app) as (Hp & Hi & Hn & He).
  cbn [map List.filter]. rewrite Hp.
  destruct (RestrictedApp.isPreset app); [|exact IH].
  cbn [map]. rewrite Hi, Hn, He. f_equal. exact IH.
Qed.

Lemma presetEntries_step s a :
  keepsPresetFields a = true ->
  presetEntries (restrictedApps (step s a)) = presetEntries (restrictedApps s).
Proof.
  intros Hkeep.
  destruct a as [now | now newId wasNatural tasksCompleted | now | newId app | id | id
                 | id updates | nowCheck nowStop newId nowMark | ];
    cbn [step].
  - reflexivity.
  - unfold stopFocusMode.
    destruct (negb (JS.truthy (startedAt s))); [reflexivity|].
    destruct (startedAt s); reflexivity.
  - unfold updateSessionTime.
    destruct (negb (isActive s) || negb (JS.truthy (startedAt s))); [reflexivity|].
    destruct (startedAt s); reflexivity.
  - unfold addRestrictedApp, presetEntries. cbn [restrictedApps setRestrictedApps].
    rewrite List.filter_app. cbn [List.filter RestrictedApp.isPreset].
    now rewrite app_nil_r.
  - unfold removeRestrictedApp, presetEntries. cbn [restrictedApps setRestrictedApps].
    f_equal. induction (restrictedApps s) as [|x apps IH]; [reflexivity|].
    cbn [List.filter].
    destruct (RestrictedApp.isPreset x) eqn:Hp.
    + rewrite orb_true_r. cbn [List.filter]. rewrite Hp. now f_equal.
    + rewrite orb_false_r.
      destruct (negb (String.eqb (RestrictedApp.id x) id)); [|exact IH].
      cbn [List.filter]. rewrite Hp. exact IH.
  - unfold toggleRestrictedApp. cbn [restrictedApps setRestrictedApps].
    apply presetEntries_map. intros app.
    destruct (String.eqb (RestrictedApp.id app) id); repeat split.
  - unfold updateRestrictedApp. cbn [restrictedApps setRestrictedApps].
    apply presetEntries_map. intros app.
    cbn [keepsPresetFields] in Hkeep.
    destruct (updId updates); [discriminate|].
    destruct (updName updates); [discriminate|].
    destruct (updExecutableName updates); [discriminate|].
    destruct (updIsPreset updates); [discriminate|].
    destruct (String.eqb (RestrictedApp.id app) id); repeat split.
  - unfold emergencyUnlock.
    destruct (negb (canEmergencyUnlock nowCheck s)); [reflexivity|].
    cbn [snd restrictedApps setLastEmergencyUnlock]. unfold stopFocusMode.
    destruct (negb (JS.truthy (startedAt s))); [reflexivity|].
    destruct (startedAt s); reflexivity.
  - reflexivity.
Qed.

(** X12.  A preset is never removed: through any sequence of actions in which no
    [updateRestrictedApp] gives a new [id], [name], [executableName] or
    [isPreset], the preset entries of [restrictedApps] stay the same ones
    in the same order, and no entry becomes a preset.  In particular
    [removeRestrictedApp] with the identifier of a preset removes
    nothing. *)
Theorem presets_survive (actions : list Action) : forall s,
  forallb keepsPresetFields actions = true ->
  presetEntries (restrictedApps (run s actions)) = presetEntries (restrictedApps s).
Proof.
  induction actions as [|a actions IH]; intros s Hkeep; [reflexivity|].
  cbn [forallb] in Hkeep. apply andb_true_iff in Hkeep as [Ha Hrest].
  cbn [run fold_left]. fold (run (step s a) actions).
  rewrite (IH _ Hrest). now apply presetEntries_step.
Qed.

(** The four presets after a removal, a toggle, an added app and an update
    of the enabled flag. *)
Lemma presets_survive_witness :
  presetEntries (restrictedApps (run initialState presetActions))
  = [ ("steam", "Steam", "steam.exe"); ("epic", "Epic Games", "EpicGamesLauncher.exe");
      ("discord", "Discord", "Discord.exe"); ("spotify", "Spotify", "Spotify.exe") ].
Proof.
  exact (presets_survive presetActions initialState eq_refl).
Defined.

Lemma state_eta s :
  s = {| isActive := isActive s; startedAt := startedAt s;
         totalFocusTime := totalFocusTime s;
         currentSessionTime := currentSessionTime s;
         restrictedApps := restrictedApps s; sessions := sessions s;
         lastEmergencyUnlock := lastEmergencyUnlock s;
         emergencyUnlockCooldown := emergencyUnlockCooldown s |}.
Proof. now destruct s. Qed.

Lemma setRestrictedApps_same s apps :
  apps = restrictedApps s -> setRestrictedApps apps s = s.
Proof. intros ->. now destruct s. Qed.

(** X13.  Toggling an app twice gives back the state as it was, and a toggle
    touches the enabled flag of the entries with that identifier only: the
    entries with another identifier, and the identifier, name, executable
    name, path and preset flag of every entry, are as before. *)
Theorem toggleRestrictedApp_twice s id :
  toggleRestrictedApp id (toggleRestrictedApp id s) = s
  /\ map (fun app => (RestrictedApp.id app, RestrictedApp.name app,
                      RestrictedApp.executableName app, RestrictedApp.path app,
                      RestrictedApp.isPreset app))
         (restrictedApps (toggleRestrictedApp id s))
     = map (fun app => (RestrictedApp.id app, RestrictedApp.name app,
                        RestrictedApp.executableName app, RestrictedApp.path app,
                        RestrictedApp.isPreset app))
           (restrictedApps s)
  /\ map RestrictedApp.isEnabled (restrictedApps (toggleRestrictedApp id s))
     = map (fun app => if String.eqb (RestrictedApp.id app) id
                       then negb (RestrictedApp.isEnabled app)
                       else RestrictedApp.isEnabled app)
           (restrictedApps s).
Proof.
  split; [|split].
  - unfold toggleRestrictedApp at 1.
    cbn [toggleRestrictedApp restrictedApps setRestrictedApps].
    rewrite (state_eta s) at 3. unfold setRestrictedApps. cbn. f_equal.
    rewrite map_map.
    induction (restrictedApps s) as [|app apps IH]; [reflexivity|].
    cbn [map]. rewrite IH. f_equal.
    destruct (String.eqb (RestrictedApp.id app) id) eqn:Hid.
    + cbn [RestrictedApp.id]. rewrite Hid. cbn. rewrite negb_involutive.
      now destruct app.
    + now rewrite Hid.
  - cbn [toggleRestrictedApp restrictedApps setRestrictedApps].
    rewrite map_map. apply map_ext. intros app.
    now destruct (String.eqb (RestrictedApp.id app) id).
  - cbn [toggleRestrictedApp restrictedApps setRestrictedApps].
    rewrite map_map. apply map_ext. intros app.
    now destruct (String.eqb (RestrictedApp.id app) id).
Qed.

(** X14.  An app added under an identifier that no entry has yet is taken out
    again by [removeRestrictedApp] with that identifier, and the state is
    the one before the app was added. *)
Theorem addRestrictedApp_removeRestrictedApp s newId app :
  freshId newId (restrictedApps s) = true ->
  removeRestrictedApp newId (addRestrictedApp newId app s) = s.
Proof.
  intros Hfresh. unfold removeRestrictedApp, addRestrictedApp.
  cbn [restrictedApps setRestrictedApps].
  change (setRestrictedApps ?l (setRestrictedApps ?l' s)) with (setRestrictedApps l s).
  apply setRestrictedApps_same.
  rewrite List.filter_app. cbn [List.filter RestrictedApp.id RestrictedApp.isPreset].
  rewrite String.eqb_refl. cbn [negb orb]. rewrite app_nil_r.
  unfold freshId in Hfresh.
  induction (restrictedApps s) as [|x apps IH]; [reflexivity|].
  cbn [forallb] in Hfresh. apply andb_true_iff in Hfresh as [Hx Hrest].
  cbn [List.filter]. rewrite Hx. cbn [orb]. f_equal. now apply IH.
Qed.

(** A custom app added to the initial state and removed again. *)
Lemma addRestrictedApp_removeRestrictedApp_witness :
  removeRestrictedApp "1_a" (addRestrictedApp "1_a" customApp initialState) = initialState.
Proof.
  exact (addRestrictedApp_removeRestrictedApp initialState "1_a" customApp eq_refl).
Defined.

(** ** The focus-mode store: the cooldown shown *)

(** X15.  The remaining cooldown is never negative; while a session is active,
    emergency unlock is available exactly when the remaining cooldown is 0;
    and after an emergency unlock that succeeded with the clock at
    [nowMark], the remaining cooldown at [now] is what is left of the
    cooldown period since [nowMark]. *)
Theorem cooldown_remaining_agrees s now :
  0 <= getEmergencyUnlockCooldownRemaining now s
  /\ (isActive s = true ->
      (canEmergencyUnlock now s = true <-> getEmergencyUnlockCooldownRemaining now s = 0))
  /\ (forall nowCheck nowStop newId nowMark s',
        emergencyUnlock nowCheck nowStop newId nowMark s = (true, s') ->
        nowMark <> 0 ->
        getEmergencyUnlockCooldownRemaining now s'
        = Z.max 0 (emergencyUnlockCooldown s - (now - nowMark))).
Proof.
  split; [|split].
  - unfold getEmergencyUnlockCooldownRemaining.
    destruct (negb (JS.truthy (lastEmergencyUnlock s))); [lia|].
    destruct (lastEmergencyUnlock s); lia.
  - intros Hactive. unfold canEmergencyUnlock, getEmergencyUnlockCooldownRemaining.
    rewrite Hactive. cbn [negb].
    destruct (negb (JS.truthy (lastEmergencyUnlock s))); [tauto|].
    destruct (lastEmergencyUnlock s) as [last|]; [|tauto].
    rewrite Z.leb_le. lia.
  - intros nowCheck nowStop newId nowMark s' Hunlock Hmark.
    unfold emergencyUnlock in Hunlock.
    destruct (negb (canEmergencyUnlock nowCheck s)); [discriminate|].
    injection Hunlock as <-.
    unfold getEmergencyUnlockCooldownRemaining.
    cbn [lastEmergencyUnlock emergencyUnlockCooldown setLastEmergencyUnlock].
    assert (Ht : JS.truthy (Some nowMark) = true) by now apply truthy_Some.
    rewrite Ht. cbn [negb]. f_equal. f_equal.
    unfold stopFocusMode.
    destruct (negb (JS.truthy (startedAt s))); [reflexivity|].
    destruct (startedAt s); reflexivity.
Qed.

(** ** The focus-mode store: the total shown *)

(** X16.  With a total (accumulated and current session time) of less than
    [2^51] ms either way, [getTotalFocusTimeFormatted] shows the whole
    minutes of the total: below an hour the minutes alone, from an hour on
    the whole hours and the minutes left, which are below 60.  A negative
    total never shows hours: it shows the part beyond the whole hours in
    minutes, rounded away from zero, so that -1 ms reads as -1m. *)
Theorem getTotalFocusTimeFormatted_minutes s :
  let total := totalFocusTime s + currentSessionTime s in
  - 2 ^ 51 < total < 2 ^ 51 ->
  getTotalFocusTimeFormatted s
  = if 0 <=? total then
      let minutes := total / 60000 in
      if minutes <? 60 then JS.toString minutes +:+ "m"
      else JS.toString (minutes / 60) +:+ "h " +:+ JS.toString (minutes mod 60) +:+ "m"
    else JS.toString (Z.rem total 3600000 / 60000) +:+ "m".
Proof.
  intros total Hrange. unfold getTotalFocusTimeFormatted, formatTime. fold total.
  change (2 ^ 51) with 2251799813685248 in Hrange.
  pose proof (Z.rem_bound_abs total 3600000 ltac:(lia)) as Hrem.
  change (Z.abs 3600000) with 3600000 in Hrem.
  rewrite (floorDiv_exact total 3600000 22);
    [| change (2 ^ 52) with 4503599627370496; lia
     | change (2 ^ 52) with 4503599627370496; lia
     | lia
     | change (2 ^ 22) with 4194304; lia
     | change (2 ^ (52 - 22)) with 1073741824; lia ].
  rewrite (floorDiv_exact (Z.rem total 3600000) 60000 16);
    [| change (2 ^ 52) with 4503599627370496; lia
     | change (2 ^ 52) with 4503599627370496; lia
     | lia
     | change (2 ^ 16) with 65536; lia
     | change (2 ^ (52 - 16)) with 68719476736; lia ].
  destruct (0 <=? total) eqn:Hsign.
  - apply Z.leb_le in Hsign. cbv zeta.
    rewrite Z.rem_mod_nonneg by lia.
    assert (Hh : total / 3600000 = total / 60000 / 60)
      by (rewrite Z.div_div by lia; reflexivity).
    assert (Hm : total mod 3600000 / 60000 = (total / 60000) mod 60).
    { change 3600000 with (60000 * 60). rewrite Z.rem_mul_r by lia.
      rewrite (Z.mul_comm 60000), Z.div_add by lia.
      rewrite Z.div_small by (apply Z.mod_pos_bound; lia). reflexivity. }
    rewrite Hh, Hm.
    destruct (total / 60000 <? 60) eqn:Hlt.
    + apply Z.ltb_lt in Hlt.
      pose proof (Z.div_pos (total / 60000) 60 ltac:(apply Z.div_pos; lia) ltac:(lia)).
      rewrite Z.div_small by (split; [apply Z.div_pos; lia | lia]).
      cbn [Z.ltb Z.compare]. rewrite Z.mod_small; [reflexivity|].
      split; [apply Z.div_pos; lia | lia].
    + apply Z.ltb_ge in Hlt.
      assert (H1 : 0 < total / 60000 / 60)
        by (apply Z.div_str_pos; lia).
      apply Z.ltb_lt in H1. rewrite H1. reflexivity.
  - apply Z.leb_gt in Hsign.
    assert (H1 : total / 3600000 < 0) by (apply Z.div_lt_upper_bound; lia).
    assert (H2 : (0 <? total / 3600000) = false) by (apply Z.ltb_ge; lia).
    rewrite H2. reflexivity.
Qed.

(** One hour, one minute and a half. *)
Lemma getTotalFocusTimeFormatted_minutes_witness :
  getTotalFocusTimeFormatted (withTimes 3600000 90000) = "1h 1m".
Proof.
  refine (getTotalFocusTimeFormatted_minutes (withTimes 3600000 90000) _).
  cbn. lia.
Defined.

End StoreExtras.

(** ** The sticky-note store *)

Section Notes.
Import StickyNoteStore.

Implicit Types (s : StickyNoteState) (note : StickyNote.t) (l : list StickyNote.t).

Lemma hasId_other id id' note :
  id' <> id -> hasId id note = true -> hasId id' note = false.
Proof.
  unfold hasId. intros Hne Hid. apply String.eqb_eq in Hid.
  apply String.eqb_neq. congruence.
Qed.

Lemma find_removed id l :
  List.find (hasId id) (List.filter (otherThan id) l) = None.
Proof.
  induction l as [|note l IH]; [reflexivity|].
  cbn [List.filter]. unfold otherThan at 1.
  destruct (hasId id note) eqn:Hid; cbn [negb]; [exact IH|].
  cbn [List.find]. now rewrite Hid.
Qed.

Lemma find_kept id id' l :
  id' <> id ->
  List.find (hasId id') (List.filter (otherThan id) l) = List.find (hasId id') l.
Proof.
  intros Hne. induction l as [|note l IH]; [reflexivity|].
  cbn [List.filter List.find]. unfold otherThan at 1.
  destruct (hasId id note) eqn:Hid; cbn [negb].
  - now rewrite (hasId_other id id' note Hne Hid).
  - cbn [List.find]. now rewrite IH.
Qed.

(** X17.  After [deleteNote], no note is found under the deleted identifier and
    the deleted note is not the active one; the notes under the other
    identifiers are found as before, and another active note stays
    active. *)
Theorem deleteNote_removes s id :
  getNoteById id (deleteNote id s) = None
  /\ activeNoteId (deleteNote id s) <> Some id
  /\ (forall id', id' <> id ->
        getNoteById id' (deleteNote id s) = getNoteById id' s
        /\ (activeNoteId s = Some id' -> activeNoteId (deleteNote id s) = Some id')).
Proof.
  split; [|split].
  - apply find_removed.
  - cbn [deleteNote activeNoteId].
    destruct (activeNoteId s) as [active|]; [|discriminate].
    destruct (String.eqb active id) eqn:Hid; [discriminate|].
    apply String.eqb_neq in Hid. congruence.
  - intros id' Hne. split.
    + now apply find_kept.
    + intros Hactive. cbn [deleteNote activeNoteId]. rewrite Hactive.
      apply String.eqb_neq in Hne. now rewrite Hne.
Qed.

(** *** Bringing a note to the front *)

Lemma findIndex_find {A} (p : A -> bool) (l : list A) :
  match JSArray.findIndex p l with
  | Some i => nth_error l i = List.find p l /\ List.find p l <> None
  | None => List.find p l = None
  end.
Proof.
  induction l as [|a l IH]; [reflexivity|].
  cbn [JSArray.findIndex List.find].
  destruct (p a); [split; [reflexivity | discriminate]|].
  destruct (JSArray.findIndex p l); exact IH.
Qed.

Lemma bringToFront_found s id note :
  getNoteById id s = Some note ->
  bringToFront id s
  = {| notes := List.filter (otherThan id) (notes s) ++ [note];
       activeNoteId := Some id |}.
Proof.
  unfold getNoteById, bringToFront. intros Hfound.
  pose proof (findIndex_find (hasId id) (notes s)) as Hidx.
  destruct (JSArray.findIndex (hasId id) (notes s)) as [i|].
  - destruct Hidx as [Hnth _]. rewrite Hnth, Hfound. reflexivity.
  - congruence.
Qed.

Lemma bringToFront_missing s id :
  getNoteById id s = None -> bringToFront id s = s.
Proof.
  unfold getNoteById, bringToFront. intros Hmissing.
  pose proof (findIndex_find (hasId id) (notes s)) as Hidx.
  destruct (JSArray.findIndex (hasId id) (notes s)) as [i|]; [|reflexivity].
  destruct Hidx as [_ Hsome]. congruence.
Qed.

Lemma filter_all_others id l :
  ~ In id (map StickyNote.id l) -> List.filter (otherThan id) l = l.
Proof.
  induction l as [|note l IH]; [reflexivity|].
  cbn [map In List.filter]. intros Hnot. unfold otherThan at 1, hasId.
  destruct (String.eqb (StickyNote.id note) id) eqn:Hid.
  - apply String.eqb_eq in Hid. tauto.
  - cbn [negb]. f_equal. apply IH. tauto.
Qed.

Lemma front_permutation id note l :
  List.NoDup (map StickyNote.id l) ->
  List.find (hasId id) l = Some note ->
  Permutation (List.filter (otherThan id) l ++ [note]) l.
Proof.
  induction l as [|a l IH]; [discriminate|].
  cbn [map List.find List.filter]. intros Hnodup Hfound.
  apply List.NoDup_cons_iff in Hnodup as [Hfresh Hnodup].
  unfold otherThan at 1. destruct (hasId id a) eqn:Hid; cbn [negb].
  - injection Hfound as <-. unfold hasId in Hid. apply String.eqb_eq in Hid.
    rewrite filter_all_others by (now rewrite <- Hid).
    symmetry. apply Permutation_cons_append.
  - cbn [List.app]. apply perm_skip. now apply IH.
Qed.

Lemma filter_others_idem id l :
  List.filter (otherThan id) (List.filter (otherThan id) l) = List.filter (otherThan id) l.
Proof.
  induction l as [|a l IH]; [reflexivity|].
  cbn [List.filter]. destruct (otherThan id a) eqn:Ha; [|exact IH].
  cbn [List.filter]. rewrite Ha. now f_equal.
Qed.

Lemma find_app_missing {A} (p : A -> bool) (l l' : list A) :
  List.find p l = None -> List.find p (l ++ l') = List.find p l'.
Proof.
  induction l as [|a l IH]; [reflexivity|].
  cbn [List.find List.app]. destruct (p a); [discriminate | exact IH].
Qed.

Lemma find_app_found {A} (p : A -> bool) (l l' : list A) (a : A) :
  List.find p l = Some a -> List.find p (l ++ l') = Some a.
Proof.
  induction l as [|b l IH]; [discriminate|].
  cbn [List.find List.app]. destruct (p b); [auto | exact IH].
Qed.

(** X18.  [bringToFront] with an identifier that no note has changes nothing.
    With the identifier of a note it makes that note the active one and
    moves it behind all the others, which keep their order; a second call
    changes nothing more.  When the identifiers of the notes are distinct
    the notes are the same ones as before, rearranged. *)
Theorem bringToFront_moves_last s id :
  (getNoteById id s = None -> bringToFront id s = s)
  /\ (forall note,
        getNoteById id s = Some note ->
        notes (bringToFront id s) = List.filter (otherThan id) (notes s) ++ [note]
        /\ activeNoteId (bringToFront id s) = Some id
        /\ (List.NoDup (map StickyNote.id (notes s)) ->
            Permutation (notes (bringToFront id s)) (notes s)))
  /\ bringToFront id (bringToFront id s) = bringToFront id s.
Proof.
  split; [apply bringToFront_missing|]. split.
  - intros note Hfound. rewrite (bringToFront_found s id note Hfound).
    cbn [notes activeNoteId]. split; [reflexivity|]. split; [reflexivity|].
    intros Hnodup. now apply front_permutation.
  - destruct (getNoteById id s) as [note|] eqn:Hfound.
    + rewrite (bringToFront_found s id note Hfound).
      assert (Hid : hasId id note = true).
      { unfold getNoteById in Hfound. now apply List.find_some in Hfound as [_ Hid]. }
      rewrite (bringToFront_found _ id note).
      * cbn [notes]. rewrite List.filter_app, filter_others_idem.
        cbn [List.filter]. unfold otherThan at 2. rewrite Hid. cbn [negb].
        now rewrite app_nil_r.
      * unfold getNoteById. cbn [notes].
        rewrite find_app_missing by apply find_removed.
        cbn [List.find]. now rewrite Hid.
    + now rewrite !(bringToFront_missing s id Hfound).
Qed.

(** The last of three notes brought forward: the notes are as before. *)
Lemma bringToFront_moves_last_witness :
  Permutation (notes (bringToFront "a" threeNotes)) (notes threeNotes).
Proof.
  refine (proj2 (proj2 (proj1 (proj2 (bringToFront_moves_last threeNotes "a"))
                          (plainNote "a") eq_refl)) _).
  repeat constructor; cbn; intuition discriminate.
Defined.

(** *** Adding a note *)

Lemma find_added newId note l :
  StickyNote.id note = newId ->
  List.find (hasId newId) (l ++ [note])
  = match List.find (hasId newId) l with
    | Some older => Some older
    | None => Some note
    end.
Proof.
  intros Hid. destruct (List.find (hasId newId) l) as [older|] eqn:Hfound.
  - now apply find_app_found.
  - rewrite (find_app_missing _ _ _ Hfound). cbn [List.find].
    unfold hasId. rewrite Hid. now rewrite String.eqb_refl.
Qed.


(** X19.  [addNote] returns the identifier it was given by [generateNoteId],
    puts the new note behind the others and makes it the active one.  A
    lookup under that identifier finds the new note, unless an older note
    already has the identifier: then it finds the older one.  Lookups
    under other identifiers are not affected.  A note added without a
    position is placed at [100 + 30 * (n mod 5)] in both directions, [n]
    being the number of notes before: between 100 and 220, and at the same
    place as the note added five notes earlier. *)
Theorem addNote_lookup newId now payload s :
  let out := addNote newId now payload s in
  let note := newNote newId now payload (notes s) in
  out.1 = newId
  /\ notes out.2 = notes s ++ [note]
  /\ activeNoteId out.2 = Some newId
  /\ getNoteById newId out.2
     = match getNoteById newId s with
       | Some older => Some older
       | None => Some note
       end
  /\ (forall id, id <> newId -> getNoteById id out.2 = getNoteById id s)
  /\ (Optional.field payload CreateStickyNotePayload.position = None ->
      StickyNotePosition.x (StickyNote.position note)
      = 100 + 30 * (Z.of_nat (List.length (notes s)) mod 5)
      /\ StickyNotePosition.y (StickyNote.position note)
         = StickyNotePosition.x (StickyNote.position note)
      /\ 100 <= StickyNotePosition.x (StickyNote.position note) <= 220
      /\ (forall s',
            List.length (notes s') = (List.length (notes s) + 5)%nat ->
            StickyNote.position (newNote newId now payload (notes s'))
            = StickyNote.position note)).
Proof.
  cbv zeta. cbn [addNote fst snd notes activeNoteId].
  split; [reflexivity|]. split; [reflexivity|]. split; [reflexivity|].
  split; [|split].
  - unfold getNoteById. cbn [notes]. now apply find_added.
  - intros id Hne. unfold getNoteById. cbn [notes].
    destruct (List.find (hasId id) (notes s)) as [found|] eqn:Hfound.
    + now apply find_app_found.
    + rewrite (find_app_missing _ _ _ Hfound). cbn [List.find].
      unfold hasId. cbn [StickyNote.id newNote].
      assert (Hneq : String.eqb newId id = false) by (apply String.eqb_neq; congruence).
      now rewrite Hneq.
  - intros Hgiven. unfold newNote.
    cbn [StickyNote.position StickyNotePosition.x StickyNotePosition.y].
    rewrite Hgiven. cbn [Optional.field Optional.orElse DEFAULT_POSITION StickyNotePosition.x
                         StickyNotePosition.y StickyNotePosition.width
                         StickyNotePosition.height].
    assert (Hmod : Z.of_nat (List.length (notes s) mod 5)
                   = Z.of_nat (List.length (notes s)) mod 5)
      by (rewrite Nat2Z.inj_mod; reflexivity).
    pose proof (Z.mod_pos_bound (Z.of_nat (List.length (notes s))) 5 ltac:(lia)) as Hb.
    rewrite Hmod. split; [lia|]. split; [reflexivity|]. split; [lia|].
    intros s' Hlen. rewrite Hlen.
    replace ((List.length (notes s) + 5) mod 5)%nat with (List.length (notes s) mod 5)%nat.
    + now rewrite Hmod.
    + rewrite <- (Nat.Div0.add_mod_idemp_r _ 5 5). cbn [Nat.modulo].
      change (5 mod 5)%nat with 0%nat. now rewrite Nat.add_0_r.
Qed.

(** *** The notes an edit leaves alone *)

Lemma mapFrom_identity id (change : Z -> StickyNote.t -> StickyNote.t) (now : nat -> Z) l :
  (forall t note, identity (change t note) = identity note) ->
  forall i,
    map identity (JSArray.mapFrom
                    (fun i note => if hasId id note then change (now i) note else note) i l)
    = map identity l.
Proof.
  intros Hchange. induction l as [|note l IH]; intros i; [reflexivity|].
  cbn [JSArray.mapFrom map]. rewrite IH. f_equal.
  destruct (hasId id note); [apply Hchange | reflexivity].
Qed.

Lemma mapFrom_others id (change : Z -> StickyNote.t -> StickyNote.t) (now : nat -> Z) l :
  (forall t note, identity (change t note) = identity note) ->
  forall i,
    List.filter (otherThan id)
      (JSArray.mapFrom
         (fun i note => if hasId id note then change (now i) note else note) i l)
    = List.filter (otherThan id) l.
Proof.
  intros Hchange. induction l as [|note l IH]; intros i; [reflexivity|].
  cbn [JSArray.mapFrom].
  destruct (hasId id note) eqn:Hid.
  - assert (Hsame : hasId id (change (now i) note) = true).
    { unfold hasId in *. pose proof (Hchange (now i) note) as Hc.
      unfold identity in Hc. injection Hc as Hc _. now rewrite Hc. }
    cbn [List.filter].
    replace (otherThan id (change (now i) note)) with false
      by (unfold otherThan; now rewrite Hsame).
    replace (otherThan id note) with false by (unfold otherThan; now rewrite Hid).
    apply IH.
  - cbn [List.filter]. rewrite IH. reflexivity.
Qed.

Lemma mapFrom_missing id (change : Z -> StickyNote.t -> StickyNote.t) (now : nat -> Z) l :
  List.find (hasId id) l = None ->
  forall i,
    JSArray.mapFrom (fun i note => if hasId id note then change (now i) note else note) i l
    = l.
Proof.
  induction l as [|note l IH]; intros Hmissing i; [reflexivity|].
  cbn [List.find] in Hmissing. cbn [JSArray.mapFrom].
  destruct (hasId id note); [discriminate|]. f_equal. now apply IH.
Qed.

Lemma rebuild_identity id change now s :
  (forall t note, identity (change t note) = identity note) ->
  map identity (notes (rebuild id change now s)) = map identity (notes s)
  /\ List.filter (otherThan id) (notes (rebuild id change now s))
     = List.filter (otherThan id) (notes s)
  /\ activeNoteId (rebuild id change now s) = activeNoteId s.
Proof.
  intros Hchange. cbn [rebuild notes activeNoteId]. unfold JSArray.mapIndexed.
  split; [now apply mapFrom_identity|]. split; [now apply mapFrom_others | reflexivity].
Qed.

Lemma edit_rebuilds s a id :
  editedId a = Some id ->
  exists change now,
    step s a = rebuild id change now s
    /\ forall t note, identity (change t note) = identity note.
Proof.
  intros Hedit.
  destruct a as [newId now payload | id0 payload now | id0 | id0 position now | id0
                 | id0 now | id0 now | id0 | loaded | ];
    try discriminate; injection Hedit as ->; cbn [step].
  - exists (updated payload), now. split; reflexivity.
  - exists (moved position), now. split; reflexivity.
  - exists pinned, now. split; reflexivity.
  - exists folded, now. split; reflexivity.
Qed.

(** X20.  An edit of a note ([updateNote], [updatePosition], [toggleAlwaysOnTop],
    [toggleMinimized]) adds and removes no note and keeps the order: the
    notes have the identifiers and creation times they had, the notes
    under other identifiers are exactly as before, and the active note is
    the same.  With an identifier that no note has, nothing changes. *)
Theorem edits_keep_identity s a id :
  editedId a = Some id ->
  map identity (notes (step s a)) = map identity (notes s)
  /\ List.filter (otherThan id) (notes (step s a)) = List.filter (otherThan id) (notes s)
  /\ activeNoteId (step s a) = activeNoteId s
  /\ (getNoteById id s = None -> step s a = s).
Proof.
  intros Hedit.
  destruct (edit_rebuilds s a id Hedit) as (change & now & Hstep & Hchange).
  rewrite Hstep.
  destruct (rebuild_identity id change now s Hchange) as (H1 & H2 & H3).
  split; [exact H1|]. split; [exact H2|]. split; [exact H3|].
  intros Hmissing. destruct s as [l active]. unfold rebuild, getNoteById in *.
  cbn [notes activeNoteId] in *. f_equal. now apply mapFrom_missing.
Qed.

(** The second of three notes minimised. *)
Lemma edits_keep_identity_witness :
  map identity (notes (step threeNotes (ToggleMinimized "b" (fun _ => 5))))
  = map identity (notes threeNotes).
Proof.
  exact (proj1 (edits_keep_identity threeNotes (ToggleMinimized "b" (fun _ => 5)) "b"
                  eq_refl)).
Defined.

(** *** The active note *)

Lemma find_identity id l l' :
  map identity l = map identity l' ->
  List.find (hasId id) l = None -> List.find (hasId id) l' = None.
Proof.
  revert l'. induction l as [|note l IH]; intros [|note' l'] Hmap; try discriminate;
    [reflexivity|].
  cbn [map] in Hmap. unfold identity at 1 3 in Hmap. injection Hmap as Hid _ Hrest.
  cbn [List.find]. unfold hasId at 1 3. rewrite Hid.
  destruct (String.eqb (StickyNote.id note') id); [discriminate|].
  now apply IH.
Qed.

Lemma activeExists_step s a :
  keepsSelection a = true -> activeExists s -> activeExists (step s a).
Proof.
  intros Hkeep Hs.
  destruct (editedId a) as [id|] eqn:Hedit.
  - destruct (edit_rebuilds s a id Hedit) as (change & now & Hstep & Hchange).
    destruct (rebuild_identity id change now s Hchange) as (Hids & _ & Hactive).
    rewrite <- Hstep in Hids, Hactive.
    unfold activeExists in *. rewrite Hactive.
    destruct (activeNoteId s) as [active|]; [|exact I].
    intros Hnone. apply Hs. unfold getNoteById in *.
    now apply (find_identity active (notes (step s a)) (notes s)).
  - destruct a as [newId now payload | id0 payload now | id0 | id0 position now | id0
                   | id0 now | id0 now | [id0|] | loaded | ];
      try discriminate; cbn [step].
    + unfold activeExists, getNoteById. cbn [addNote snd activeNoteId notes].
      rewrite (find_added newId (newNote newId now payload (notes s)) (notes s) eq_refl).
      destruct (List.find (hasId newId) (notes s)); discriminate.
    + unfold activeExists in *. cbn [deleteNote activeNoteId].
      destruct (activeNoteId s) as [active|] eqn:Hactive; [|exact I].
      destruct (String.eqb active id0) eqn:Hid; [exact I|].
      apply String.eqb_neq in Hid.
      unfold getNoteById in *. cbn [notes].
      change (List.find (hasId active) (List.filter (otherThan id0) (notes s)) <> None).
      now rewrite (find_kept id0 active (notes s) Hid).
    + destruct (getNoteById id0 s) as [note|] eqn:Hfound.
      * rewrite (bringToFront_found s id0 note Hfound).
        unfold activeExists, getNoteById. cbn [activeNoteId notes].
        rewrite find_app_missing by apply find_removed.
        cbn [List.find].
        unfold getNoteById in Hfound. apply List.find_some in Hfound as [_ Hid].
        rewrite Hid. discriminate.
      * now rewrite (bringToFront_missing s id0 Hfound).
    + exact I.
    + exact I.
Qed.

(** X21.  The active note is never a note that is gone: from a state in which
    the active note, if any, is a note of the store (the initial state is
    one), through any sequence of [addNote], [updateNote], [deleteNote],
    [updatePosition], [bringToFront], the two toggles, [clearNotes] and
    [setActiveNote(null)], the active note is found by [getNoteById]. *)
Theorem active_note_exists (actions : list Action) : forall s,
  activeExists s ->
  forallb keepsSelection actions = true ->
  activeExists (run s actions).
Proof.
  induction actions as [|a actions IH]; intros s Hs Hkeep; [exact Hs|].
  cbn [forallb] in Hkeep. apply andb_true_iff in Hkeep as [Ha Hrest].
  cbn [run fold_left]. apply IH; [|exact Hrest]. now apply activeExists_step.
Qed.

(** From three notes with the last one active: after a note is added,
    the first note brought to the front, the added note deleted and the
    first note minimised, the first note is the active one and is found. *)
Lemma active_note_exists_witness :
  activeNoteId (run threeNotes noteActions) = Some "a"
  /\ getNoteById "a" (run threeNotes noteActions) <> None.
Proof.
  split; [reflexivity|].
  refine (active_note_exists noteActions threeNotes _ eq_refl).
  cbn. discriminate.
Defined.

End Notes.

(** ** The task store *)

Section Tasks.
Import TaskStore.

Implicit Types (s : TaskState) (task : Task.t) (l : list Task.t).

(** X22.  The store and [UnlockService] read a task list in the same way: on the
    tasks of the store, [areAllTasksCompleted] of the store is [canUnlock]
    of [evaluateUnlockCondition] (and [areAllTasksCompleted] of the
    service), [getCompletionPercentage] is its [completionPercentage], the
    completed tasks are counted alike, and the pending tasks are among the
    remaining ones. *)
Theorem store_agrees_with_service s :
  let r := UnlockService.evaluateUnlockCondition (tasks s) in
  areAllTasksCompleted s = UnlockConditionResult.canUnlock r
  /\ areAllTasksCompleted s = UnlockService.areAllTasksCompleted (tasks s)
  /\ getCompletionPercentage s = UnlockConditionResult.completionPercentage r
  /\ List.length (getCompletedTasks s) = UnlockConditionResult.completedTasks r
  /\ (List.length (getPendingTasks s) <= UnlockConditionResult.remainingTasks r)%nat.
Proof.
  cbv zeta.
  assert (Hsame : areAllTasksCompleted s = UnlockService.areAllTasksCompleted (tasks s))
    by reflexivity.
  split; [|split; [exact Hsame|split; [|split]]].
  - rewrite Hsame. unfold UnlockService.areAllTasksCompleted, UnlockService.evaluateUnlockCondition.
    cbn -[UnlockService.percentage Nat.ltb Nat.eqb].
    rewrite forallb_filter_length.
    destruct (tasks s) as [|task l]; reflexivity.
  - unfold getCompletionPercentage, UnlockService.evaluateUnlockCondition.
    cbn -[UnlockService.percentage Nat.ltb Nat.eqb].
    destruct (tasks s) as [|task l]; reflexivity.
  - reflexivity.
  - unfold getPendingTasks, UnlockService.evaluateUnlockCondition.
    cbn -[UnlockService.percentage Nat.ltb Nat.eqb].
    assert (Hle : (List.length (List.filter
                     (fun task => TaskStatus_eqb (Task.status task) PENDING) (tasks s))
                   <= List.length (List.filter
                        (fun a => negb (UnlockService.isCompleted a)) (tasks s)))%nat).
    { clear Hsame. induction (tasks s) as [|task l IH]; [reflexivity|].
      cbn [List.filter]. unfold UnlockService.isCompleted at 1.
      destruct (Task.status task); cbn [TaskStatus_eqb negb List.length]; lia. }
    pose proof (filter_negb_length UnlockService.isCompleted (tasks s)) as Hsum.
    lia.
Qed.

(** *** Status and completion time *)

Lemma mapFrom_Forall {A} (P : A -> Prop) (f : nat -> A -> A) (l : list A) :
  (forall i a, P a -> P (f i a)) ->
  forall i, Forall P l -> Forall P (JSArray.mapFrom f i l).
Proof.
  intros Hf. induction l as [|a l IH]; intros i Hl; [constructor|].
  cbn [JSArray.mapFrom]. apply Forall_cons_iff in Hl as [Ha Hl].
  constructor; [now apply Hf | now apply IH].
Qed.

Lemma timed_updated payload now task :
  timed task = true -> timed (updatedTask payload now task) = true.
Proof.
  unfold timed, updatedTask. cbn [Task.status Task.completedAt].
  destruct (UpdateTaskPayload.status payload) as [[]|]; cbn [Optional.orElse];
    [reflexivity | reflexivity | now destruct (Task.completedAt task) | auto].
Qed.

Lemma timed_updateTask id payload now s :
  Forall (fun task => timed task = true) (tasks s) ->
  Forall (fun task => timed task = true) (tasks (updateTask id payload now s)).
Proof.
  intros Hs. cbn [updateTask tasks]. unfold JSArray.mapIndexed.
  apply mapFrom_Forall; [|exact Hs].
  intros i task Htask. destruct (String.eqb (Task.id task) id); [|exact Htask].
  now apply timed_updated.
Qed.

Lemma timed_step s a :
  loadsTimed a = true ->
  Forall (fun task => timed task = true) (tasks s) ->
  Forall (fun task => timed task = true) (tasks (step s a)).
Proof.
  intros Hload Hs.
  destruct a as [newId now payload | id payload now | id | id now | id | loaded | | loading
                 | message]; cbn [step].
  - cbn [addTask tasks]. constructor; [reflexivity | exact Hs].
  - now apply timed_updateTask.
  - cbn [deleteTask tasks]. apply List.Forall_forall. intros task Hin.
    apply List.filter_In in Hin as [Hin _].
    now apply (proj1 (List.Forall_forall _ _) Hs).
  - now apply timed_updateTask.
  - now apply timed_updateTask.
  - cbn [setTasks tasks]. cbn [loadsTimed] in Hload.
    apply List.Forall_forall. intros task Hin.
    now apply (proj1 (forallb_forall _ _) Hload).
  - constructor.
  - exact Hs.
  - exact Hs.
Qed.

(** X23.  In the store, the completion time follows the status: whatever
    sequence of actions is run from the initial state, with [setTasks]
    loading only tasks of which this is true, every pending task has no
    completion time and every completed task has one. *)
Theorem completedAt_follows_status (actions : list Action) :
  forallb loadsTimed actions = true ->
  Forall (fun task =>
            (Task.status task = PENDING -> Task.completedAt task = None)
            /\ (Task.status task = COMPLETED -> Task.completedAt task <> None))
         (tasks (run initialState actions)).
Proof.
  intros Hload.
  assert (H : forall s, Forall (fun task => timed task = true) (tasks s) ->
                        Forall (fun task => timed task = true) (tasks (run s actions))).
  { induction actions as [|a actions IH]; intros s Hs; [exact Hs|].
    cbn [forallb] in Hload. apply andb_true_iff in Hload as [Ha Hrest].
    cbn [run fold_left]. apply (IH Hrest). now apply timed_step. }
  specialize (H initialState ltac:(constructor)).
  eapply List.Forall_impl; [|exact H].
  intros task Htimed. unfold timed in Htimed.
  destruct (Task.status task), (Task.completedAt task); split; intros Hst;
    try discriminate; try reflexivity.
Qed.

(** A task added, completed, cancelled and made pending again. *)
Lemma completedAt_follows_status_witness :
  Forall (fun task =>
            (Task.status task = PENDING -> Task.completedAt task = None)
            /\ (Task.status task = COMPLETED -> Task.completedAt task <> None))
         (tasks (run initialState taskActions)).
Proof.
  exact (completedAt_follows_status taskActions eq_refl).
Defined.

(** *** Completing the tasks *)

Lemma mapFrom_length {A B} (f : nat -> A -> B) (l : list A) : forall i,
  List.length (JSArray.mapFrom f i l) = List.length l.
Proof.
  induction l as [|a l IH]; intros i; [reflexivity|].
  cbn [JSArray.mapFrom List.length]. now rewrite IH.
Qed.

(** What is left to be completed after a call of [completeTask]. *)
Lemma completeTask_progress id now (rest : list string) l : forall i,
  forallb (fun task => UnlockService.isCompleted task
                       || existsb (String.eqb (Task.id task)) (id :: rest)) l = true ->
  forallb (fun task => UnlockService.isCompleted task
                       || existsb (String.eqb (Task.id task)) rest)
          (JSArray.mapFrom
             (fun i task =>
                if String.eqb (Task.id task) id
                then updatedTask (statusOnly COMPLETED) (now i) task
                else task) i l) = true.
Proof.
  induction l as [|task l IH]; intros i Hl; [reflexivity|].
  cbn [forallb] in Hl. apply andb_true_iff in Hl as [Htask Hl].
  cbn [JSArray.mapFrom forallb]. rewrite (IH _ Hl), andb_true_r.
  destruct (String.eqb (Task.id task) id) eqn:Hid; [reflexivity|].
  cbn [existsb] in Htask. now rewrite Hid in Htask.
Qed.

Lemma forallb_same {A} (f g : A -> bool) (l : list A) :
  (forall a, f a = g a) -> forallb f l = forallb g l.
Proof.
  intros Hfg. induction l as [|a l IH]; [reflexivity|].
  cbn [forallb]. now rewrite Hfg, IH.
Qed.

Lemma completeEach_all (calls : list (string * (nat -> Z))) : forall s,
  forallb (fun task => UnlockService.isCompleted task
                       || existsb (String.eqb (Task.id task)) (map fst calls))
          (tasks s) = true ->
  forallb UnlockService.isCompleted (tasks (completeEach calls s)) = true
  /\ List.length (tasks (completeEach calls s)) = List.length (tasks s).
Proof.
  induction calls as [|[id now] calls IH]; intros s Hs.
  - split; [|reflexivity]. cbn [completeEach fold_left].
    rewrite <- Hs. apply forallb_same. intros task. cbn [map existsb].
    now rewrite orb_false_r.
  - cbn [completeEach fold_left fst snd].
    fold (completeEach calls (completeTask id now s)).
    destruct (IH (completeTask id now s)) as [Hall Hlen].
    + cbn [completeTask updateTask tasks]. unfold JSArray.mapIndexed.
      now apply completeTask_progress.
    + split; [exact Hall|]. rewrite Hlen.
      cbn [completeTask updateTask tasks]. apply mapFrom_length.
Qed.

(** X24.  When [completeTask] has been called for every task of a store that is
    not empty, in any order and any number of times, every task is
    completed: the store reports [areAllTasksCompleted], and
    [processTaskCompletion] of any unlock service answers the tasks of the
    store with [full_unlock].  A task added afterwards takes that away. *)
Theorem completing_every_task_unlocks calls s :
  tasks s <> [] ->
  namesEvery calls (tasks s) = true ->
  areAllTasksCompleted (completeEach calls s) = true
  /\ (forall this,
        option_map UnlockNotification.type
          (UnlockService.processTaskCompletion this (tasks (completeEach calls s))).1
        = Some full_unlock)
  /\ (forall newId now payload,
        areAllTasksCompleted (addTask newId now payload (completeEach calls s)) = false).
Proof.
  intros Hne Hnames.
  destruct (completeEach_all calls s) as [Hall Hlen].
  { unfold namesEvery in Hnames. apply forallb_forall. intros task Hin.
    rewrite forallb_forall in Hnames. rewrite (Hnames task Hin). apply orb_true_r. }
  assert (Hdone : areAllTasksCompleted (completeEach calls s) = true).
  { unfold areAllTasksCompleted.
    destruct (tasks (completeEach calls s)) as [|task l] eqn:Htasks.
    - destruct (tasks s); [congruence | discriminate].
    - exact Hall. }
  split; [exact Hdone|]. split.
  - intros this. unfold UnlockService.processTaskCompletion.
    assert (Hcan : UnlockConditionResult.canUnlock
                     (UnlockService.evaluateUnlockCondition (tasks (completeEach calls s)))
                   = true).
    { unfold UnlockService.evaluateUnlockCondition.
      cbn -[UnlockService.percentage Nat.ltb Nat.eqb].
      rewrite forallb_filter_length in Hall. rewrite Hall, andb_true_r.
      apply Nat.ltb_lt. rewrite Hlen. destruct (tasks s); [congruence | cbn; lia]. }
    rewrite Hcan. reflexivity.
  - intros newId now payload. reflexivity.
Qed.

(** Two pending tasks, completed in the reverse order. *)
Lemma completing_every_task_unlocks_witness :
  areAllTasksCompleted
    (completeEach [("2", fun _ => 5); ("1", fun _ => 6)] twoPending) = true.
Proof.
  refine (proj1 (completing_every_task_unlocks
                   [("2", fun _ => 5); ("1", fun _ => 6)] twoPending _ eq_refl)).
  discriminate.
Defined.

Lemma uncomplete_complete id now l : forall i j,
  pendingAt id l = true ->
  JSArray.mapFrom
    (fun i task =>
       if String.eqb (Task.id task) id
       then updatedTask (statusOnly PENDING) 0 task else task) j
    (JSArray.mapFrom
       (fun i task =>
          if String.eqb (Task.id task) id
          then updatedTask (statusOnly COMPLETED) (now i) task else task) i l)
  = l.
Proof.
  induction l as [|task l IH]; intros i j Hl; [reflexivity|].
  cbn [pendingAt forallb] in Hl. apply andb_true_iff in Hl as [Htask Hl].
  cbn [JSArray.mapFrom]. rewrite (IH _ _ Hl). f_equal.
  destruct (String.eqb (Task.id task) id) eqn:Hid.
  - cbn [updatedTask Task.id]. rewrite Hid.
    cbn [negb orb] in Htask. apply andb_true_iff in Htask as [Hst Hat].
    destruct task as [tid title description status difficulty createdAt completedAt dueDate].
    cbn in *. destruct status; try discriminate. destruct completedAt; [discriminate|].
    reflexivity.
  - rewrite Hid. reflexivity.
Qed.

(** X25.  [uncompleteTask] undoes [completeTask] on pending tasks: when the
    tasks with the identifier are pending and have no completion time, the
    tasks after the two calls are the tasks before them. *)
Theorem completeTask_uncompleteTask s id now :
  pendingAt id (tasks s) = true ->
  tasks (uncompleteTask id (completeTask id now s)) = tasks s.
Proof.
  intros Hpending. cbn [uncompleteTask completeTask updateTask tasks].
  unfold JSArray.mapIndexed. now apply uncomplete_complete.
Qed.

(** The first of two pending tasks, completed and made pending again. *)
Lemma completeTask_uncompleteTask_witness :
  tasks (uncompleteTask "1" (completeTask "1" (fun _ => 7) twoPending)) = tasks twoPending.
Proof.
  exact (completeTask_uncompleteTask twoPending "1" (fun _ => 7) eq_refl).
Defined.

End Tasks.

(** ** TaskService *)

Section Service.

Variable Database : Type.
Variable dbCreateTask :
  CreateTaskPayload.t -> Database -> OperationResult.t Task.t * Database.
Variable dbGetAllTasks : Database -> OperationResult.t (list Task.t) * Database.
Variable dbUpdateTask :
  string -> UpdateTaskPayload.t -> Database -> OperationResult.t Task.t * Database.

Lemma trimStart_empty (text : string) :
  JSString.trimStart text = EmptyString -> allChars JSString.isWhiteSpace text = true.
Proof.
  induction text as [|c text IH]; [reflexivity|].
  cbn [JSString.trimStart allChars].
  destruct (JSString.isWhiteSpace c); [exact IH | discriminate].
Qed.

Lemma trimStart_kept (text : string) :
  JSString.trimStart text = EmptyString
  \/ exists c rest, JSString.trimStart text = String c rest /\ JSString.isWhiteSpace c = false.
Proof.
  induction text as [|c text IH]; [now left|].
  cbn [JSString.trimStart]. destruct (JSString.isWhiteSpace c) eqn:Hc; [exact IH|].
  right. now exists c, text.
Qed.

Lemma length_zero (text : string) : (String.length text =? 0)%nat = true <-> text = EmptyString.
Proof. destruct text; cbn; split; congruence. Qed.

Lemma blank_spaces (text : string) :
  TaskService.blank text = allChars JSString.isWhiteSpace text.
Proof.
  unfold TaskService.blank, JSString.trim.
  destruct (allChars JSString.isWhiteSpace text) eqn:Hall.
  - rewrite <- (string_app_empty_r text) at 2.
    rewrite (trimStart_blank text EmptyString Hall). apply orb_true_r.
  - apply orb_false_iff. split.
    + destruct text; [discriminate | reflexivity].
    + destruct (trimStart_kept text) as [Hempty | (c & rest & Hkept & Hc)].
      * apply trimStart_empty in Hempty. congruence.
      * rewrite Hkept.
        pose proof (trimEnd_String_kept c rest Hc) as Hne.
        destruct (JSString.trimEnd (String c rest)); [congruence | reflexivity].
Qed.

(** X26.  [createTask] hands a payload to the database exactly when its title
    has a character that is not white space and at most 255 characters,
    its description has at most 2000 characters and its due date is
    missing, 0 or not before the clock: then the answer and the database
    are those of the database manager.  Otherwise the answer is a failure
    with an error message and no data, and the database is as it was. *)
Theorem createTask_guards_database payload now db :
  let out := TaskService.createTask Database dbCreateTask payload now db in
  (acceptable payload now = true -> out = dbCreateTask payload db)
  /\ (acceptable payload now = false ->
      out.2 = db
      /\ OperationResult.success out.1 = false
      /\ OperationResult.data out.1 = None
      /\ OperationResult.error out.1 <> None).
Proof.
  cbv zeta. unfold TaskService.createTask, acceptable.
  rewrite blank_spaces.
  destruct (allChars JSString.isWhiteSpace (CreateTaskPayload.title payload));
    cbn [negb andb]; [split; [discriminate | repeat split; discriminate]|].
  rewrite Nat.ltb_antisym.
  destruct (String.length (CreateTaskPayload.title payload) <=? 255)%nat;
    cbn [negb andb]; [|split; [discriminate | repeat split; discriminate]].
  rewrite (Nat.ltb_antisym (String.length (CreateTaskPayload.description payload))).
  destruct (String.length (CreateTaskPayload.description payload) <=? 2000)%nat eqn:Hdesc;
    cbn [negb andb].
  - rewrite andb_false_r. unfold TaskService.pastDueDate.
    destruct (CreateTaskPayload.dueDate payload) as [date|]; cbn [JS.truthy andb].
    + destruct (date =? 0) eqn:Hzero; cbn [negb andb orb]; [split; [reflexivity|discriminate]|].
      rewrite Z.ltb_antisym.
      destruct (now <=? date); cbn [negb];
        [split; [reflexivity|discriminate] | split; [discriminate | repeat split; discriminate]].
    + split; [reflexivity|discriminate].
  - assert (Hlen : (String.length (CreateTaskPayload.description payload) =? 0)%nat = false).
    { apply Nat.eqb_neq. apply Nat.leb_gt in Hdesc. lia. }
    rewrite Hlen. cbn [negb andb].
    split; [discriminate | repeat split; discriminate].
Qed.

Lemma trim_spaces (text : string) :
  (String.length (JSString.trim text) =? 0)%nat = allChars JSString.isWhiteSpace text.
Proof.
  rewrite <- blank_spaces. unfold TaskService.blank.
  destruct text; [reflexivity|]. reflexivity.
Qed.

(** X27.  [updateTask] hands the identifier and the payload to the database
    exactly when the identifier has a character that is not white space
    and what the payload gives is in order: a title with such a character
    and of at most 255 characters, a description of at most 2000
    characters, a due date not before the clock (0 is before it).
    Otherwise the answer is a failure and the database is as it was.  So
    [completeTask], which gives the status alone, is turned away for a
    blank identifier only. *)
Theorem updateTask_guards_database id payload now db :
  let out := TaskService.updateTask Database dbUpdateTask id payload now db in
  (acceptableUpdate id payload now = true -> out = dbUpdateTask id payload db)
  /\ (acceptableUpdate id payload now = false ->
      out.2 = db
      /\ OperationResult.success out.1 = false
      /\ OperationResult.data out.1 = None
      /\ OperationResult.error out.1 <> None)
  /\ TaskService.completeTask Database dbUpdateTask id now db
     = if allChars JSString.isWhiteSpace id
       then (OperationResult.failure "Task ID is required", db)
       else dbUpdateTask id (TaskStore.statusOnly COMPLETED) db.
Proof.
  cbv zeta. split; [|split].
  - unfold TaskService.updateTask, acceptableUpdate. rewrite blank_spaces.
    destruct (allChars JSString.isWhiteSpace id); cbn [negb andb]; [discriminate|].
    destruct (UpdateTaskPayload.title payload) as [title|].
    + rewrite trim_spaces.
      destruct (allChars JSString.isWhiteSpace title); cbn [negb andb]; [discriminate|].
      rewrite Nat.ltb_antisym.
      destruct (String.length title <=? 255)%nat; cbn [negb andb]; [|discriminate].
      destruct (UpdateTaskPayload.description payload) as [description|].
      * rewrite Nat.ltb_antisym.
        destruct (String.length description <=? 2000)%nat; cbn [negb andb]; [|discriminate].
        destruct (UpdateTaskPayload.dueDate payload) as [date|]; [|reflexivity].
        rewrite Z.ltb_antisym. destruct (now <=? date); cbn [negb]; [reflexivity|discriminate].
      * destruct (UpdateTaskPayload.dueDate payload) as [date|]; [|reflexivity].
        rewrite Z.ltb_antisym. destruct (now <=? date); cbn [negb]; [reflexivity|discriminate].
    + destruct (UpdateTaskPayload.description payload) as [description|].
      * rewrite Nat.ltb_antisym.
        destruct (String.length description <=? 2000)%nat; cbn [negb andb]; [|discriminate].
        destruct (UpdateTaskPayload.dueDate payload) as [date|]; [|reflexivity].
        rewrite Z.ltb_antisym. destruct (now <=? date); cbn [negb]; [reflexivity|discriminate].
      * destruct (UpdateTaskPayload.dueDate payload) as [date|]; [|reflexivity].
        rewrite Z.ltb_antisym. destruct (now <=? date); cbn [negb]; [reflexivity|discriminate].
  - unfold TaskService.updateTask, acceptableUpdate. rewrite blank_spaces.
    destruct (allChars JSString.isWhiteSpace id); cbn [negb andb];
      [repeat split; discriminate|].
    destruct (UpdateTaskPayload.title payload) as [title|].
    + rewrite trim_spaces.
      destruct (allChars JSString.isWhiteSpace title); cbn [negb andb];
        [repeat split; discriminate|].
      rewrite Nat.ltb_antisym.
      destruct (String.length title <=? 255)%nat; cbn [negb andb];
        [|repeat split; discriminate].
      destruct (UpdateTaskPayload.description payload) as [description|].
      * rewrite Nat.ltb_antisym.
        destruct (String.length description <=? 2000)%nat; cbn [negb andb];
          [|repeat split; discriminate].
        destruct (UpdateTaskPayload.dueDate payload) as [date|]; [|discriminate].
        rewrite Z.ltb_antisym. destruct (now <=? date); cbn [negb];
          [discriminate | repeat split; discriminate].
      * destruct (UpdateTaskPayload.dueDate payload) as [date|]; [|discriminate].
        rewrite Z.ltb_antisym. destruct (now <=? date); cbn [negb];
          [discriminate | repeat split; discriminate].
    + destruct (UpdateTaskPayload.description payload) as [description|].
      * rewrite Nat.ltb_antisym.
        destruct (String.length description <=? 2000)%nat; cbn [negb andb];
          [|repeat split; discriminate].
        destruct (UpdateTaskPayload.dueDate payload) as [date|]; [|discriminate].
        rewrite Z.ltb_antisym. destruct (now <=? date); cbn [negb];
          [discriminate | repeat split; discriminate].
      * destruct (UpdateTaskPayload.dueDate payload) as [date|]; [|discriminate].
        rewrite Z.ltb_antisym. destruct (now <=? date); cbn [negb];
          [discriminate | repeat split; discriminate].
  - unfold TaskService.completeTask, TaskService.updateTask.
    rewrite blank_spaces. reflexivity.
Qed.

(** X28.  On the tasks the database answers with, [areAllTasksCompleted] of the
    service says whether every task is completed, and so agrees with
    [UnlockService] on every list but the empty one: with no task at all
    the service answers true where [UnlockService] (and the store) answer
    false.  [getCompletionPercentage] is the [completionPercentage] of
    [evaluateUnlockCondition] on every list. *)
Theorem service_all_completed_when_empty db message loaded db' :
  dbGetAllTasks db
  = ({| OperationResult.success := true; OperationResult.data := Some loaded;
        OperationResult.error := message |}, db') ->
  TaskService.areAllTasksCompleted Database dbGetAllTasks db
  = (forallb UnlockService.isCompleted loaded, db')
  /\ (loaded <> [] ->
      (TaskService.areAllTasksCompleted Database dbGetAllTasks db).1
      = UnlockService.areAllTasksCompleted loaded)
  /\ (loaded = [] ->
      (TaskService.areAllTasksCompleted Database dbGetAllTasks db).1 = true
      /\ UnlockService.areAllTasksCompleted loaded = false)
  /\ TaskService.getCompletionPercentage Database dbGetAllTasks db
     = (UnlockConditionResult.completionPercentage
          (UnlockService.evaluateUnlockCondition loaded), db').
Proof.
  intros Hdb. unfold TaskService.areAllTasksCompleted, TaskService.getCompletionPercentage.
  rewrite Hdb. cbn [OperationResult.success OperationResult.data fst].
  split; [reflexivity|]. split; [|split].
  - intros Hne. destruct loaded; [congruence | reflexivity].
  - intros ->. split; reflexivity.
  - destruct loaded; reflexivity.
Qed.

End Service.

(** A payload with the due date 0 and one with 200 accented letters as
    its title are handed to the database; a title of a no-break space and
    a space is turned away. *)
Lemma createTask_guards_database_witness :
  TaskService.createTask ListDatabase listCreateTask goodPayload 1700000000000 emptyDatabase
  = listCreateTask goodPayload emptyDatabase
  /\ TaskService.createTask ListDatabase listCreateTask accentedPayload 1700000000000
       emptyDatabase
     = listCreateTask accentedPayload emptyDatabase
  /\ (TaskService.createTask ListDatabase listCreateTask blankTitlePayload 1700000000000
        emptyDatabase).2 = emptyDatabase
  /\ OperationResult.success
       (TaskService.createTask ListDatabase listCreateTask blankTitlePayload 1700000000000
          emptyDatabase).1 = false.
Proof.
  split; [|split].
  - exact (proj1 (createTask_guards_database ListDatabase listCreateTask goodPayload
                    1700000000000 emptyDatabase) eq_refl).
  - exact (proj1 (createTask_guards_database ListDatabase listCreateTask accentedPayload
                    1700000000000 emptyDatabase) eq_refl).
  - pose proof (proj2 (createTask_guards_database ListDatabase listCreateTask
                         blankTitlePayload 1700000000000 emptyDatabase) eq_refl) as H.
    exact (conj (proj1 H) (proj1 (proj2 H))).
Defined.

(** The due date 0, which [createTask] lets through, is turned away, and
    so are an identifier and a title of no-break spaces; a title of 255
    accented letters is handed to the database. *)
Lemma updateTask_guards_database_witness :
  (TaskService.updateTask ListDatabase listUpdateTask "t1" (dueDateOnly 0)
     1700000000000 emptyDatabase).2 = emptyDatabase
  /\ (TaskService.updateTask ListDatabase listUpdateTask (String "160"%char EmptyString)
        (dueDateOnly 1800000000000) 1700000000000 emptyDatabase).2 = emptyDatabase
  /\ (TaskService.updateTask ListDatabase listUpdateTask "t1"
        (titleOnly (String "160"%char (String "160"%char EmptyString)))
        1700000000000 emptyDatabase).2 = emptyDatabase
  /\ TaskService.updateTask ListDatabase listUpdateTask "t1"
       (titleOnly (repeated "233"%char 255)) 1700000000000 emptyDatabase
     = listUpdateTask "t1" (titleOnly (repeated "233"%char 255)) emptyDatabase.
Proof.
  split; [|split; [|split]].
  - exact (proj1 (proj1 (proj2
             (updateTask_guards_database ListDatabase listUpdateTask "t1" (dueDateOnly 0)
                1700000000000 emptyDatabase)) eq_refl)).
  - exact (proj1 (proj1 (proj2
             (updateTask_guards_database ListDatabase listUpdateTask
                (String "160"%char EmptyString) (dueDateOnly 1800000000000)
                1700000000000 emptyDatabase)) eq_refl)).
  - exact (proj1 (proj1 (proj2
             (updateTask_guards_database ListDatabase listUpdateTask "t1"
                (titleOnly (String "160"%char (String "160"%char EmptyString)))
                1700000000000 emptyDatabase)) eq_refl)).
  - exact (proj1 (updateTask_guards_database ListDatabase listUpdateTask "t1"
                    (titleOnly (repeated "233"%char 255)) 1700000000000 emptyDatabase)
             eq_refl).
Defined.

(** A database without tasks. *)
Lemma service_all_completed_when_empty_witness :
  (TaskService.areAllTasksCompleted ListDatabase listGetAllTasks emptyDatabase).1 = true
  /\ UnlockService.areAllTasksCompleted [] = false.
Proof.
  exact (proj1 (proj2 (proj2
           (service_all_completed_when_empty ListDatabase listGetAllTasks emptyDatabase
              None [] emptyDatabase eq_refl))) eq_refl).
Defined.
